(** * polyply: mapping a meta-molecule onto force-field blocks

    A shallow embedding of [polyply/src/map_to_molecule.py]:
    [tag_exclusions], [_correspondence_to_residue] and the three methods of
    the [MapToMolecule] processor ([match_nodes_to_blocks], [add_blocks],
    [run_molecule]), together with the properties of the specification that
    concern them.

    Python dictionaries that the code iterates are insertion-ordered
    association lists ([odict]); dictionaries that are only indexed are
    [gmap]s; Python sets are [gset]s.  Exceptions are values of [exn]; the
    methods of the processor run in a state-and-exception monad in which, as
    in Python, the state reached when an exception is raised survives it. *)

From Stdlib Require Import ZArith String List Permutation Lia.
From stdpp Require Import base option list sorting gmap sets strings.

Local Open Scope Z_scope.

(** ** Exceptions *)

Inductive exn : Type :=
| KeyError
| IndexError
| IOError
| TypeError
| ValueError.

Definition result (A : Type) : Type := (exn + A)%type.

Definition ok {A} (a : A) : result A := inr a.
Definition raise {A} (e : exn) : result A := inl e.

Definition rbind {A B} (r : result A) (k : A -> result B) : result B :=
  match r with
  | inl e => inl e
  | inr a => k a
  end.

Declare Scope result_scope.
Delimit Scope result_scope with res.
Notation "'do' x <- r ; k" := (rbind r (fun x => k))
  (at level 10, x pattern, r at level 100, k at level 200) : result_scope.

Definition of_option {A} (e : exn) (o : option A) : result A :=
  match o with
  | Some a => inr a
  | None => inl e
  end.

(** ** Insertion-ordered dictionaries

    A Python [dict] keeps its keys in insertion order; assigning to a key
    that is present replaces the value where it stands, assigning to a new
    key appends it. *)

Definition odict (K V : Type) : Type := list (K * V).

Section Odict.
Context {K V : Type} `{EqDecision K}.

Fixpoint dict_get (k : K) (d : odict K V) : option V :=
  match d with
  | [] => None
  | (k', v) :: d' => if decide (k' = k) then Some v else dict_get k d'
  end.

Definition dict_mem (k : K) (d : odict K V) : bool :=
  match dict_get k d with
  | Some _ => true
  | None => false
  end.

Fixpoint dict_set (k : K) (v : V) (d : odict K V) : odict K V :=
  match d with
  | [] => [(k, v)]
  | (k', v') :: d' =>
      if decide (k' = k) then (k', v) :: d' else (k', v') :: dict_set k v d'
  end.

Definition dict_keys (d : odict K V) : list K := map fst d.
Definition dict_values (d : odict K V) : list V := map snd d.

(** [d.update(other)] *)
Definition dict_update (d other : odict K V) : odict K V :=
  fold_left (fun acc kv => dict_set (fst kv) (snd kv) acc) other d.

(** The invariant of a dictionary: no key occurs twice. *)
Definition dict_wf (d : odict K V) : Prop := NoDup (dict_keys d).
End Odict.

(** ** Attribute values

    Node attributes are integers ([resid], [nrexcl] tags), strings
    ([resname], [from_itp], atom names) or graphs (the [graph] attribute
    that holds a residue).  A graph value carries its nodes, each with its
    own attribute dictionary, and its edges. *)

Definition node : Type := Z.

#[warnings="-register-all"]
Inductive value : Type :=
| VInt (z : Z)
| VStr (s : string)
| VGraph (nodes : list (node * list (string * value)))
         (edges : list (node * node)).

Abbreviation attrs := (odict string value).

(** Python's [==] on attribute values.  Integers and strings compare by
    value and are never equal to one another.  Graph objects compare by
    identity in Python; the two comparisons of this module are on [resid]
    and [from_itp] values, which are integers and strings, and the model
    answers [false] whenever a graph is involved. *)
Definition py_eq (a b : value) : bool :=
  match a, b with
  | VInt x, VInt y => Z.eqb x y
  | VStr s, VStr t => String.eqb s t
  | _, _ => false
  end.

(** ** Graphs, blocks, molecules, the force field *)

(** A plain [networkx.Graph] with node attributes, in insertion order. *)
Record Graph : Type := mkGraph {
  g_nodes : odict node attrs;
  g_edges : list (node * node)
}.

Definition empty_graph : Graph := mkGraph [] [].

Definition graph_value (g : Graph) : value := VGraph (g_nodes g) (g_edges g).

(** [Graph.add_node(n, **data)]: a new node receives a fresh attribute
    dictionary filled from [data]; an existing one is updated with it. *)
Definition add_node (n : node) (data : attrs) (g : Graph) : Graph :=
  match dict_get n (g_nodes g) with
  | Some old => mkGraph (dict_set n (dict_update old data) (g_nodes g)) (g_edges g)
  | None => mkGraph (g_nodes g ++ [(n, dict_update [] data)]) (g_edges g)
  end.

(** A template of the force field: a graph with the scalar [nrexcl]. *)
Record Block : Type := mkBlock {
  b_nodes : odict node attrs;
  b_edges : list (node * node);
  nrexcl : Z
}.

Record ForceField : Type := mkForceField {
  blocks : gmap string Block
}.

(** The fine-grained molecule. *)
Record Molecule : Type := mkMolecule {
  m_nodes : odict node attrs;
  m_edges : list (node * node);
  m_nrexcl : option Z
}.

(** [force_field.blocks[name]]: the names of the library are strings, any
    other key is absent. *)
Definition blocks_get (ff : ForceField) (name : value) : result Block :=
  match name with
  | VStr s => of_option KeyError (blocks ff !! s)
  | _ => raise KeyError
  end.

(** [nx.set_node_attributes(block, v, name)] with a scalar [v]: every node
    of the block gets [name = v]. *)
Definition set_node_attributes (b : Block) (v : value) (name : string) : Block :=
  mkBlock (map (fun na => (fst na, dict_set name v (snd na))) (b_nodes b))
          (b_edges b) (nrexcl b).

Definition set_nrexcl (b : Block) (n : Z) : Block :=
  mkBlock (b_nodes b) (b_edges b) n.

(** ** tag_exclusions *)

Section TagExclusions.
Local Open Scope result_scope.

(** First loop (lines 30-33).  Iterating the keys of [node_to_block] and
    indexing it by each key visits its items. *)
Fixpoint collect_excls (items : odict node value) (ff : ForceField)
         (excls : odict node Z) : result (odict node Z) :=
  match items with
  | [] => ok excls
  | (nd, name) :: rest =>
      do block <- blocks_get ff name;
      collect_excls rest ff (dict_set nd (nrexcl block) excls)
  end.

(** [len(set(excls.values()))] *)
Definition distinct_count (vals : list Z) : nat :=
  size (list_to_set vals : gset Z).

(** [min(list(excls.values()))]; Python raises ValueError on an empty
    list. *)
Definition py_min (vals : list Z) : result Z :=
  match vals with
  | [] => raise ValueError
  | x :: xs => ok (fold_left Z.min xs x)
  end.

(** Second loop (lines 37-40): the block is mutated in place, so the
    library maps its name to the mutated block afterwards. *)
Fixpoint apply_excls (items : odict node Z) (node_to_block : odict node value)
         (min_excl : Z) (ff : ForceField) : result ForceField :=
  match items with
  | [] => ok ff
  | (nd, excl) :: rest =>
      do name <- of_option KeyError (dict_get nd node_to_block);
      do block <- blocks_get ff name;
      match name with
      | VStr s =>
          let block' :=
            set_nrexcl (set_node_attributes block (VInt excl) "exclude"%string) min_excl in
          apply_excls rest node_to_block min_excl
                      (mkForceField (<[s := block']> (blocks ff)))
      | _ => raise KeyError
      end
  end.

Definition tag_exclusions (node_to_block : odict node value)
           (ff : ForceField) : result ForceField :=
  do excls <- collect_excls node_to_block ff [];
  if (1 <? distinct_count (dict_values excls))%nat then
    do min_excl <- py_min (dict_values excls);
    apply_excls excls node_to_block min_excl ff
  else ok ff.
End TagExclusions.

(** ** The meta-molecule and the networkx functions the module calls

    The meta-molecule is a [networkx.Graph] with a [molecule] payload.  Its
    edges are kept in the order in which they were added; networkx lists the
    neighbours of a node in that order. *)

Record MetaMolecule : Type := mkMeta {
  mm_nodes : odict node attrs;
  mm_edges : list (node * node);
  molecule : option Molecule
}.

(** [G[u]]: the neighbours of [u], each once, in insertion order. *)
Definition neighbors (edges : list (node * node)) (u : node) : list node :=
  remove_dups
    (flat_map (fun e => if decide (fst e = u) then [snd e]
                        else if decide (snd e = u) then [fst e] else [])
              edges).

(** [nx.get_node_attributes(G, name)]:
    [{n: d[name] for n, d in G.nodes.items() if name in d}]. *)
Definition get_node_attributes (nodes : odict node attrs) (name : string)
  : odict node value :=
  fold_left (fun acc nd =>
               match dict_get name (snd nd) with
               | Some v => dict_set (fst nd) v acc
               | None => acc
               end) nodes [].

(** [Graph.add_edge(u, v)] on a graph without edge data: both endpoints
    become nodes (with an empty attribute dictionary) if they are not yet. *)
Definition add_edge (u v : node) (g : Graph) : Graph :=
  let with_node n nodes :=
    if dict_mem n nodes then nodes else nodes ++ [(n, [])] in
  mkGraph (with_node v (with_node u (g_nodes g))) (g_edges g ++ [(u, v)]).

(** The traversal state of [dfs_edges]: the [visited] set and the edges
    yielded so far. *)
Definition dfs_state : Type := (gset node * list (node * node))%type.

(** One stack frame of [nx.dfs_edges]: the children of [parent] are taken in
    order; an unvisited child yields the edge [(parent, child)], is marked,
    and is descended into while the depth limit allows it ([depth_now > 1],
    with the limit [len(G)] at the start node). *)
Fixpoint dfs_from (depth_now : nat) (edges : list (node * node))
         (parent : node) (st : dfs_state) {struct depth_now} : dfs_state :=
  fold_left
    (fun (st : dfs_state) (child : node) =>
       if decide (child ∈ fst st) then st
       else
         let st1 : dfs_state := ({[child]} ∪ fst st, snd st ++ [(parent, child)]) in
         match depth_now with
         | S (S _ as deeper) => dfs_from deeper edges child st1
         | _ => st1
         end)
    (neighbors edges parent) st.

(** [nx.dfs_edges(G)] without a source: every node not yet visited starts a
    traversal.  Only the edges of the depth-first forest are yielded. *)
Definition dfs_edges (G : MetaMolecule) : list (node * node) :=
  snd (fold_left
         (fun (st : dfs_state) (start : node) =>
            if decide (start ∈ fst st) then st
            else dfs_from (length (mm_nodes G)) (mm_edges G) start
                          ({[start]} ∪ fst st, snd st))
         (dict_keys (mm_nodes G)) (∅, [])).

(** One round of the breadth-first search: the set grows by the neighbours
    of its members. *)
Definition bfs_step (edges : list (node * node)) (S : gset node) : gset node :=
  S ∪ list_to_set
        (flat_map (fun e => (if decide (fst e ∈ S) then [snd e] else [])
                            ++ (if decide (snd e ∈ S) then [fst e] else []))
                  edges).

(** [_plain_bfs(G, v)]: the nodes reachable from [v].  A graph with [n]
    nodes needs at most [n] rounds. *)
Definition plain_bfs (g : Graph) (v : node) : gset node :=
  Nat.iter (length (g_nodes g)) (bfs_step (g_edges g)) {[v]}.

(** [nx.connected_components(G)]: for each node in order that no earlier
    component contains, the set of nodes reachable from it. *)
Definition connected_components (g : Graph) : list (gset node) :=
  snd (fold_left
         (fun (st : gset node * list (gset node)) (v : node) =>
            if decide (v ∈ fst st) then st
            else let c := plain_bfs g v in (fst st ∪ c, snd st ++ [c]))
         (dict_keys (g_nodes g)) (∅, [])).

(** ** _correspondence_to_residue *)

Section Residue.
Local Open Scope result_scope.

(** [residue.nodes[mol_node][attribute] = value] *)
Definition set_node_attr (n : node) (attribute : string) (v : value)
           (g : Graph) : result Graph :=
  do d <- of_option KeyError (dict_get n (g_nodes g));
  ok (mkGraph (dict_set n (dict_set attribute v d) (g_nodes g)) (g_edges g)).

(** [attribute in ["graph", "seqID"]] *)
Definition not_propagated (attribute : string) : bool :=
  bool_decide (attribute ∈ ["graph"%string; "seqID"%string]).

(** The inner loop (lines 68-73) over the items of the meta node. *)
Fixpoint propagate (items : attrs) (mol_node : node) (residue : Graph)
  : result Graph :=
  match items with
  | [] => ok residue
  | (attribute, v) :: rest =>
      if not_propagated attribute then propagate rest mol_node residue
      else
        do residue' <- set_node_attr mol_node attribute v residue;
        propagate rest mol_node residue'
  end.

(** The outer loop (lines 64-73) over [correspondence.values()]. *)
Fixpoint residue_loop (targets : list node) (meta_attrs : attrs)
         (resid : value) (mol : Molecule) (residue : Graph) : result Graph :=
  match targets with
  | [] => ok residue
  | mol_node :: rest =>
      do data <- of_option KeyError (dict_get mol_node (m_nodes mol));
      do r <- of_option KeyError (dict_get "resid"%string data);
      if py_eq r resid then
        do residue' <- propagate meta_attrs mol_node (add_node mol_node data residue);
        residue_loop rest meta_attrs resid mol residue'
      else residue_loop rest meta_attrs resid mol residue
  end.

Definition _correspondence_to_residue (meta_molecule : MetaMolecule)
           (mol : Molecule) (correspondence : odict node node)
           (res_node : node) : result Graph :=
  do meta_attrs <- of_option KeyError (dict_get res_node (mm_nodes meta_molecule));
  do resid <- of_option KeyError (dict_get "resid"%string meta_attrs);
  residue_loop (dict_values correspondence) meta_attrs resid mol empty_graph.
End Residue.

(** ** The visiting order of add_blocks (lines 169-173) *)

Section NodeOrder.
Local Open Scope result_scope.

Fixpoint result_map {A B} (f : A -> result B) (l : list A) : result (list B) :=
  match l with
  | [] => ok []
  | x :: l' => do y <- f x; do ys <- result_map f l'; ok (y :: ys)
  end.

(** [resid] is an integer attribute; the order of Python on the pairs
    [(resid, node)] is only modelled for integers, anything else is a
    TypeError of the comparison. *)
Definition as_int (v : value) : result Z :=
  match v with
  | VInt z => ok z
  | _ => raise TypeError
  end.

(** Python's order on tuples: the first components decide unless they are
    equal. *)
Definition pair_leb (a b : Z * node) : bool :=
  (fst a <? fst b) || ((fst a =? fst b) && (snd a <=? snd b)).

Fixpoint insert_sorted (x : Z * node) (l : list (Z * node)) : list (Z * node) :=
  match l with
  | [] => [x]
  | y :: l' => if pair_leb x y then x :: l else y :: insert_sorted x l'
  end.

(** [sorted(l)] *)
Definition py_sorted (l : list (Z * node)) : list (Z * node) :=
  fold_right insert_sorted [] l.

Definition node_order (meta_molecule : MetaMolecule) : result (list node) :=
  let node_keys := dict_keys (mm_nodes meta_molecule) in
  let resid_dict := get_node_attributes (mm_nodes meta_molecule) "resid"%string in
  do resids <- result_map (fun n => of_option KeyError (dict_get n resid_dict)) node_keys;
  do ints <- result_map as_int resids;
  ok (map snd (py_sorted (combine ints node_keys))).
End NodeOrder.

(** ** The MapToMolecule processor *)

(** What vermouth provides: [Block.to_molecule()] and
    [Molecule.merge_molecule(block)].  The merge mutates the molecule and
    returns the correspondence from the nodes of the block to the nodes
    they became; it may raise (vermouth refuses to merge molecules whose
    [nrexcl] differ). *)
Record Vermouth : Type := mkVermouth {
  to_molecule : Block -> Molecule;
  merge_molecule : Molecule -> Block -> result (Molecule * odict node node)
}.

(** The objects a method reaches: the fields of [self] (line 84-91) and the
    meta-molecule it is given. *)
Record State : Type := mkState {
  node_to_block : odict node value;
  node_to_fragment : gmap node nat;
  fragments : list (gset node);
  multiblock_correspondence : list (odict node node);
  added_fragments : list node;
  added_fragment_nodes : list node;
  force_field : ForceField;
  meta_molecule : MetaMolecule
}.

(** [MapToMolecule(force_field)] about to process [meta_molecule]. *)
Definition init_state (ff : ForceField) (mm : MetaMolecule) : State :=
  mkState [] ∅ [] [] [] [] ff mm.

Definition with_node_to_block (f : odict node value -> odict node value) (s : State) :=
  mkState (f (node_to_block s)) (node_to_fragment s) (fragments s)
          (multiblock_correspondence s) (added_fragments s)
          (added_fragment_nodes s) (force_field s) (meta_molecule s).

Definition with_node_to_fragment (f : gmap node nat -> gmap node nat) (s : State) :=
  mkState (node_to_block s) (f (node_to_fragment s)) (fragments s)
          (multiblock_correspondence s) (added_fragments s)
          (added_fragment_nodes s) (force_field s) (meta_molecule s).

Definition with_fragments (f : list (gset node) -> list (gset node)) (s : State) :=
  mkState (node_to_block s) (node_to_fragment s) (f (fragments s))
          (multiblock_correspondence s) (added_fragments s)
          (added_fragment_nodes s) (force_field s) (meta_molecule s).

Definition with_multiblock_correspondence
           (f : list (odict node node) -> list (odict node node)) (s : State) :=
  mkState (node_to_block s) (node_to_fragment s) (fragments s)
          (f (multiblock_correspondence s)) (added_fragments s)
          (added_fragment_nodes s) (force_field s) (meta_molecule s).

Definition with_added_fragment_nodes (f : list node -> list node) (s : State) :=
  mkState (node_to_block s) (node_to_fragment s) (fragments s)
          (multiblock_correspondence s) (added_fragments s)
          (f (added_fragment_nodes s)) (force_field s) (meta_molecule s).

Definition with_force_field (f : ForceField -> ForceField) (s : State) :=
  mkState (node_to_block s) (node_to_fragment s) (fragments s)
          (multiblock_correspondence s) (added_fragments s)
          (added_fragment_nodes s) (f (force_field s)) (meta_molecule s).

Definition with_meta_molecule (f : MetaMolecule -> MetaMolecule) (s : State) :=
  mkState (node_to_block s) (node_to_fragment s) (fragments s)
          (multiblock_correspondence s) (added_fragments s)
          (added_fragment_nodes s) (force_field s) (f (meta_molecule s)).

(** Computations that read and write the state and may raise; the state at
    the time of the exception is kept. *)
Definition M (A : Type) : Type := State -> result A * State.

Definition ret {A} (a : A) : M A := fun s => (inr a, s).

Definition bind {A B} (m : M A) (k : A -> M B) : M B :=
  fun s => match m s with
           | (inl e, s') => (inl e, s')
           | (inr a, s') => k a s'
           end.

Definition lift {A} (r : result A) : M A := fun s => (r, s).
Definition get : M State := fun s => (inr s, s).
Definition modify (f : State -> State) : M unit := fun s => (inr tt, f s).

Declare Scope proc_scope.
Delimit Scope proc_scope with proc.
Notation "x <- m ;; k" := (bind m (fun x => k))
  (at level 100, m at next level, right associativity) : proc_scope.
Notation "m ;; k" := (bind m (fun _ => k))
  (at level 100, right associativity) : proc_scope.

(** [for x in l: body(x)] *)
Fixpoint for_ {A} (l : list A) (body : A -> M unit) : M unit :=
  match l with
  | [] => ret tt
  | x :: l' => bind (body x) (fun _ => for_ l' body)
  end.

(** [for x in l: acc = body(x, acc)] for a loop that rebinds a local. *)
Fixpoint for_acc {A B} (l : list A) (body : A -> B -> M B) (acc : B) : M B :=
  match l with
  | [] => ret acc
  | x :: l' => bind (body x acc) (for_acc l' body)
  end.

Section Processor.
Variable V : Vermouth.
Local Open Scope proc_scope.

(** Lines 127-132: every traversed edge goes to one of the two graphs. *)
Definition classify_edge (restart_attr : odict node value)
           (graphs : Graph * Graph) (e : node * node) : Graph * Graph :=
  if dict_mem (fst e) restart_attr && dict_mem (snd e) restart_attr
  then (fst graphs, add_edge (fst e) (snd e) (snd graphs))
  else (add_edge (fst e) (snd e) (fst graphs), snd graphs).

(** Lines 140-149, for one connected component of the restart graph. *)
Definition match_fragment (restart_attr : odict node value)
           (fragment : gset node) : M unit :=
  first <- lift (of_option IndexError (head (elements fragment)));;
  block_name <- lift (of_option KeyError (dict_get first restart_attr));;
  names <- lift (result_map (fun n => of_option KeyError (dict_get n restart_attr))
                            (elements fragment));;
  if forallb (fun name => py_eq name block_name) names then
    modify (with_fragments (fun fs => fs ++ [fragment]));;
    s <- get;;
    _ <- lift (blocks_get (force_field s) block_name);;
    for_ (elements fragment)
         (fun n =>
            modify (with_node_to_block (dict_set n block_name));;
            s <- get;;
            modify (with_node_to_fragment (<[n := (length (fragments s) - 1)%nat]>)))
  else lift (raise IOError).

Definition match_nodes_to_blocks : M unit :=
  s <- get;;
  let meta := meta_molecule s in
  let restart_attr := get_node_attributes (mm_nodes meta) "from_itp"%string in
  let graphs := fold_left (classify_edge restart_attr) (dfs_edges meta)
                          (empty_graph, empty_graph) in
  let regular_graph := fst graphs in
  let restart_graph := snd graphs in
  for_ (dict_keys (g_nodes regular_graph))
       (fun n =>
          a <- lift (of_option KeyError (dict_get n (mm_nodes meta)));;
          resname <- lift (of_option KeyError (dict_get "resname"%string a));;
          modify (with_node_to_block (dict_set n resname)));;
  for_ (connected_components restart_graph) (match_fragment restart_attr).

(** [meta_molecule.nodes[n]["graph"] = g] *)
Definition set_graph (n : node) (g : value) : M unit :=
  s <- get;;
  a <- lift (of_option KeyError (dict_get n (mm_nodes (meta_molecule s))));;
  modify (with_meta_molecule
            (fun mm => mkMeta (dict_set n (dict_set "graph"%string g a) (mm_nodes mm))
                              (mm_edges mm) (molecule mm))).

(** ["from_itp" in meta_molecule.nodes[n]] *)
Definition has_from_itp (n : node) : M bool :=
  s <- get;;
  a <- lift (of_option KeyError (dict_get n (mm_nodes (meta_molecule s))));;
  ret (dict_mem "from_itp"%string a).

(** [_correspondence_to_residue] on the current meta-molecule. *)
Definition residue_of (mol : Molecule) (correspondence : odict node node)
           (n : node) : M Graph :=
  s <- get;;
  lift (_correspondence_to_residue (meta_molecule s) mol correspondence n).

(** Lines 223-224 (and 182-183): the members of the fragment of
    [of_node] are recorded as added. *)
Definition mark_fragment_added (of_node : node) : M unit :=
  s <- get;;
  fragment_id <- lift (of_option KeyError (node_to_fragment s !! of_node));;
  fragment <- lift (of_option IndexError (fragments s !! fragment_id));;
  modify (with_added_fragment_nodes (fun l => l ++ elements fragment)).

(** [{node: node for node in new_mol.nodes}] *)
Definition identity_correspondence (mol : Molecule) : odict node node :=
  fold_left (fun acc n => dict_set n n acc) (dict_keys (m_nodes mol)) [].

(** The body of the loop over the remaining nodes (lines 200-225);
    [new_mol] is the molecule built so far. *)
Definition add_block (start_node n : node) (new_mol : Molecule) : M Molecule :=
  s <- get;;
  mc <- (if bool_decide (n ∈ added_fragment_nodes s) then
           fragment_id <- lift (of_option KeyError (node_to_fragment s !! n));;
           correspondence <-
             lift (of_option IndexError (multiblock_correspondence s !! fragment_id));;
           ret (new_mol, correspondence)
         else
           name <- lift (of_option KeyError (dict_get n (node_to_block s)));;
           block <- lift (blocks_get (force_field s) name);;
           lift (merge_molecule V new_mol block));;
  let new_mol' := fst mc in
  let correspondence := snd mc in
  residue <- residue_of new_mol' correspondence n;;
  set_graph n (graph_value residue);;
  restart <- has_from_itp n;;
  s <- get;;
  (if restart && negb (bool_decide (n ∈ added_fragments s)) then
     mark_fragment_added start_node;;
     modify (with_multiblock_correspondence (fun l => l ++ [correspondence]))
   else ret tt);;
  ret new_mol'.

Definition add_blocks : M Molecule :=
  s <- get;;
  node_keys <- lift (node_order (meta_molecule s));;
  start_node <- lift (of_option IndexError (head node_keys));;
  name <- lift (of_option KeyError (dict_get start_node (node_to_block s)));;
  block <- lift (blocks_get (force_field s) name);;
  let new_mol := to_molecule V block in
  restart <- has_from_itp start_node;;
  (if restart then
     mark_fragment_added start_node;;
     let correspondence := identity_correspondence new_mol in
     modify (with_multiblock_correspondence
               (fun l => l ++ [identity_correspondence new_mol]));;
     residue <- residue_of new_mol correspondence start_node;;
     set_graph start_node (graph_value residue)
   else
     set_graph start_node (VGraph (m_nodes new_mol) (m_edges new_mol)));;
  for_acc (tail node_keys) (add_block start_node) new_mol.

Definition run_molecule : M unit :=
  match_nodes_to_blocks;;
  s <- get;;
  ff <- lift (tag_exclusions (node_to_block s) (force_field s));;
  modify (with_force_field (fun _ => ff));;
  new_molecule <- add_blocks;;
  modify (with_meta_molecule
            (fun mm => mkMeta (mm_nodes mm) (mm_edges mm) (Some new_molecule))).
End Processor.

(** ** A model of the vermouth operations

    Modelled from the spec: [Block.to_molecule] and
    [Molecule.merge_molecule] belong to the vermouth library and are not
    part of the module.  Instantiating a block numbers its nodes from 0;
    merging a block appends its nodes after the largest node of the
    molecule, shifts their [resid] by the [resid] of that node, returns the
    correspondence from the nodes of the block to the new nodes, and is
    refused with a ValueError when the [nrexcl] of the two differ.  The
    theorems below quantify over every [Vermouth]; this instance serves to
    run the processor on concrete inputs. *)

Definition resid_or_1 (a : attrs) : Z :=
  match dict_get "resid"%string a with
  | Some (VInt z) => z
  | _ => 1
  end.

Definition renumber (first : Z) (shift : Z) (nodes : odict node attrs)
  : odict node attrs :=
  imap (fun i na =>
          (first + Z.of_nat i,
           dict_set "resid"%string (VInt (resid_or_1 (snd na) + shift)) (snd na)))
       nodes.

Definition correspondence_from (first : Z) (nodes : odict node attrs)
  : odict node node :=
  imap (fun i na => (fst na, first + Z.of_nat i)) nodes.

Definition rename_edges (c : odict node node) (edges : list (node * node))
  : list (node * node) :=
  omap (fun e => match dict_get (fst e) c, dict_get (snd e) c with
                 | Some u, Some v => Some (u, v)
                 | _, _ => None
                 end) edges.

Definition model_to_molecule (b : Block) : Molecule :=
  mkMolecule (renumber 0 0 (b_nodes b))
             (rename_edges (correspondence_from 0 (b_nodes b)) (b_edges b))
             (Some (nrexcl b)).

Definition last_node (mol : Molecule) : option (node * attrs) :=
  fold_left (fun best na =>
               match best with
               | Some b => if fst b <? fst na then Some na else Some b
               | None => Some na
               end) (m_nodes mol) None.

Definition model_merge_molecule (mol : Molecule) (b : Block)
  : result (Molecule * odict node node) :=
  let nrexcl_now :=
    match m_nrexcl mol, m_nodes mol with
    | None, [] => Some (nrexcl b)
    | n, _ => n
    end in
  if bool_decide (nrexcl_now = Some (nrexcl b)) then
    let first := match last_node mol with Some l => fst l + 1 | None => 0 end in
    let shift := match last_node mol with Some l => resid_or_1 (snd l) | None => 0 end in
    let c := correspondence_from first (b_nodes b) in
    ok (mkMolecule (m_nodes mol ++ renumber first shift (b_nodes b))
                   (m_edges mol ++ rename_edges c (b_edges b))
                   nrexcl_now, c)
  else raise ValueError.

Definition vermouth_model : Vermouth :=
  mkVermouth model_to_molecule model_merge_molecule.

(** * Auxiliary definitions

    Predicates used in the statements below, and the concrete force
    fields, meta-molecules and molecules on which the processor is run. *)

(** An entry of [excls] records the [nrexcl] of the block of its node. *)
Definition excl_of_block (ff : ForceField) (node_to_block : odict node value)
           (ne : node * Z) : Prop :=
  exists s b, dict_get (fst ne) node_to_block = Some (VStr s)
              /\ blocks ff !! s = Some b /\ nrexcl b = snd ne.

(** The block as the second loop leaves it: every node tagged with the
    original [nrexcl], and [nrexcl] lowered to the minimum. *)
Definition tagged (b : Block) (min_excl : Z) : Block :=
  set_nrexcl (set_node_attributes b (VInt (nrexcl b)) "exclude"%string) min_excl.

(** A block of the library is either as it was in [ff0] or tagged. *)
Definition partly_tagged (ff0 : ForceField) (m : Z) (ff : ForceField) : Prop :=
  forall s, blocks ff !! s = blocks ff0 !! s
            \/ exists b, blocks ff0 !! s = Some b
                         /\ blocks ff !! s = Some (tagged b m).

(** The block named [s] has been tagged. *)
Definition tagged_at (ff0 : ForceField) (m : Z) (ff : ForceField) (s : string) : Prop :=
  exists b, blocks ff0 !! s = Some b /\ blocks ff !! s = Some (tagged b m).

Definition one_atom_block (n : Z) : Block :=
  mkBlock [(0, [("atomname"%string, VStr "C1"); ("resid"%string, VInt 1)])] [] n.

(** Three templates with [nrexcl] 2, 3 and 4, each referenced by one node. *)
Definition ff_234 : ForceField :=
  mkForceField (<["PEO"%string := one_atom_block 2]>
               (<["PS"%string := one_atom_block 3]>
               (<["P3HT"%string := one_atom_block 4]> ∅))).

Definition node_to_block_234 : odict node value :=
  [(0, VStr "PEO"); (1, VStr "PS"); (2, VStr "P3HT")].

(** Two templates that agree on [nrexcl]. *)
Definition ff_same : ForceField :=
  mkForceField (<["PEO"%string := one_atom_block 3]>
               (<["PS"%string := one_atom_block 3]> ∅)).

Definition node_to_block_same : odict node value :=
  [(0, VStr "PEO"); (1, VStr "PS"); (2, VStr "PEO")].

(** The attribute dictionary of a residue node after the inner loop. *)
Definition propagated (items : attrs) (d : attrs) : attrs :=
  fold_left (fun acc kv => if not_propagated (fst kv) then acc
                           else dict_set (fst kv) (snd kv) acc) items d.

(** What the residue node of a molecule node with the attributes [data]
    carries once the meta attributes [meta_attrs] have been propagated. *)
Definition residue_attrs (meta_attrs data d : attrs) : Prop :=
  (forall k, In k (dict_keys d)
             <-> In k (dict_keys data)
                 \/ (In k (dict_keys meta_attrs) /\ not_propagated k = false))
  /\ (forall k, not_propagated k = false -> In k (dict_keys meta_attrs) ->
                exists v, In (k, v) meta_attrs /\ dict_get k d = Some v).

(** The molecule node [n] has the [resid] of the meta node. *)
Definition resid_matches (mol : Molecule) (resid : value) (n : node) : Prop :=
  exists data r, dict_get n (m_nodes mol) = Some data
                 /\ dict_get "resid"%string data = Some r
                 /\ py_eq r resid = true.

Definition residue_inv (meta_attrs : attrs) (resid : value) (mol : Molecule)
           (seen : list node) (g : Graph) : Prop :=
  g_edges g = []
  /\ dict_wf (g_nodes g)
  /\ (forall n, In n (dict_keys (g_nodes g))
                <-> In n seen /\ resid_matches mol resid n)
  /\ (forall n d, dict_get n (g_nodes g) = Some d ->
                  exists data, dict_get n (m_nodes mol) = Some data
                               /\ residue_attrs meta_attrs data d).

(** A meta node with every kind of attribute, and a molecule of three atoms
    in two residues, bonded in a chain. *)
Definition attrs_one_residue : attrs :=
  [("resname"%string, VStr "PEO"); ("resid"%string, VInt 3);
   ("seqID"%string, VInt 12); ("graph"%string, VGraph [] []);
   ("from_itp"%string, VStr "PEO")].

Definition meta_one_residue : MetaMolecule :=
  mkMeta [(7, attrs_one_residue)] [] None.

Definition mol_three_atoms : Molecule :=
  mkMolecule [(0, [("atomname"%string, VStr "C1"); ("resid"%string, VInt 3)]);
              (1, [("atomname"%string, VStr "C2"); ("resid"%string, VInt 3)]);
              (2, [("atomname"%string, VStr "C1"); ("resid"%string, VInt 4)])]
             [(0, 1); (1, 2)] (Some 1).

Definition corr_three_atoms : odict node node := [(0, 0); (1, 1); (2, 2)].

Definition residue_atom (atomname : string) : attrs :=
  [("atomname"%string, VStr atomname); ("resid"%string, VInt 3);
   ("resname"%string, VStr "PEO"); ("from_itp"%string, VStr "PEO")].

Definition residue_two_atoms : Graph :=
  mkGraph [(0, residue_atom "C1"); (1, residue_atom "C2")] [].

(** A molecule whose only atom carries a [seqID] of its own. *)
Definition mol_with_seqID : Molecule :=
  mkMolecule [(0, [("resid"%string, VInt 3); ("seqID"%string, VInt 9)])] [] (Some 1).

(** The order of Python on the pairs [(resid, node)]. *)
Definition pair_le (a b : Z * node) : Prop :=
  fst a < fst b \/ (fst a = fst b /\ snd a <= snd b).

(** The pair under which [add_blocks] sorts a node. *)
Definition sort_key (na : node * attrs) : Z * node :=
  (match dict_get "resid"%string (snd na) with
   | Some (VInt z) => z
   | _ => 0
   end, fst na).

Definition has_int_resid (na : node * attrs) : Prop :=
  exists z, dict_get "resid"%string (snd na) = Some (VInt z).



(** A computation keeps an invariant of the state, whether it returns or
    raises. *)
Definition keeps {A} (I : State -> Prop) (m : M A) : Prop :=
  forall s, I s -> I (snd (m s)).

(** The node carries [from_itp]. *)
Definition from_itp_node (mm : MetaMolecule) (n : node) : Prop :=
  exists a, dict_get n (mm_nodes mm) = Some a
            /\ dict_mem "from_itp"%string a = true.

(** The bookkeeping of the assembler as long as no fragment has been
    recorded for [start_node]. *)
Definition no_fragment_of (start_node : node) (s : State) : Prop :=
  node_to_fragment s !! start_node = None
  /\ added_fragment_nodes s = []
  /\ added_fragments s = [].

(** Every node and every endpoint of an edge of the graph satisfies [P]. *)
Definition graph_support (P : node -> Prop) (g : Graph) : Prop :=
  (forall n, In n (dict_keys (g_nodes g)) -> P n)
  /\ (forall e, In e (g_edges g) -> P (fst e) /\ P (snd e)).

(** The endpoints of the edges are nodes, and no node is listed twice. *)
Definition graph_closed (g : Graph) : Prop :=
  dict_wf (g_nodes g)
  /\ forall e, In e (g_edges g) ->
               In (fst e) (dict_keys (g_nodes g))
               /\ In (snd e) (dict_keys (g_nodes g)).

(** Both endpoints of the edge carry [from_itp]. *)
Definition restart_edge (restart_attr : odict node value) (e : node * node) : bool :=
  dict_mem (fst e) restart_attr && dict_mem (snd e) restart_attr.

(** The [from_itp] attribute of a node of the meta-molecule. *)
Definition from_itp_of (mm : MetaMolecule) (n : node) : option value :=
  match dict_get n (mm_nodes mm) with
  | Some a => dict_get "from_itp"%string a
  | None => None
  end.

Definition restart_attr_of (mm : MetaMolecule) : odict node value :=
  get_node_attributes (mm_nodes mm) "from_itp"%string.

(** The regular and the restart graph of lines 127-132. *)
Definition classified_graphs (mm : MetaMolecule) : Graph * Graph :=
  fold_left (classify_edge (restart_attr_of mm)) (dfs_edges mm)
            (empty_graph, empty_graph).

(** What classification leaves untouched, and where it records fragments. *)
Definition classified (ff : ForceField) (mm : MetaMolecule) (s : State) : Prop :=
  force_field s = ff
  /\ meta_molecule s = mm
  /\ added_fragment_nodes s = []
  /\ added_fragments s = []
  /\ multiblock_correspondence s = []
  /\ forall n, is_Some (node_to_fragment s !! n) ->
               dict_mem n (restart_attr_of mm) = true.

(** The two nodes are the ends of a traversed edge and both carry
    [from_itp]. *)
Definition traversed_restart (mm : MetaMolecule) (x y : node) : Prop :=
  (In (x, y) (dfs_edges mm) \/ In (y, x) (dfs_edges mm))
  /\ is_Some (from_itp_of mm x) /\ is_Some (from_itp_of mm y).

(** The ends of the edge carry [from_itp] values that differ. *)
Definition inconsistent_edge (mm : MetaMolecule) (e : node * node) : bool :=
  match from_itp_of mm (fst e), from_itp_of mm (snd e) with
  | Some a, Some b => negb (py_eq a b)
  | _, _ => false
  end.

(** Three-node meta-molecules: a fragment of two residues with one template
    name, and one whose two residues name different templates. *)
Definition attrs_of (resname : string) (resid : Z) (itp : option string) : attrs :=
  [("resname"%string, VStr resname); ("resid"%string, VInt resid)]
    ++ match itp with
       | Some t => [("from_itp"%string, VStr t)]
       | None => []
       end.

Definition block_two_residues : Block :=
  mkBlock [(0, [("atomname"%string, VStr "BB"); ("resid"%string, VInt 1)]);
           (1, [("atomname"%string, VStr "BB"); ("resid"%string, VInt 2)])]
          [(0, 1)] 1.

Definition block_one_residue : Block :=
  mkBlock [(0, [("atomname"%string, VStr "EO"); ("resid"%string, VInt 1)])] [] 1.

Definition ff_fragments : ForceField :=
  mkForceField (<["chainA"%string := block_two_residues]>
               (<["chainB"%string := block_two_residues]>
               (<["PEO"%string := block_one_residue]> ∅))).

Definition meta_inconsistent : MetaMolecule :=
  mkMeta [(0, attrs_of "ALA" 1 (Some "chainA"%string));
          (1, attrs_of "GLY" 2 (Some "chainB"%string))]
         [(0, 1)] None.

(** A fragment [0 - 1] of the template chainA, and a node [3] that names
    chainB and is bonded to node [1]; the edge [1 - 3] closes a cycle through
    the plain residue [2] and was added last, so the depth-first traversal
    reaches [3] through [2] and never yields it. *)
Definition meta_cycle : MetaMolecule :=
  mkMeta [(0, attrs_of "ALA" 1 (Some "chainA"%string));
          (1, attrs_of "GLY" 2 (Some "chainA"%string));
          (2, attrs_of "PEO" 3 None);
          (3, attrs_of "PEO" 4 (Some "chainB"%string))]
         [(0, 1); (1, 2); (2, 3); (1, 3)] None.

(** A plain residue followed by a fragment of two residues. *)
Definition meta_fragment_second : MetaMolecule :=
  mkMeta [(0, attrs_of "PEO" 1 None);
          (1, attrs_of "ALA" 2 (Some "chainA"%string));
          (2, attrs_of "GLY" 3 (Some "chainA"%string))]
         [(0, 1); (1, 2)] None.

(** Two fragments of two residues each, separated by a plain residue. *)
Definition meta_two_fragments : MetaMolecule :=
  mkMeta [(0, attrs_of "ALA" 1 (Some "chainA"%string));
          (1, attrs_of "GLY" 2 (Some "chainA"%string));
          (2, attrs_of "PEO" 3 None);
          (3, attrs_of "ALA" 4 (Some "chainB"%string));
          (4, attrs_of "GLY" 5 (Some "chainB"%string))]
         [(0, 1); (1, 2); (2, 3); (3, 4)] None.

(** The [graph] attribute of a node of the meta-molecule. *)
Definition graph_of (mm : MetaMolecule) (n : node) : option value :=
  match dict_get n (mm_nodes mm) with
  | Some a => dict_get "graph"%string a
  | None => None
  end.

(** A meta-molecule of a single residue, and one with an isolated residue
    next to a bonded pair. *)
Definition meta_single : MetaMolecule :=
  mkMeta [(0, attrs_of "PEO" 1 None)] [] None.

Definition meta_isolated : MetaMolecule :=
  mkMeta [(0, attrs_of "PEO" 1 None);
          (1, attrs_of "PEO" 2 None);
          (2, attrs_of "PEO" 3 None)]
         [(0, 1)] None.

(** The [graph] attribute of the node is a graph without edges. *)
Definition edgeless_graph_at (mm : MetaMolecule) (n : node) : Prop :=
  exists nodes, graph_of mm n = Some (VGraph nodes []).

(** The node is an end of an edge yielded by the traversal. *)
Definition traversed_node (mm : MetaMolecule) (n : node) : Prop :=
  exists e, In e (dfs_edges mm) /\ (n = fst e \/ n = snd e).

(** The pair is an edge of the graph, in one direction or the other. *)
Definition edge_of (edges : list (node * node)) (e : node * node) : Prop :=
  In e edges \/ In (snd e, fst e) edges.

(** [NoDup] of a short explicit list of integers. *)
Ltac nodup_small :=
  repeat first
    [ apply NoDup_nil_2
    | apply NoDup_cons_2;
      [rewrite list_elem_of_In; simpl; intuition discriminate|] ].

(** ** Further auxiliary definitions *)

(** The block differs from the original at most in [nrexcl] and in the
    [exclude] attribute of its nodes. *)
Definition same_but_exclusions (b b' : Block) : Prop :=
  b_edges b' = b_edges b
  /\ Forall2 (fun na na' =>
                fst na' = fst na
                /\ forall k, k <> "exclude"%string ->
                             dict_get k (snd na') = dict_get k (snd na))
             (b_nodes b) (b_nodes b').

(** Two templates with different [nrexcl], one of them referenced twice, and
    a third template that no node references. *)
Definition ff_mixed : ForceField :=
  mkForceField (<["PEO"%string := one_atom_block 3]>
               (<["PS"%string := one_atom_block 1]>
               (<["P3HT"%string := one_atom_block 5]> ∅))).

Definition node_to_block_mixed : odict node value :=
  [(0, VStr "PEO"); (1, VStr "PS"); (2, VStr "PEO")].

(** A reference to a template that the library does not have. *)
Definition node_to_block_missing : odict node value :=
  [(0, VStr "PEO"); (1, VStr "PMMA")].

(** A residue that has lost its [resid]. *)
Definition meta_without_resid : MetaMolecule :=
  mkMeta [(0, attrs_of "PEO" 1 None);
          (1, [("resname"%string, VStr "PEO")])]
         [(0, 1)] None.

(** The components are pairwise disjoint. *)
Definition pairwise_disjoint (comps : list (gset node)) : Prop :=
  ForallOrdPairs (fun c1 c2 : gset node => c1 ## c2) comps.

(** The edge is traversed and both its ends carry [from_itp]. *)
Definition traversed_restart_edge (mm : MetaMolecule) (e : node * node) : Prop :=
  In e (dfs_edges mm)
  /\ is_Some (from_itp_of mm (fst e)) /\ is_Some (from_itp_of mm (snd e)).

(** The node has a [resname]. *)
Definition has_resname (mm : MetaMolecule) (n : node) : Prop :=
  exists a resname, dict_get n (mm_nodes mm) = Some a
                    /\ dict_get "resname"%string a = Some resname.

(** What [match_nodes_to_blocks] needs to return: the ends of a traversed
    edge between two [from_itp] nodes name one template of the library, and
    the ends of every other traversed edge have a [resname]. *)
Definition classifiable (ff : ForceField) (mm : MetaMolecule) : Prop :=
  forall e, In e (dfs_edges mm) ->
    match from_itp_of mm (fst e), from_itp_of mm (snd e) with
    | Some a, Some b =>
        exists name, a = VStr name /\ b = VStr name /\ is_Some (blocks ff !! name)
    | _, _ => has_resname mm (fst e) /\ has_resname mm (snd e)
    end.

(** The bookkeeping after the classification of two fragments separated by
    a plain residue. *)
Definition classified_two_fragments : State :=
  snd (match_nodes_to_blocks (init_state ff_fragments meta_two_fragments)).

(** The attribute [k] of the node [n] of the meta-molecule. *)
Definition node_attr (mm : MetaMolecule) (n : node) (k : string) : option value :=
  match dict_get n (mm_nodes mm) with
  | Some a => dict_get k a
  | None => None
  end.

(** The second meta-molecule has the edges and the nodes of the first, in
    the same order, and differs at most in the [graph] attribute of the
    nodes. *)
Definition same_but_graph (mm mm' : MetaMolecule) : Prop :=
  mm_edges mm' = mm_edges mm
  /\ dict_keys (mm_nodes mm') = dict_keys (mm_nodes mm)
  /\ forall n k, k <> "graph"%string -> node_attr mm' n k = node_attr mm n k.

(** [meta_molecule.nodes[n]["graph"] = g] where [a] are the attributes of
    [n]. *)
Definition with_graph (n : node) (g : value) (a : attrs) (s : State) : State :=
  with_meta_molecule
    (fun mm => mkMeta (dict_set n (dict_set "graph"%string g a) (mm_nodes mm))
                      (mm_edges mm) (molecule mm)) s.

(** [force_field.blocks[self.node_to_block[n]]] *)
Definition block_of (s : State) (n : node) : result Block :=
  match dict_get n (node_to_block s) with
  | Some name => blocks_get (force_field s) name
  | None => raise KeyError
  end.

(** The blocks merged into the molecule one after the other. *)
Fixpoint merge_all (V : Vermouth) (mol : Molecule) (bs : list Block)
  : result Molecule :=
  match bs with
  | [] => ok mol
  | b :: bs' =>
      match merge_molecule V mol b with
      | inr mc => merge_all V (fst mc) bs'
      | inl e => raise e
      end
  end.

(** A chain of three plain residues, and the processor after its
    classification. *)
Definition meta_plain_chain : MetaMolecule :=
  mkMeta [(0, attrs_of "PEO" 1 None);
          (1, attrs_of "PEO" 2 None);
          (2, attrs_of "PEO" 3 None)]
         [(0, 1); (1, 2)] None.

Definition classified_plain_chain : State :=
  snd (match_nodes_to_blocks (init_state ff_fragments meta_plain_chain)).

(** The template library keeps its names, and each template is as before
    up to [nrexcl] and the [exclude] attribute of its nodes. *)
Definition same_templates (ff ff' : ForceField) : Prop :=
  forall name,
    match blocks ff !! name with
    | Some b => exists b', blocks ff' !! name = Some b' /\ same_but_exclusions b b'
    | None => blocks ff' !! name = None
    end.

(** A meta-molecule that is one fragment of the template chainA, and the
    processor after its classification. *)
Definition meta_one_fragment : MetaMolecule :=
  mkMeta [(0, attrs_of "ALA" 1 (Some "chainA"%string));
          (1, attrs_of "GLY" 2 (Some "chainA"%string))]
         [(0, 1)] None.

Definition classified_one_fragment : State :=
  snd (match_nodes_to_blocks (init_state ff_fragments meta_one_fragment)).

(** Two fragments separated by a plain residue, where the residues of the
    fragment that the traversal finds second have the lowest [resid], and
    the processor after the classification. *)
Definition meta_second_fragment_first : MetaMolecule :=
  mkMeta [(0, attrs_of "ALA" 4 (Some "chainA"%string));
          (1, attrs_of "GLY" 5 (Some "chainA"%string));
          (2, attrs_of "PEO" 3 None);
          (3, attrs_of "ALA" 1 (Some "chainB"%string));
          (4, attrs_of "GLY" 2 (Some "chainB"%string))]
         [(0, 1); (1, 2); (2, 3); (3, 4)] None.

Definition classified_second_fragment_first : State :=
  snd (match_nodes_to_blocks
         (init_state ff_fragments meta_second_fragment_first)).

(** [force_field.blocks[meta_molecule.nodes[n]["resname"]]] *)
Definition template_by_resname (ff : ForceField) (mm : MetaMolecule) (n : node)
  : result Block :=
  match dict_get n (mm_nodes mm) with
  | Some a =>
      match dict_get "resname"%string a with
      | Some name => blocks_get ff name
      | None => raise KeyError
      end
  | None => raise KeyError
  end.

(** The attribute dictionaries of the atoms have no key twice. *)
Definition atoms_wf (mol : Molecule) : Prop :=
  forall n data, dict_get n (m_nodes mol) = Some data -> dict_wf data.

(** Every node of the residue has the values of the atom it was taken from
    at the keys that propagation does not write. *)
Definition keeps_atom_attrs (meta_attrs : attrs) (mol : Molecule) (g : Graph)
  : Prop :=
  forall n d,
    dict_get n (g_nodes g) = Some d ->
    exists data,
      dict_get n (m_nodes mol) = Some data
      /\ forall k, ~ In k (dict_keys meta_attrs) \/ not_propagated k = true ->
                   dict_get k d = dict_get k data.

(** The graph of [meta_cycle] with its edges inserted in another order. *)
Definition meta_cycle_reordered : MetaMolecule :=
  mkMeta (mm_nodes meta_cycle) [(0, 1); (1, 3); (1, 2); (2, 3)] None.

(** Lines 176-197: the template of the first node is instantiated, the
    [graph] of the node is attached, and the new molecule is returned. *)
Definition add_first_block (V : Vermouth) (start_node : node) : M Molecule :=
  (s <- get;;
   name <- lift (of_option KeyError (dict_get start_node (node_to_block s)));;
   block <- lift (blocks_get (force_field s) name);;
   let new_mol := to_molecule V block in
   restart <- has_from_itp start_node;;
   (if restart then
      mark_fragment_added start_node;;
      modify (with_multiblock_correspondence
                (fun l => l ++ [identity_correspondence new_mol]));;
      residue <- residue_of new_mol (identity_correspondence new_mol) start_node;;
      set_graph start_node (graph_value residue)
    else
      set_graph start_node (VGraph (m_nodes new_mol) (m_edges new_mol)));;
   ret new_mol)%proc.

(** Lines 176-225 for the node [start_node] and then for the nodes
    [later_nodes], one after the other in the order of the list. *)
Definition visit_nodes (V : Vermouth) (start_node : node)
           (later_nodes : list node) : M Molecule :=
  (new_mol <- add_first_block V start_node;;
   for_acc later_nodes (add_block V start_node) new_mol)%proc.

(** What the assembler relies on in vermouth: an instantiated block has the
    [nrexcl] of the block, and a block is merged into a molecule of the same
    [nrexcl], which the molecule keeps ([merge_molecule] refuses molecules
    whose [nrexcl] differ). *)
Definition keeps_nrexcl (V : Vermouth) : Prop :=
  (forall b, m_nrexcl (to_molecule V b) = Some (nrexcl b))
  /\ (forall mol b,
        m_nrexcl mol = Some (nrexcl b) ->
        exists mol' c, merge_molecule V mol b = inr (mol', c)
                       /\ m_nrexcl mol' = Some (nrexcl b)).

(** * Properties *)

(** ** Dictionaries *)

Section OdictFacts.
Context {K V : Type} `{EqDecision K}.
Implicit Types (d : odict K V) (k : K) (v : V).

Lemma dict_get_set_eq k v d : dict_get k (dict_set k v d) = Some v.
Proof.
  induction d as [|[k' v'] d IH]; simpl.
  - destruct (decide (k = k)); congruence.
  - destruct (decide (k' = k)) as [->|Hne]; simpl.
    + destruct (decide (k = k)); congruence.
    + destruct (decide (k' = k)); [contradiction|exact IH].
Qed.

Lemma dict_get_set_ne k k' v d :
  k <> k' -> dict_get k' (dict_set k v d) = dict_get k' d.
Proof.
  intros Hne. induction d as [|[k0 v0] d IH]; simpl.
  - destruct (decide (k = k')); congruence.
  - destruct (decide (k0 = k)) as [->|Hk]; simpl.
    + destruct (decide (k = k')); congruence.
    + destruct (decide (k0 = k')); [reflexivity|exact IH].
Qed.

Lemma dict_get_In k v d : dict_get k d = Some v -> In (k, v) d.
Proof.
  induction d as [|[k' v'] d IH]; simpl; [discriminate|].
  destruct (decide (k' = k)) as [->|Hne]; intros Hg.
  - left. congruence.
  - right. auto.
Qed.

Lemma dict_get_None k d : dict_get k d = None <-> ~ In k (dict_keys d).
Proof.
  induction d as [|[k' v'] d IH]; simpl; [tauto|].
  destruct (decide (k' = k)) as [->|Hne].
  - split; [discriminate|]. intros Hn. exfalso. apply Hn. now left.
  - rewrite IH. unfold dict_keys. tauto.
Qed.

Lemma dict_get_Some_key k v d : dict_get k d = Some v -> In k (dict_keys d).
Proof.
  intros Hg. apply dict_get_In in Hg.
  apply (in_map fst) in Hg. exact Hg.
Qed.

Lemma In_dict_get_wf k v d : dict_wf d -> In (k, v) d -> dict_get k d = Some v.
Proof.
  unfold dict_wf, dict_keys.
  induction d as [|[k' v'] d IH]; simpl; [tauto|].
  intros Hwf Hin. apply NoDup_cons in Hwf as [Hnot Hwf].
  destruct Hin as [Heq|Hin].
  - inversion Heq; subst. destruct (decide (k = k)); congruence.
  - destruct (decide (k' = k)) as [->|Hne]; [|auto].
    exfalso. apply Hnot. apply list_elem_of_In.
    change k with (fst (k, v)). now apply in_map.
Qed.

Lemma dict_set_fresh k v d : dict_get k d = None -> dict_set k v d = d ++ [(k, v)].
Proof.
  induction d as [|[k' v'] d IH]; simpl; [reflexivity|].
  destruct (decide (k' = k)); [discriminate|].
  intros Hg. now rewrite IH.
Qed.

Lemma dict_keys_set k v d :
  dict_keys (dict_set k v d)
  = if dict_mem k d then dict_keys d else dict_keys d ++ [k].
Proof.
  unfold dict_mem, dict_keys.
  induction d as [|[k' v'] d IH]; simpl; [reflexivity|].
  destruct (decide (k' = k)) as [->|Hne]; simpl; [reflexivity|].
  rewrite IH. now destruct (dict_get k d).
Qed.

Lemma dict_set_keys_In k k' v d :
  In k' (dict_keys (dict_set k v d)) <-> k' = k \/ In k' (dict_keys d).
Proof.
  rewrite dict_keys_set. unfold dict_mem.
  destruct (dict_get k d) eqn:Hg.
  - apply dict_get_Some_key in Hg. split; [tauto|].
    intros [->|]; assumption.
  - rewrite in_app_iff. simpl. intuition congruence.
Qed.

Lemma dict_set_wf k v d : dict_wf d -> dict_wf (dict_set k v d).
Proof.
  unfold dict_wf. rewrite dict_keys_set. unfold dict_mem.
  destruct (dict_get k d) eqn:Hg; [trivial|].
  intros Hwf. apply NoDup_app. split; [exact Hwf|]. split.
  - intros x Hx Hx'. apply list_elem_of_singleton in Hx'. subst x.
    apply dict_get_None in Hg. apply Hg. now apply list_elem_of_In.
  - apply NoDup_singleton.
Qed.

Lemma dict_set_In k v d x :
  In x (dict_set k v d) -> x = (k, v) \/ In x d.
Proof.
  induction d as [|[k' v'] d IH]; simpl.
  - intros [<-|[]]. now left.
  - destruct (decide (k' = k)) as [->|Hne]; simpl.
    + intros [<-|Hin]; auto.
    + intros [<-|Hin]; auto. destruct (IH Hin); auto.
Qed.

Lemma dict_set_idem k v d :
  dict_set k v (dict_set k v d) = dict_set k v d.
Proof.
  induction d as [|[k' v'] d IH]; simpl.
  - destruct (decide (k = k)); congruence.
  - destruct (decide (k' = k)) as [->|Hne]; simpl.
    + destruct (decide (k = k)); congruence.
    + destruct (decide (k' = k)); [contradiction|]. now rewrite IH.
Qed.
End OdictFacts.

Lemma of_option_ok {A} (e : exn) (o : option A) a :
  of_option e o = inr a <-> o = Some a.
Proof. destruct o; simpl; split; congruence. Qed.

Lemma blocks_get_ok ff name b :
  blocks_get ff name = inr b <->
  exists s, name = VStr s /\ blocks ff !! s = Some b.
Proof.
  destruct name; simpl; unfold raise.
  - split; [discriminate|]. intros (s & Hs & _). discriminate.
  - rewrite of_option_ok. split; [eauto|].
    intros (s' & Hs & Hb). congruence.
  - split; [discriminate|]. intros (s & Hs & _). discriminate.
Qed.

(** ** tag_exclusions *)

Section TagExclusionsFacts.
Variable ff : ForceField.
Variable node_to_block : odict node value.

Lemma collect_excls_spec items acc :
  dict_wf node_to_block ->
  (forall n name, In (n, name) items -> In (n, name) node_to_block) ->
  (forall n name, In (n, name) items -> exists b, blocks_get ff name = inr b) ->
  Forall (excl_of_block ff node_to_block) acc ->
  exists excls,
    collect_excls items ff acc = inr excls
    /\ Forall (excl_of_block ff node_to_block) excls
    /\ (forall n, In n (dict_keys acc) \/ In n (dict_keys items)
                  -> In n (dict_keys excls)).
Proof.
  intros Hwf. revert acc.
  induction items as [|[n name] items IH]; intros acc Hsub Hex Hacc; simpl.
  - exists acc. split; [reflexivity|]. split; [assumption|].
    intros n [Hn|[]]. exact Hn.
  - destruct (Hex n name (or_introl eq_refl)) as [b Hb].
    rewrite Hb. simpl.
    destruct (IH (dict_set n (nrexcl b) acc)) as (excls & Hrun & Hgood & Hkeys).
    + intros; apply Hsub; now right.
    + intros n' name' Hin'. apply (Hex n' name'). now right.
    + apply Forall_forall. intros x Hx. apply list_elem_of_In in Hx.
      apply dict_set_In in Hx as [->|Hx].
      * apply blocks_get_ok in Hb as (s & -> & Hs).
        exists s, b. simpl. split; [|auto].
        apply In_dict_get_wf; [assumption|]. apply Hsub. now left.
      * rewrite Forall_forall in Hacc. apply Hacc. now apply list_elem_of_In.
    + exists excls. split; [exact Hrun|]. split; [exact Hgood|].
      intros m [Hm|[Hm|Hm]]; apply Hkeys.
      * left. apply dict_set_keys_In. now right.
      * left. apply dict_set_keys_In. left. now simpl in Hm.
      * now right.
Qed.
End TagExclusionsFacts.

Lemma distinct_count_le_1 (vals : list Z) v :
  (forall x, In x vals -> x = v) -> (distinct_count vals <= 1)%nat.
Proof.
  intros Hall. unfold distinct_count.
  rewrite <- (size_singleton (C := gset Z) v).
  apply subseteq_size. intros x Hx.
  apply elem_of_list_to_set, list_elem_of_In in Hx.
  apply elem_of_singleton. auto.
Qed.

Lemma distinct_count_ge_2 (vals : list Z) x y :
  x <> y -> In x vals -> In y vals -> (2 <= distinct_count vals)%nat.
Proof.
  intros Hne Hx Hy. unfold distinct_count.
  assert (Hsz : size ({[x]} ∪ {[y]} : gset Z) = 2%nat).
  { rewrite size_union by set_solver. now rewrite !size_singleton. }
  rewrite <- Hsz. apply subseteq_size.
  intros z Hz. apply elem_of_list_to_set, list_elem_of_In.
  apply elem_of_union in Hz as [Hz|Hz]; apply elem_of_singleton in Hz; now subst.
Qed.

Lemma fold_min_spec (xs : list Z) (x : Z) :
  In (fold_left Z.min xs x) (x :: xs)
  /\ forall y, In y (x :: xs) -> fold_left Z.min xs x <= y.
Proof.
  revert x. induction xs as [|a xs IH]; intros x; simpl.
  - split; [now left|]. intros y [<-|[]]. lia.
  - destruct (IH (Z.min x a)) as [Hin Hle]. split.
    + destruct Hin as [Heq|Hin]; [|auto].
      rewrite <- Heq. destruct (Z.min_spec x a) as [[_ ->]|[_ ->]]; auto.
    + intros y [<-|[<-|Hy]].
      * specialize (Hle (Z.min x a) (or_introl eq_refl)). lia.
      * specialize (Hle (Z.min x a) (or_introl eq_refl)). lia.
      * apply Hle. now right.
Qed.

Lemma py_min_spec (vals : list Z) m :
  In m vals -> (forall y, In y vals -> m <= y) -> py_min vals = inr m.
Proof.
  destruct vals as [|x xs]; [intros []|].
  intros Hin Hle. simpl. unfold ok. f_equal.
  destruct (fold_min_spec xs x) as [Hin' Hle'].
  specialize (Hle _ Hin'). specialize (Hle' _ Hin). lia.
Qed.

Lemma tagged_again b m :
  set_nrexcl (set_node_attributes (tagged b m) (VInt (nrexcl b)) "exclude"%string) m
  = tagged b m.
Proof.
  unfold tagged, set_nrexcl, set_node_attributes. simpl. f_equal.
  rewrite map_map. apply map_ext. intros [n a]. simpl.
  now rewrite dict_set_idem.
Qed.

Lemma tagged_nodes b m a d :
  In (a, d) (b_nodes (tagged b m)) ->
  dict_get "exclude"%string d = Some (VInt (nrexcl b)).
Proof.
  simpl. intros Hin. apply in_map_iff in Hin as ([a' d'] & Heq & _).
  inversion Heq; subst. apply dict_get_set_eq.
Qed.

Lemma tagged_keys b m : dict_keys (b_nodes (tagged b m)) = dict_keys (b_nodes b).
Proof. unfold dict_keys. simpl. rewrite map_map. reflexivity. Qed.

Section ApplyExcls.
Variable ff0 : ForceField.
Variable node_to_block : odict node value.
Variable m : Z.

Lemma apply_excls_spec items ff :
  Forall (excl_of_block ff0 node_to_block) items ->
  partly_tagged ff0 m ff ->
  exists ff',
    apply_excls items node_to_block m ff = inr ff'
    /\ partly_tagged ff0 m ff'
    /\ (forall s, tagged_at ff0 m ff s -> tagged_at ff0 m ff' s)
    /\ (forall n e s, In (n, e) items ->
                      dict_get n node_to_block = Some (VStr s) ->
                      tagged_at ff0 m ff' s).
Proof.
  revert ff. induction items as [|[n e] items IH]; intros ff Hgood Hinv; simpl.
  - exists ff. repeat split; auto. intros n e s [].
  - apply Forall_cons in Hgood as [(s & b & Hget & Hb & He) Hgood].
    simpl in Hget, He. rewrite Hget. simpl.
    assert (Hcur : exists b_cur, blocks ff !! s = Some b_cur
              /\ set_nrexcl (set_node_attributes b_cur (VInt e) "exclude"%string) m
                 = tagged b m).
    { destruct (Hinv s) as [Heq|(b' & Hb' & Heq)].
      - exists b. split; [congruence|]. subst e. reflexivity.
      - assert (b' = b) by congruence. subst b'.
        exists (tagged b m). split; [assumption|]. subst e. apply tagged_again. }
    destruct Hcur as (b_cur & Hcur & Htag). rewrite Hcur. simpl. rewrite Htag.
    set (ff1 := mkForceField (<[s := tagged b m]> (blocks ff))).
    assert (Hinv1 : partly_tagged ff0 m ff1).
    { intros s'. unfold ff1. simpl.
      destruct (decide (s = s')) as [<-|Hne].
      - right. exists b. split; [assumption|]. apply lookup_insert_eq.
      - rewrite lookup_insert_ne by assumption. apply Hinv. }
    assert (Hmono : forall s', tagged_at ff0 m ff s' -> tagged_at ff0 m ff1 s').
    { intros s' (b' & Hb0 & Hb1). exists b'. split; [assumption|].
      unfold ff1. simpl. destruct (decide (s = s')) as [<-|Hne].
      - rewrite lookup_insert_eq. congruence.
      - now rewrite lookup_insert_ne. }
    destruct (IH ff1 Hgood Hinv1) as (ff' & Hrun & Hinv' & Hmono' & Hdone).
    exists ff'. split; [exact Hrun|]. split; [exact Hinv'|]. split.
    + intros s' Hs'. auto.
    + intros n' e' s' [Heq|Hin] Hn'.
      * inversion Heq; subst n' e'. assert (s' = s) by congruence. subst s'.
        apply Hmono'. exists b. split; [assumption|].
        unfold ff1. simpl. apply lookup_insert_eq.
      * eapply Hdone; eassumption.
Qed.
End ApplyExcls.

Theorem tag_exclusions_same_nrexcl node_to_block ff v :
  (forall n name, In (n, name) node_to_block ->
     exists b, blocks_get ff name = inr b /\ nrexcl b = v) ->
  tag_exclusions node_to_block ff = inr ff.
Proof.
  intros Hall. unfold tag_exclusions.
  assert (Hc : forall items acc,
             (forall n name, In (n, name) items -> In (n, name) node_to_block) ->
             (forall x, In x (dict_values acc) -> x = v) ->
             exists excls, collect_excls items ff acc = inr excls
                           /\ forall x, In x (dict_values excls) -> x = v).
  { induction items as [|[n name] items IH]; intros acc Hsub Hacc; simpl.
    - eauto.
    - destruct (Hall n name) as (b & Hb & Hv); [apply Hsub; now left|].
      rewrite Hb. simpl. apply IH.
      + intros; apply Hsub; now right.
      + intros x Hx. apply in_map_iff in Hx as ([n' x'] & <- & Hx).
        apply dict_set_In in Hx as [Heq|Hx].
        * inversion Heq; subst. reflexivity.
        * apply Hacc. apply in_map_iff. now exists (n', x'). }
  destruct (Hc node_to_block []) as (excls & -> & Hv); [auto|intros x []|].
  simpl. pose proof (distinct_count_le_1 _ _ Hv) as Hle.
  destruct (Nat.ltb_spec 1 (distinct_count (dict_values excls))); [lia|reflexivity].
Qed.

(** C1 (as the code has it): when the templates referenced by the nodes
    carry the [nrexcl] values 2, 3 and 4, [tag_exclusions] sets the
    [nrexcl] of every referenced template to 2 and tags every node of every
    referenced template with [exclude] equal to the original [nrexcl] of its
    template: 3, 4, and also 2 for the template that was already at 2. *)
Theorem tag_exclusions_2_3_4 node_to_block ff :
  dict_wf node_to_block ->
  (forall n name, In (n, name) node_to_block ->
     exists b, blocks_get ff name = inr b /\ In (nrexcl b) [2; 3; 4]) ->
  (forall v, In v [2; 3; 4] ->
     exists n name b, In (n, name) node_to_block
                      /\ blocks_get ff name = inr b /\ nrexcl b = v) ->
  exists ff',
    tag_exclusions node_to_block ff = inr ff'
    /\ forall n name b,
         In (n, name) node_to_block -> blocks_get ff name = inr b ->
         exists b',
           blocks_get ff' name = inr b'
           /\ nrexcl b' = 2
           /\ dict_keys (b_nodes b') = dict_keys (b_nodes b)
           /\ forall a d, In (a, d) (b_nodes b') ->
                          dict_get "exclude"%string d = Some (VInt (nrexcl b)).
Proof.
  intros Hwf Hall Hocc. unfold tag_exclusions.
  destruct (collect_excls_spec ff node_to_block node_to_block [])
    as (excls & -> & Hgood & Hkeys); auto.
  { intros n name Hin. destruct (Hall n name Hin) as (b & Hb & _). eauto. }
  simpl.
  assert (Hval : forall n name b, In (n, name) node_to_block ->
                   blocks_get ff name = inr b -> In (n, nrexcl b) excls).
  { intros n name b Hin Hb.
    assert (Hk : In n (dict_keys excls)).
    { apply Hkeys. right. apply (in_map fst) in Hin. exact Hin. }
    apply in_map_iff in Hk as ([n' e] & Hn & Hin'). simpl in Hn. subst n'.
    rewrite Forall_forall in Hgood.
    destruct (Hgood (n, e)) as (s & b0 & Hget & Hb0 & He);
      [now apply list_elem_of_In|].
    simpl in Hget, He. rewrite (In_dict_get_wf _ _ _ Hwf Hin) in Hget.
    apply blocks_get_ok in Hb as (s' & Hs' & Hb).
    assert (s' = s) by congruence. subst s'.
    assert (b0 = b) by congruence. subst b0. now rewrite He. }
  assert (Hin_vals : forall v, In v [2; 3; 4] -> In v (dict_values excls)).
  { intros v Hv. destruct (Hocc v Hv) as (n & name & b & Hin & Hb & <-).
    apply in_map_iff. exists (n, nrexcl b). split; [reflexivity|]. eauto. }
  assert (Hrange : forall y, In y (dict_values excls) -> In y [2; 3; 4]).
  { intros y Hy. apply in_map_iff in Hy as ([n e] & <- & Hin). simpl.
    rewrite Forall_forall in Hgood.
    destruct (Hgood (n, e)) as (s & b0 & Hget & Hb0 & He);
      [now apply list_elem_of_In|].
    simpl in Hget, He. apply dict_get_In in Hget.
    destruct (Hall _ _ Hget) as (b & Hb & Hr).
    apply blocks_get_ok in Hb as (s' & Hs' & Hb).
    assert (s' = s) by congruence. subst s'.
    assert (b0 = b) by congruence. subst b0. now rewrite <- He. }
  assert (Hdistinct : (2 <= distinct_count (dict_values excls))%nat).
  { apply (distinct_count_ge_2 _ 2 3); [lia| |]; apply Hin_vals; simpl; auto. }
  destruct (Nat.ltb_spec 1 (distinct_count (dict_values excls))); [|lia].
  rewrite (py_min_spec _ 2).
  2: { apply Hin_vals. simpl; auto. }
  2: { intros y Hy. apply Hrange in Hy. simpl in Hy. lia. }
  simpl.
  destruct (apply_excls_spec ff node_to_block 2 excls ff Hgood)
    as (ff' & Hrun & _ & _ & Hdone).
  { intros s. now left. }
  exists ff'. split; [exact Hrun|].
  intros n name b Hin Hb.
  pose proof (Hval _ _ _ Hin Hb) as Hne.
  apply blocks_get_ok in Hb as (s & -> & Hb).
  destruct (Hdone n (nrexcl b) s Hne) as (b0 & Hb0 & Htag).
  { now apply In_dict_get_wf. }
  assert (b0 = b) by congruence. subst b0.
  exists (tagged b 2). split; [|split; [|split]].
  - apply blocks_get_ok. eauto.
  - reflexivity.
  - apply tagged_keys.
  - apply tagged_nodes.
Qed.

Lemma tag_exclusions_2_3_4_witness :
  exists ff',
    tag_exclusions node_to_block_234 ff_234 = inr ff'
    /\ forall n name b,
         In (n, name) node_to_block_234 -> blocks_get ff_234 name = inr b ->
         exists b',
           blocks_get ff' name = inr b'
           /\ nrexcl b' = 2
           /\ dict_keys (b_nodes b') = dict_keys (b_nodes b)
           /\ forall a d, In (a, d) (b_nodes b') ->
                          dict_get "exclude"%string d = Some (VInt (nrexcl b)).
Proof.
  apply (tag_exclusions_2_3_4 node_to_block_234 ff_234).
  - unfold dict_wf. simpl. nodup_small.
  - intros n name [H|[H|[H|[]]]]; injection H as <- <-;
      eexists; (split; [reflexivity|]); simpl; auto.
  - intros v [<-|[<-|[<-|[]]]].
    + exists 0, (VStr "PEO"), (one_atom_block 2). simpl. auto.
    + exists 1, (VStr "PS"), (one_atom_block 3). simpl. auto 6.
    + exists 2, (VStr "P3HT"), (one_atom_block 4). simpl. auto 6.
Defined.

(** C1 (counterexample to the last part of the claim): the only node of the
    template whose [nrexcl] was already 2 carries [exclude = 2] after
    [tag_exclusions]. *)
Lemma tag_exclusions_tags_minimum_template :
  exists ff' b' d,
    tag_exclusions node_to_block_234 ff_234 = inr ff'
    /\ nrexcl (one_atom_block 2) = 2
    /\ blocks_get ff_234 (VStr "PEO") = inr (one_atom_block 2)
    /\ blocks_get ff' (VStr "PEO") = inr b'
    /\ In (0, d) (b_nodes b')
    /\ dict_get "exclude"%string d = Some (VInt 2).
Proof.
  eexists _, _, _. split; [vm_compute; reflexivity|].
  split; [reflexivity|]. split; [reflexivity|].
  split; [vm_compute; reflexivity|].
  split; [left; reflexivity|]. reflexivity.
Qed.

(** C6: when all the templates referenced by the nodes share one [nrexcl],
    [tag_exclusions] leaves the template library as it is: no [nrexcl]
    changes and no [exclude] attribute is added. *)
Theorem tag_exclusions_noop node_to_block ff v :
  (forall n name, In (n, name) node_to_block ->
     exists b, blocks_get ff name = inr b /\ nrexcl b = v) ->
  tag_exclusions node_to_block ff = inr ff.
Proof. apply tag_exclusions_same_nrexcl. Qed.

Lemma tag_exclusions_noop_witness :
  tag_exclusions node_to_block_same ff_same = inr ff_same.
Proof.
  apply (tag_exclusions_noop node_to_block_same ff_same 3).
  intros n name [H|[H|[H|[]]]]; injection H as <- <-;
    eexists; split; reflexivity.
Defined.

(** ** _correspondence_to_residue *)

Section OdictUpdate.
Context {K V : Type} `{EqDecision K}.
Implicit Types (d : odict K V) (k : K) (v : V).

Lemma dict_set_same k v d : dict_get k d = Some v -> dict_set k v d = d.
Proof.
  induction d as [|[k' v'] d IH]; simpl; [discriminate|].
  destruct (decide (k' = k)) as [->|Hne]; intros Hg.
  - congruence.
  - now rewrite IH.
Qed.

Lemma dict_set_set k v v' d :
  dict_set k v (dict_set k v' d) = dict_set k v d.
Proof.
  induction d as [|[k0 v0] d IH]; simpl.
  - destruct (decide (k = k)); congruence.
  - destruct (decide (k0 = k)) as [->|Hne]; simpl.
    + destruct (decide (k = k)); congruence.
    + destruct (decide (k0 = k)); [contradiction|]. now rewrite IH.
Qed.

Lemma dict_update_keys d other k :
  In k (dict_keys (dict_update d other))
  <-> In k (dict_keys d) \/ In k (dict_keys other).
Proof.
  unfold dict_update. revert d.
  induction other as [|[k' v'] other IH]; intros d; simpl; [tauto|].
  rewrite IH, dict_set_keys_In. intuition congruence.
Qed.
End OdictUpdate.

Lemma propagated_keys items d k :
  In k (dict_keys (propagated items d))
  <-> In k (dict_keys d)
      \/ (In k (dict_keys items) /\ not_propagated k = false).
Proof.
  unfold propagated. revert d.
  induction items as [|[k' v'] items IH]; intros d; simpl; [tauto|].
  rewrite IH. destruct (not_propagated k') eqn:Hk'.
  - intuition congruence.
  - rewrite dict_set_keys_In. intuition congruence.
Qed.

Lemma propagated_value items d k :
  not_propagated k = false -> In k (dict_keys items) ->
  exists v, In (k, v) items /\ dict_get k (propagated items d) = Some v.
Proof.
  unfold propagated. intros Hk. revert d.
  induction items as [|[k' v'] items IH]; intros d; simpl; [tauto|].
  intros Hin.
  destruct (in_dec string_dec k (dict_keys items)) as [Hlater|Hnot].
  - destruct (IH (if not_propagated k' then d else dict_set k' v' d) Hlater)
      as (v & Hv & Hget).
    exists v. auto.
  - destruct Hin as [->|Hin]; [|contradiction].
    rewrite Hk. exists v'. split; [now left|].
    clear IH. generalize (dict_get_set_eq k v' d).
    generalize (dict_set k v' d). clear d.
    induction items as [|[k0 v0] items IH]; intros d Hd; simpl; [exact Hd|].
    simpl in Hnot. apply IH; [tauto|].
    destruct (not_propagated k0); [exact Hd|].
    rewrite dict_get_set_ne; [exact Hd|]. intros ->. tauto.
Qed.

Lemma propagated_excluded items d k :
  not_propagated k = true ->
  dict_get k (propagated items d) = dict_get k d.
Proof.
  unfold propagated. intros Hk. revert d.
  induction items as [|[k' v'] items IH]; intros d; simpl; [reflexivity|].
  rewrite IH. destruct (not_propagated k') eqn:Hk'; [reflexivity|].
  apply dict_get_set_ne. intros ->. congruence.
Qed.

Lemma propagate_spec items n g d :
  dict_get n (g_nodes g) = Some d ->
  propagate items n g
  = inr (mkGraph (dict_set n (propagated items d) (g_nodes g)) (g_edges g)).
Proof.
  revert g d. induction items as [|[k v] items IH]; intros g d Hd; simpl.
  - unfold ok. rewrite (dict_set_same _ _ _ Hd). now destruct g.
  - destruct (not_propagated k) eqn:Hk.
    + now apply IH.
    + unfold set_node_attr. rewrite Hd. simpl.
      rewrite (IH _ (dict_set k v d)); simpl.
      * now rewrite dict_set_set.
      * apply dict_get_set_eq.
Qed.

Lemma add_node_eq n data g :
  add_node n data g
  = mkGraph (dict_set n (dict_update (default [] (dict_get n (g_nodes g))) data)
                      (g_nodes g))
            (g_edges g).
Proof.
  unfold add_node. destruct (dict_get n (g_nodes g)) eqn:Hg; simpl.
  - reflexivity.
  - now rewrite dict_set_fresh.
Qed.

Lemma residue_loop_spec meta_attrs resid mol targets :
  forall seen g residue,
    residue_inv meta_attrs resid mol seen g ->
    residue_loop targets meta_attrs resid mol g = inr residue ->
    residue_inv meta_attrs resid mol (seen ++ targets) residue.
Proof.
  induction targets as [|n targets IH]; intros seen g residue Hinv; simpl.
  - intros [= <-]. now rewrite app_nil_r.
  - destruct (dict_get n (m_nodes mol)) as [data|] eqn:Hdata; simpl; [|discriminate].
    destruct (dict_get "resid"%string data) as [r|] eqn:Hr; simpl; [|discriminate].
    replace (seen ++ n :: targets) with ((seen ++ [n]) ++ targets)
      by now rewrite <- app_assoc.
    destruct Hinv as (Hedges & Hwf & Hkeys & Hattrs).
    destruct (py_eq r resid) eqn:Heq.
    + rewrite add_node_eq.
      set (d0 := dict_update (default [] (dict_get n (g_nodes g))) data).
      rewrite (propagate_spec _ _ _ d0) by (simpl; apply dict_get_set_eq).
      simpl. rewrite dict_set_set. apply IH.
      split; [exact Hedges|]. split; [now apply dict_set_wf|]. split; simpl.
      * intros n'. rewrite dict_set_keys_In, Hkeys, in_app_iff. simpl.
        split.
        -- intros [->|[Hs Hm]]; [|tauto].
           split; [tauto|]. now exists data, r.
        -- intros [[Hs|[<-|[]]] Hm]; tauto.
      * intros n' d. destruct (decide (n = n')) as [<-|Hne].
        -- rewrite dict_get_set_eq. intros [= <-].
           exists data. split; [assumption|].
           assert (Hd0 : forall k,
                      In k (dict_keys d0)
                      \/ (In k (dict_keys meta_attrs) /\ not_propagated k = false)
                      <-> In k (dict_keys data)
                          \/ (In k (dict_keys meta_attrs)
                              /\ not_propagated k = false)).
           { intros k. unfold d0. rewrite dict_update_keys.
             destruct (dict_get n (g_nodes g)) as [old|] eqn:Hold; simpl.
             - destruct (Hattrs _ _ Hold) as (data' & Hdata' & Hold_keys & _).
               assert (data' = data) by congruence. subst data'.
               rewrite Hold_keys. tauto.
             - tauto. }
           split.
           ++ intros k. rewrite propagated_keys. apply Hd0.
           ++ intros k Hk Hin. now apply propagated_value.
        -- rewrite dict_get_set_ne by assumption. apply Hattrs.
    + apply IH. split; [exact Hedges|]. split; [exact Hwf|]. split.
      * intros n'. rewrite Hkeys, in_app_iff. simpl. split; [tauto|].
        intros [[Hs|[<-|[]]] Hm]; [tauto|].
        destruct Hm as (data' & r' & Hdata' & Hr' & Heq').
        congruence.
      * exact Hattrs.
Qed.

Lemma correspondence_to_residue_inv meta_molecule mol correspondence res_node residue :
  _correspondence_to_residue meta_molecule mol correspondence res_node = inr residue ->
  exists meta_attrs resid,
    dict_get res_node (mm_nodes meta_molecule) = Some meta_attrs
    /\ dict_get "resid"%string meta_attrs = Some resid
    /\ residue_inv meta_attrs resid mol (dict_values correspondence) residue.
Proof.
  unfold _correspondence_to_residue.
  destruct (dict_get res_node (mm_nodes meta_molecule)) as [meta_attrs|];
    simpl; [|discriminate].
  destruct (dict_get "resid"%string meta_attrs) as [resid|] eqn:Hresid;
    simpl; [|discriminate].
  intros Hloop. exists meta_attrs, resid. split; [reflexivity|].
  split; [assumption|].
  apply (residue_loop_spec _ _ _ _ [] empty_graph); [|exact Hloop].
  split; [reflexivity|]. split; [constructor|]. split.
  - simpl. tauto.
  - simpl. discriminate.
Qed.

Lemma residue_loop_total meta_attrs resid mol targets :
  (forall n, In n targets ->
     exists data r, dict_get n (m_nodes mol) = Some data
                    /\ dict_get "resid"%string data = Some r) ->
  forall g, exists residue,
    residue_loop targets meta_attrs resid mol g = inr residue.
Proof.
  induction targets as [|n targets IH]; intros Hall g; simpl; [now exists g|].
  destruct (Hall n (or_introl eq_refl)) as (data & r & -> & Hr). simpl.
  rewrite Hr. simpl.
  assert (Hrest : forall n', In n' targets ->
            exists data r, dict_get n' (m_nodes mol) = Some data
                           /\ dict_get "resid"%string data = Some r)
    by (intros; apply Hall; now right).
  destruct (py_eq r resid); [|now apply IH].
  rewrite add_node_eq.
  erewrite propagate_spec by (simpl; apply dict_get_set_eq).
  simpl. now apply IH.
Qed.

(** [_correspondence_to_residue] returns a residue whenever the meta node
    has a [resid] and every target of the correspondence is a node of the
    molecule with a [resid]. *)
Lemma correspondence_to_residue_total meta_molecule mol correspondence res_node meta_attrs resid :
  dict_get res_node (mm_nodes meta_molecule) = Some meta_attrs ->
  dict_get "resid"%string meta_attrs = Some resid ->
  (forall n, In n (dict_values correspondence) ->
     exists data r, dict_get n (m_nodes mol) = Some data
                    /\ dict_get "resid"%string data = Some r) ->
  exists residue,
    _correspondence_to_residue meta_molecule mol correspondence res_node = inr residue.
Proof.
  intros Hnode Hresid Hall. unfold _correspondence_to_residue.
  rewrite Hnode. simpl. rewrite Hresid. simpl.
  now apply residue_loop_total.
Qed.

(** C9 (as the code has it): attribute propagation never writes [graph] or
    [seqID].  A node of the residue built for a meta node carries [graph]
    (or [seqID]) exactly when the molecule node it is taken from carries it,
    and every other attribute of the meta node is copied onto it. *)
Theorem residue_attributes_propagated
        meta_molecule mol correspondence res_node residue meta_attrs :
  _correspondence_to_residue meta_molecule mol correspondence res_node = inr residue ->
  dict_get res_node (mm_nodes meta_molecule) = Some meta_attrs ->
  forall n d,
    dict_get n (g_nodes residue) = Some d ->
    exists data,
      dict_get n (m_nodes mol) = Some data
      /\ (In "graph"%string (dict_keys d) <-> In "graph"%string (dict_keys data))
      /\ (In "seqID"%string (dict_keys d) <-> In "seqID"%string (dict_keys data))
      /\ (forall k, k <> "graph"%string -> k <> "seqID"%string ->
                    In k (dict_keys meta_attrs) ->
                    exists v, In (k, v) meta_attrs /\ dict_get k d = Some v).
Proof.
  intros Hres Hmeta n d Hd.
  apply correspondence_to_residue_inv in Hres
    as (meta_attrs' & resid & Hmeta' & _ & _ & _ & _ & Hattrs).
  assert (meta_attrs' = meta_attrs) by congruence. subst meta_attrs'.
  destruct (Hattrs n d Hd) as (data & Hdata & Hkeys & Hvals).
  exists data. split; [exact Hdata|]. split; [|split].
  - rewrite Hkeys. split; [|tauto]. intros [H|[_ H]]; [exact H|].
    vm_compute in H. discriminate.
  - rewrite Hkeys. split; [|tauto]. intros [H|[_ H]]; [exact H|].
    vm_compute in H. discriminate.
  - intros k Hg Hs Hin. apply Hvals; [|exact Hin].
    unfold not_propagated. apply bool_decide_eq_false.
    rewrite list_elem_of_In. simpl. intuition congruence.
Qed.

Lemma residue_attributes_propagated_witness :
  exists data,
    dict_get 0 (m_nodes mol_three_atoms) = Some data
    /\ (In "graph"%string (dict_keys (residue_atom "C1"))
        <-> In "graph"%string (dict_keys data))
    /\ (In "seqID"%string (dict_keys (residue_atom "C1"))
        <-> In "seqID"%string (dict_keys data))
    /\ (forall k, k <> "graph"%string -> k <> "seqID"%string ->
                  In k (dict_keys attrs_one_residue) ->
                  exists v, In (k, v) attrs_one_residue
                            /\ dict_get k (residue_atom "C1") = Some v).
Proof.
  apply (residue_attributes_propagated
           meta_one_residue mol_three_atoms corr_three_atoms 7
           residue_two_atoms attrs_one_residue);
    reflexivity.
Defined.

(** C9 (counterexample to "never present"): the molecule node carries a
    [seqID] of its own, and so does the residue node made from it. *)
Lemma residue_node_with_seqID :
  exists residue d,
    _correspondence_to_residue meta_one_residue mol_with_seqID [(0, 0)] 7 = inr residue
    /\ dict_get 0 (g_nodes residue) = Some d
    /\ dict_get "seqID"%string d = Some (VInt 9).
Proof. eexists _, _. repeat split; reflexivity. Qed.

(** C10: a residue produced by [_correspondence_to_residue] has no edges,
    and its nodes are exactly the targets of the correspondence whose
    [resid] in the molecule equals the [resid] of the meta node, each once. *)
Theorem correspondence_to_residue_edgeless
        meta_molecule mol correspondence res_node residue :
  _correspondence_to_residue meta_molecule mol correspondence res_node = inr residue ->
  g_edges residue = []
  /\ dict_wf (g_nodes residue)
  /\ exists meta_attrs resid,
       dict_get res_node (mm_nodes meta_molecule) = Some meta_attrs
       /\ dict_get "resid"%string meta_attrs = Some resid
       /\ forall n, In n (dict_keys (g_nodes residue))
                    <-> In n (dict_values correspondence)
                        /\ resid_matches mol resid n.
Proof.
  intros Hres.
  apply correspondence_to_residue_inv in Hres
    as (meta_attrs & resid & Hmeta & Hresid & Hedges & Hwf & Hkeys & _).
  split; [exact Hedges|]. split; [exact Hwf|].
  exists meta_attrs, resid. auto.
Qed.

Lemma correspondence_to_residue_edgeless_witness :
  g_edges residue_two_atoms = []
  /\ dict_wf (g_nodes residue_two_atoms)
  /\ exists meta_attrs resid,
       dict_get 7 (mm_nodes meta_one_residue) = Some meta_attrs
       /\ dict_get "resid"%string meta_attrs = Some resid
       /\ forall n, In n (dict_keys (g_nodes residue_two_atoms))
                    <-> In n (dict_values corr_three_atoms)
                        /\ resid_matches mol_three_atoms resid n.
Proof.
  apply (correspondence_to_residue_edgeless
           meta_one_residue mol_three_atoms corr_three_atoms 7).
  reflexivity.
Defined.

(** ** The visiting order *)

Lemma pair_leb_le a b : pair_leb a b = true <-> pair_le a b.
Proof.
  unfold pair_leb, pair_le.
  rewrite orb_true_iff, andb_true_iff, Z.ltb_lt, Z.eqb_eq, Z.leb_le. tauto.
Qed.

Lemma pair_leb_total a b : pair_leb a b = false -> pair_le b a.
Proof.
  intros Hf. destruct (Z.lt_trichotomy (fst a) (fst b)) as [Hlt|[Heq|Hgt]].
  - assert (pair_leb a b = true) by (apply pair_leb_le; now left). congruence.
  - right. split; [congruence|].
    destruct (Z.le_gt_cases (snd b) (snd a)) as [Hle|Hlt]; [exact Hle|].
    assert (pair_leb a b = true) by (apply pair_leb_le; right; lia). congruence.
  - now left.
Qed.

Global Instance pair_le_trans : Transitive pair_le.
Proof. intros [a1 a2] [b1 b2] [c1 c2]. unfold pair_le. simpl. lia. Qed.

Global Instance pair_le_antisymm : AntiSymm (=) pair_le.
Proof.
  intros [a1 a2] [b1 b2]. unfold pair_le. simpl. intros H1 H2.
  f_equal; lia.
Qed.

Lemma insert_sorted_Permutation x l : Permutation (insert_sorted x l) (x :: l).
Proof.
  induction l as [|y l IH]; simpl; [reflexivity|].
  destruct (pair_leb x y); [reflexivity|].
  rewrite IH. apply perm_swap.
Qed.

Lemma py_sorted_Permutation l : Permutation (py_sorted l) l.
Proof.
  induction l as [|x l IH]; simpl; [reflexivity|].
  rewrite insert_sorted_Permutation. now constructor.
Qed.

Lemma insert_sorted_StronglySorted x l :
  StronglySorted pair_le l -> StronglySorted pair_le (insert_sorted x l).
Proof.
  induction 1 as [|y l Hs IH Hall]; simpl.
  - repeat constructor.
  - destruct (pair_leb x y) eqn:Hxy.
    + apply pair_leb_le in Hxy. constructor; [now constructor|].
      constructor; [exact Hxy|].
      eapply Forall_impl; [exact Hall|]. intros z Hz. simpl. now transitivity y.
    + apply pair_leb_total in Hxy. constructor; [exact IH|].
      rewrite insert_sorted_Permutation. now constructor.
Qed.

Lemma py_sorted_StronglySorted l : StronglySorted pair_le (py_sorted l).
Proof.
  induction l as [|x l IH]; simpl; [constructor|].
  now apply insert_sorted_StronglySorted.
Qed.

Lemma py_sorted_Permutation_eq l1 l2 :
  Permutation l1 l2 -> py_sorted l1 = py_sorted l2.
Proof.
  intros Hp. apply (StronglySorted_unique pair_le);
    try apply py_sorted_StronglySorted.
  now rewrite !py_sorted_Permutation.
Qed.

Lemma get_node_attributes_lookup nodes name n :
  dict_wf nodes ->
  dict_get n (get_node_attributes nodes name)
  = match dict_get n nodes with
    | Some a => dict_get name a
    | None => None
    end.
Proof.
  unfold get_node_attributes.
  assert (Hgen : forall acc,
             dict_wf nodes ->
             dict_get n
               (fold_left (fun acc nd =>
                             match dict_get name (snd nd) with
                             | Some v => dict_set (fst nd) v acc
                             | None => acc
                             end) nodes acc)
             = match dict_get n nodes with
               | Some a => match dict_get name a with
                           | Some v => Some v
                           | None => dict_get n acc
                           end
               | None => dict_get n acc
               end).
  { induction nodes as [|[n0 a0] nodes IH]; intros acc Hwf; simpl; [reflexivity|].
    apply NoDup_cons in Hwf as [Hnot Hwf]. rewrite IH by exact Hwf.
    destruct (decide (n0 = n)) as [->|Hne].
    - assert (Hnone : dict_get n nodes = None).
      { apply dict_get_None. now rewrite <- list_elem_of_In. }
      rewrite Hnone. destruct (dict_get name a0); [|reflexivity].
      apply dict_get_set_eq.
    - destruct (dict_get name a0); [|reflexivity].
      rewrite dict_get_set_ne by exact Hne. reflexivity. }
  intros Hwf. rewrite Hgen by exact Hwf.
  destruct (dict_get n nodes) as [a|]; [|reflexivity].
  now destruct (dict_get name a).
Qed.

Lemma get_node_attributes_mem nodes name n :
  dict_mem n (get_node_attributes nodes name) = true ->
  exists a, In (n, a) nodes /\ dict_mem name a = true.
Proof.
  unfold get_node_attributes, dict_mem.
  assert (Hgen : forall acc,
             is_Some (dict_get n
               (fold_left (fun acc nd =>
                             match dict_get name (snd nd) with
                             | Some v => dict_set (fst nd) v acc
                             | None => acc
                             end) nodes acc)) ->
             is_Some (dict_get n acc)
             \/ exists a, In (n, a) nodes /\ is_Some (dict_get name a)).
  { induction nodes as [|[n0 a0] nodes IH]; intros acc; simpl; [auto|].
    intros Hs. apply IH in Hs as [Hs|(a & Hin & Ha)].
    - destruct (dict_get name a0) as [v|] eqn:Hv; [|auto].
      destruct (decide (n0 = n)) as [->|Hne].
      + right. exists a0. split; [now left|]. now rewrite Hv.
      + rewrite dict_get_set_ne in Hs by exact Hne. auto.
    - right. exists a. auto. }
  intros Hm.
  destruct (Hgen []) as [[x Hx]|(a & Hin & [v Hv])].
  - destruct (dict_get n _); [eauto|discriminate].
  - discriminate.
  - exists a. rewrite Hv. auto.
Qed.

Section NodeOrderFacts.
Variable meta_molecule : MetaMolecule.
Hypothesis Hwf : dict_wf (mm_nodes meta_molecule).

Lemma resids_of_nodes (l : odict node attrs) :
  (forall na, In na l -> In na (mm_nodes meta_molecule)) ->
  forall resids,
    result_map
      (fun n => of_option KeyError
                          (dict_get n (get_node_attributes (mm_nodes meta_molecule)
                                                           "resid"%string)))
      (dict_keys l)
    = inr resids ->
    Forall2 (fun na r => dict_get "resid"%string (snd na) = Some r) l resids.
Proof.
  induction l as [|[n a] l IH]; intros Hsub resids; simpl.
  - intros [= <-]. constructor.
  - rewrite get_node_attributes_lookup by exact Hwf.
    rewrite (In_dict_get_wf n a (mm_nodes meta_molecule) Hwf)
      by (apply Hsub; now left).
    destruct (dict_get "resid"%string a) as [r|] eqn:Hr; simpl; [|discriminate].
    destruct (result_map _ (dict_keys l)) as [e|rs] eqn:Hrs; simpl; [discriminate|].
    intros [= <-]. constructor; [exact Hr|].
    apply IH; [|reflexivity]. intros; apply Hsub; now right.
Qed.

Lemma ints_of_resids (l : odict node attrs) resids ints :
  Forall2 (fun na r => dict_get "resid"%string (snd na) = Some r) l resids ->
  result_map as_int resids = inr ints ->
  Forall has_int_resid l /\ combine ints (dict_keys l) = map sort_key l.
Proof.
  intros HF. revert ints. induction HF as [|[n a] r l resids Hr HF IH];
    intros ints; simpl.
  - intros [= <-]. split; [constructor|reflexivity].
  - destruct r as [z| |]; simpl; try discriminate.
    destruct (result_map as_int resids) as [e|zs] eqn:Hzs; simpl; [discriminate|].
    intros [= <-]. destruct (IH zs eq_refl) as [Hall Hcomb]. split.
    + constructor; [|exact Hall]. exists z. exact Hr.
    + simpl in Hr. change (dict_keys ((n, a) :: l)) with (n :: dict_keys l).
      cbn [combine map]. rewrite Hcomb. f_equal.
      unfold sort_key. simpl. now rewrite Hr.
Qed.

Lemma node_order_inv order :
  node_order meta_molecule = inr order ->
  Forall has_int_resid (mm_nodes meta_molecule)
  /\ order = map snd (py_sorted (map sort_key (mm_nodes meta_molecule))).
Proof.
  unfold node_order.
  destruct (result_map _ (dict_keys (mm_nodes meta_molecule)))
    as [e|resids] eqn:Hres; simpl; [discriminate|].
  destruct (result_map as_int resids) as [e|ints] eqn:Hints; simpl;
    [discriminate|].
  intros [= <-].
  apply resids_of_nodes in Hres; [|auto].
  destruct (ints_of_resids _ _ _ Hres Hints) as [Hall Hcomb].
  split; [exact Hall|]. now rewrite Hcomb.
Qed.

Lemma resids_total (l : odict node attrs) :
  (forall na, In na l -> In na (mm_nodes meta_molecule)) ->
  Forall has_int_resid l ->
  exists resids ints,
    result_map
      (fun n => of_option KeyError
                          (dict_get n (get_node_attributes (mm_nodes meta_molecule)
                                                           "resid"%string)))
      (dict_keys l)
    = inr resids
    /\ result_map as_int resids = inr ints
    /\ combine ints (dict_keys l) = map sort_key l.
Proof.
  induction l as [|[n a] l IH]; intros Hsub Hall; simpl.
  - now exists [], [].
  - apply Forall_cons in Hall as [[z Hz] Hall]. simpl in Hz.
    destruct IH as (resids & ints & Hres & Hints & Hcomb);
      [intros; apply Hsub; now right|exact Hall|].
    exists (VInt z :: resids), (z :: ints).
    rewrite get_node_attributes_lookup by exact Hwf.
    rewrite (In_dict_get_wf n a (mm_nodes meta_molecule) Hwf)
      by (apply Hsub; now left).
    rewrite Hz. simpl. rewrite Hres. simpl. rewrite Hints. simpl.
    split; [reflexivity|]. split; [reflexivity|].
    change (dict_keys ((n, a) :: l)) with (n :: dict_keys l).
    cbn [combine map]. rewrite Hcomb. f_equal.
    unfold sort_key. simpl. now rewrite Hz.
Qed.

Lemma node_order_total :
  Forall has_int_resid (mm_nodes meta_molecule) ->
  node_order meta_molecule = inr (map snd (py_sorted (map sort_key (mm_nodes meta_molecule)))).
Proof.
  intros Hall. unfold node_order.
  destruct (resids_total (mm_nodes meta_molecule)) as (resids & ints & -> & Hints & Hcomb); auto.
  simpl. rewrite Hints. simpl. now rewrite Hcomb.
Qed.
End NodeOrderFacts.

(** The order computed at lines 169-173 is ascending in [resid] (nodes with
    equal [resid] in the order of their keys), it is a permutation of the
    nodes, and it does not depend on the order in which the node container
    of the graph iterates. *)
Lemma node_order_ascending_and_stable meta_molecule meta_molecule' order :
  dict_wf (mm_nodes meta_molecule) ->
  Permutation (mm_nodes meta_molecule) (mm_nodes meta_molecule') ->
  node_order meta_molecule = inr order ->
  node_order meta_molecule' = inr order
  /\ Permutation order (dict_keys (mm_nodes meta_molecule))
  /\ exists keyed,
       order = map snd keyed
       /\ StronglySorted pair_le keyed
       /\ forall r n, In (r, n) keyed ->
            exists a, In (n, a) (mm_nodes meta_molecule)
                      /\ dict_get "resid"%string a = Some (VInt r).
Proof.
  intros Hwf Hperm Horder.
  destruct (node_order_inv _ Hwf _ Horder) as [Hall ->].
  split; [|split].
  - assert (Hwf' : dict_wf (mm_nodes meta_molecule')).
    { unfold dict_wf, dict_keys in *. now rewrite <- Hperm. }
    rewrite (node_order_total _ Hwf') by now rewrite <- Hperm.
    do 2 f_equal. apply py_sorted_Permutation_eq.
    symmetry. now apply Permutation_map.
  - rewrite py_sorted_Permutation, map_map. reflexivity.
  - exists (py_sorted (map sort_key (mm_nodes meta_molecule))).
    split; [reflexivity|]. split; [apply py_sorted_StronglySorted|].
    intros r n Hin.
    apply (Permutation_in _ (py_sorted_Permutation _)) in Hin.
    apply in_map_iff in Hin as ([n' a] & Hkey & Hin).
    rewrite Forall_forall in Hall.
    destruct (Hall (n', a)) as [z Hz]; [now apply list_elem_of_In|].
    unfold sort_key in Hkey. simpl in Hkey, Hz. rewrite Hz in Hkey.
    injection Hkey as <- <-. exists a. auto.
Qed.

(** ** Running the processor *)

Lemma bind_run {A B} (m : M A) (k : A -> M B) s :
  bind m k s = match m s with
               | (inl e, s') => (inl e, s')
               | (inr a, s') => k a s'
               end.
Proof. reflexivity. Qed.

Lemma bind_ok {A B} (m : M A) (k : A -> M B) s a s' :
  m s = (inr a, s') -> bind m k s = k a s'.
Proof. intros H. unfold bind. now rewrite H. Qed.

Lemma bind_err {A B} (m : M A) (k : A -> M B) s e s' :
  m s = (inl e, s') -> bind m k s = (inl e, s').
Proof. intros H. unfold bind. now rewrite H. Qed.

Lemma keeps_ret {A} I (a : A) : keeps I (ret a).
Proof. intros s Hs. exact Hs. Qed.

Lemma keeps_lift {A} I (r : result A) : keeps I (lift r).
Proof. intros s Hs. exact Hs. Qed.

Lemma keeps_get I : keeps I get.
Proof. intros s Hs. exact Hs. Qed.

Lemma keeps_modify (I : State -> Prop) f :
  (forall s, I s -> I (f s)) -> keeps I (modify f).
Proof. intros Hf s Hs. now apply Hf. Qed.

Lemma keeps_bind {A B} I (m : M A) (k : A -> M B) :
  keeps I m -> (forall a, keeps I (k a)) -> keeps I (bind m k).
Proof.
  intros Hm Hk s Hs. unfold bind. specialize (Hm s Hs).
  destruct (m s) as [[e|a] s']; simpl in *; [exact Hm|].
  now apply Hk.
Qed.

Lemma keeps_for {A} I (l : list A) (body : A -> M unit) :
  (forall x, In x l -> keeps I (body x)) -> keeps I (for_ l body).
Proof.
  induction l as [|x l IH]; intros Hbody; simpl.
  - apply keeps_ret.
  - apply keeps_bind.
    + apply Hbody. now left.
    + intros _. apply IH. intros y Hy. apply Hbody. now right.
Qed.

Lemma keeps_for_acc {A B} I (l : list A) (body : A -> B -> M B) acc :
  (forall x b, In x l -> keeps I (body x b)) -> keeps I (for_acc l body acc).
Proof.
  revert acc. induction l as [|x l IH]; intros acc Hbody; simpl.
  - apply keeps_ret.
  - apply keeps_bind.
    + apply Hbody. now left.
    + intros b. apply IH. intros y b' Hy. apply Hbody. now right.
Qed.

(** If the body raises at some element of the list whatever the state, the
    loop raises. *)
Lemma for_raises {A} (l : list A) (body : A -> M unit) x :
  In x l ->
  (forall s, exists e, fst (body x s) = inl e) ->
  forall s, exists e, fst (for_ l body s) = inl e.
Proof.
  induction l as [|y l IH]; intros Hin Hx s; simpl; [destruct Hin|].
  unfold bind. destruct (body y s) as [[e|[]] s'] eqn:Hy.
  - now exists e.
  - destruct Hin as [->|Hin].
    + destruct (Hx s) as [e He]. rewrite Hy in He. discriminate.
    + now apply IH.
Qed.

Lemma set_graph_run n g s :
  set_graph n g s
  = match dict_get n (mm_nodes (meta_molecule s)) with
    | Some a =>
        (inr tt,
         with_meta_molecule
           (fun mm => mkMeta (dict_set n (dict_set "graph"%string g a) (mm_nodes mm))
                             (mm_edges mm) (molecule mm)) s)
    | None => (inl KeyError, s)
    end.
Proof.
  unfold set_graph, bind, get, lift, modify.
  now destruct (dict_get n (mm_nodes (meta_molecule s))).
Qed.

Lemma has_from_itp_run n s :
  has_from_itp n s
  = match dict_get n (mm_nodes (meta_molecule s)) with
    | Some a => (inr (dict_mem "from_itp"%string a), s)
    | None => (inl KeyError, s)
    end.
Proof.
  unfold has_from_itp, bind, get, lift, ret.
  now destruct (dict_get n (mm_nodes (meta_molecule s))).
Qed.

Lemma mark_fragment_added_run of_node s :
  mark_fragment_added of_node s
  = match node_to_fragment s !! of_node with
    | Some fragment_id =>
        match fragments s !! fragment_id with
        | Some fragment =>
            (inr tt, with_added_fragment_nodes (fun l => l ++ elements fragment) s)
        | None => (inl IndexError, s)
        end
    | None => (inl KeyError, s)
    end.
Proof.
  unfold mark_fragment_added, bind, get, lift, modify.
  destruct (node_to_fragment s !! of_node) as [fid|]; simpl; [|reflexivity].
  now destruct (fragments s !! fid).
Qed.

(** The only exception of [_correspondence_to_residue] is a KeyError. *)
Lemma propagate_raises items n g e :
  propagate items n g = inl e -> e = KeyError.
Proof.
  revert g. induction items as [|[k v] items IH]; intros g; simpl; [discriminate|].
  destruct (not_propagated k); [apply IH|].
  unfold set_node_attr. destruct (dict_get n (g_nodes g)); simpl.
  - apply IH.
  - now intros [= <-].
Qed.

Lemma residue_loop_raises targets meta_attrs resid mol g e :
  residue_loop targets meta_attrs resid mol g = inl e -> e = KeyError.
Proof.
  revert g. induction targets as [|n targets IH]; intros g; simpl; [discriminate|].
  destruct (dict_get n (m_nodes mol)) as [data|]; simpl; [|now intros [= <-]].
  destruct (dict_get "resid"%string data) as [r|]; simpl; [|now intros [= <-]].
  destruct (py_eq r resid); [|apply IH].
  destruct (propagate meta_attrs n (add_node n data g)) as [e'|g'] eqn:Hp; simpl.
  - intros [= <-]. eapply propagate_raises, Hp.
  - apply IH.
Qed.

Lemma correspondence_to_residue_raises meta_molecule mol correspondence n e :
  _correspondence_to_residue meta_molecule mol correspondence n = inl e ->
  e = KeyError.
Proof.
  unfold _correspondence_to_residue.
  destruct (dict_get n (mm_nodes meta_molecule)) as [a|]; simpl;
    [|now intros [= <-]].
  destruct (dict_get "resid"%string a); simpl; [|now intros [= <-]].
  apply residue_loop_raises.
Qed.

Lemma dict_mem_set_ne {V} (k k' : string) (v : V) (d : odict string V) :
  k <> k' -> dict_mem k' (dict_set k v d) = dict_mem k' d.
Proof. intros Hne. unfold dict_mem. now rewrite dict_get_set_ne. Qed.

(** ** The graphs that add_blocks attaches *)

Lemma graph_of_set_graph mm n g a m :
  graph_of (mkMeta (dict_set n (dict_set "graph"%string g a) (mm_nodes mm))
                   (mm_edges mm) (molecule mm)) m
  = if decide (n = m) then Some g else graph_of mm m.
Proof.
  unfold graph_of. simpl. destruct (decide (n = m)) as [<-|Hne].
  - rewrite dict_get_set_eq. apply dict_get_set_eq.
  - now rewrite dict_get_set_ne.
Qed.

Lemma residue_of_run mol correspondence n s :
  residue_of mol correspondence n s
  = (_correspondence_to_residue (meta_molecule s) mol correspondence n, s).
Proof. reflexivity. Qed.

(** One step of the loop of [add_blocks] changes the meta-molecule in one
    place: the [graph] of the node becomes a residue made by
    [_correspondence_to_residue]. *)
Lemma add_block_meta V start_node n mol s mol' s' :
  add_block V start_node n mol s = (inr mol', s') ->
  exists residue a correspondence,
    _correspondence_to_residue (meta_molecule s) mol' correspondence n = inr residue
    /\ dict_get n (mm_nodes (meta_molecule s)) = Some a
    /\ meta_molecule s'
       = mkMeta (dict_set n (dict_set "graph"%string (graph_value residue) a)
                          (mm_nodes (meta_molecule s)))
                (mm_edges (meta_molecule s)) (molecule (meta_molecule s)).
Proof.
  unfold add_block. rewrite bind_run. unfold get at 1. cbv beta iota.
  rewrite bind_run.
  match goal with
  | |- context [match ?P s with _ => _ end] =>
      assert (Hpure : forall r s1, P s = (r, s1) -> s1 = s);
      [|destruct (P s) as [[e|mc] s1]; [discriminate|];
        specialize (Hpure _ _ eq_refl); subst s1]
  end.
  { intros r s1. destruct (bool_decide (n ∈ added_fragment_nodes s)).
    - unfold bind, lift, ret.
      destruct (node_to_fragment s !! n) as [fid|]; simpl; [|congruence].
      destruct (multiblock_correspondence s !! fid); simpl; congruence.
    - unfold bind, lift.
      destruct (dict_get n (node_to_block s)) as [name|]; simpl; [|congruence].
      destruct (blocks_get (force_field s) name); simpl; congruence. }
  cbv zeta. rewrite bind_run. unfold residue_of at 1. rewrite bind_run.
  unfold get at 1. cbv beta iota. unfold lift at 1.
  destruct (_correspondence_to_residue (meta_molecule s) (fst mc) (snd mc) n)
    as [e|residue] eqn:Hres; [discriminate|].
  rewrite bind_run, set_graph_run.
  destruct (dict_get n (mm_nodes (meta_molecule s))) as [a|] eqn:Ha; [|discriminate].
  rewrite bind_run, has_from_itp_run. simpl meta_molecule. simpl mm_nodes.
  rewrite dict_get_set_eq.
  rewrite bind_run. unfold get at 1. cbv beta iota.
  match goal with
  | |- context [if ?c then _ else _] => destruct c
  end.
  - rewrite !bind_run, mark_fragment_added_run. simpl node_to_fragment.
    simpl fragments.
    destruct (node_to_fragment s !! start_node) as [fid|]; [|discriminate].
    destruct (fragments s !! fid) as [frag|]; [|discriminate].
    unfold modify, ret. intros [= <- <-].
    exists residue, a, (snd mc). auto.
  - rewrite bind_run. unfold ret. intros [= <- <-].
    exists residue, a, (snd mc). auto.
Qed.

Lemma add_blocks_loop_edgeless V start_node rest :
  forall mol s mol' s',
    for_acc rest (add_block V start_node) mol s = (inr mol', s') ->
    (forall m, edgeless_graph_at (meta_molecule s) m ->
               edgeless_graph_at (meta_molecule s') m)
    /\ (forall n, In n rest -> edgeless_graph_at (meta_molecule s') n)
    /\ (forall m, ~ In m rest ->
                  graph_of (meta_molecule s') m = graph_of (meta_molecule s) m).
Proof.
  induction rest as [|n rest IH]; intros mol s mol' s'; simpl.
  - unfold ret. intros [= <- <-]. split; [auto|]. split; [intros n []|auto].
  - rewrite bind_run.
    destruct (add_block V start_node n mol s) as [[e|mol1] s1] eqn:Hstep;
      [discriminate|].
    intros Hrest. destruct (IH _ _ _ _ Hrest) as (Hkeep & Hdone & Hother).
    apply add_block_meta in Hstep
      as (residue & a & c & Hres & Ha & Hmeta).
    apply correspondence_to_residue_inv in Hres
      as (_ & _ & _ & _ & Hedges & _).
    assert (Hn : edgeless_graph_at (meta_molecule s1) n).
    { exists (g_nodes residue). rewrite Hmeta, graph_of_set_graph.
      destruct (decide (n = n)); [|contradiction].
      unfold graph_value. now rewrite Hedges. }
    assert (Hstep_keep : forall m, edgeless_graph_at (meta_molecule s) m ->
                                   edgeless_graph_at (meta_molecule s1) m).
    { intros m Hm. destruct (decide (n = m)) as [<-|Hne]; [exact Hn|].
      destruct Hm as [ns Hm]. exists ns. rewrite Hmeta, graph_of_set_graph.
      destruct (decide (n = m)); [contradiction|exact Hm]. }
    split; [auto|]. split.
    + intros m [<-|Hm]; auto.
    + intros m Hm. rewrite Hother by tauto.
      rewrite Hmeta, graph_of_set_graph.
      destruct (decide (n = m)); [|reflexivity]. tauto.
Qed.

(** X18: when [add_blocks] returns, every node after the first has a
    [graph] without edges, and so has the first if it carries [from_itp]; a
    first node without [from_itp] that does not come again has the whole
    instantiation of its own template (the block that [node_to_block] names
    for it), edges included. *)
Lemma add_blocks_graphs V s mol s' start_node rest :
  add_blocks V s = (inr mol, s') ->
  node_order (meta_molecule s) = inr (start_node :: rest) ->
  (forall n, In n rest -> edgeless_graph_at (meta_molecule s') n)
  /\ (from_itp_node (meta_molecule s) start_node ->
      edgeless_graph_at (meta_molecule s') start_node)
  /\ (~ from_itp_node (meta_molecule s) start_node -> ~ In start_node rest ->
      exists block,
        block_of s start_node = inr block
        /\ graph_of (meta_molecule s') start_node
           = Some (VGraph (m_nodes (to_molecule V block))
                          (m_edges (to_molecule V block)))).
Proof.
  intros Hrun Horder. revert Hrun.
  unfold add_blocks. rewrite bind_run. unfold get at 1. cbv beta iota.
  rewrite bind_run. unfold lift at 1. rewrite Horder.
  rewrite bind_run. unfold lift at 1. simpl head. simpl of_option.
  cbv beta iota. rewrite bind_run. unfold lift at 1.
  destruct (dict_get start_node (node_to_block s)) as [name|] eqn:Hname;
    simpl of_option;
    cbv beta iota; [|cbv beta iota; intros Hbad; inversion Hbad].
  rewrite bind_run. unfold lift at 1.
  destruct (blocks_get (force_field s) name) as [e|block] eqn:Hblock;
    [cbv beta iota; intros Hbad; inversion Hbad|].
  cbv zeta. rewrite bind_run, has_from_itp_run.
  destruct (dict_get start_node (mm_nodes (meta_molecule s))) as [a|] eqn:Ha;
    [|cbv beta iota; intros Hbad; inversion Hbad].
  simpl tail. cbv beta iota. rewrite bind_run.
  destruct (dict_mem "from_itp"%string a) eqn:Hitp.
  - rewrite bind_run, mark_fragment_added_run.
    destruct (node_to_fragment s !! start_node) as [fid|];
      [|cbv beta iota; intros Hbad; inversion Hbad].
    destruct (fragments s !! fid) as [frag|];
      [|cbv beta iota; intros Hbad; inversion Hbad].
    cbv beta iota. rewrite bind_run. unfold modify at 1. cbv beta iota.
    rewrite bind_run, residue_of_run. simpl meta_molecule.
    destruct (_correspondence_to_residue (meta_molecule s) (to_molecule V block)
                (identity_correspondence (to_molecule V block)) start_node)
      as [e|residue] eqn:Hres; [cbv beta iota; intros Hbad; inversion Hbad|].
    cbv beta iota. rewrite set_graph_run. simpl meta_molecule. rewrite Ha.
    cbv beta iota.
    intros Hloop. apply add_blocks_loop_edgeless in Hloop as (Hkeep & Hdone & _).
    apply correspondence_to_residue_inv in Hres as (_ & _ & _ & _ & Hedges & _).
    split; [exact Hdone|]. split.
    + intros _. apply Hkeep. exists (g_nodes residue). simpl.
      rewrite graph_of_set_graph. destruct (decide (start_node = start_node));
        [|contradiction].
      unfold graph_value. now rewrite Hedges.
    + intros Hnot. exfalso. apply Hnot. now exists a.
  - rewrite set_graph_run, Ha. cbv beta iota.
    intros Hloop. apply add_blocks_loop_edgeless in Hloop as (Hkeep & Hdone & Hother).
    split; [exact Hdone|]. split.
    + intros (a' & Ha' & Hitp'). congruence.
    + intros _ Hnotin. exists block.
      split; [unfold block_of; rewrite Hname; exact Hblock|].
      rewrite Hother by exact Hnotin.
      simpl. rewrite graph_of_set_graph.
      destruct (decide (start_node = start_node)); [reflexivity|contradiction].
Qed.

(** ** The graphs built by the classification *)

Lemma with_node_keys (n m : node) (nodes : odict node attrs) :
  In m (dict_keys (if dict_mem n nodes then nodes else nodes ++ [(n, [])]))
  <-> m = n \/ In m (dict_keys nodes).
Proof.
  unfold dict_mem. destruct (dict_get n nodes) eqn:Hg.
  - apply dict_get_Some_key in Hg. split; [tauto|]. intros [->|]; assumption.
  - unfold dict_keys. rewrite map_app, in_app_iff. simpl. intuition congruence.
Qed.

Lemma with_node_wf (n : node) (nodes : odict node attrs) :
  dict_wf nodes ->
  dict_wf (if dict_mem n nodes then nodes else nodes ++ [(n, [])]).
Proof.
  intros Hwf. unfold dict_mem. destruct (dict_get n nodes) eqn:Hg; [exact Hwf|].
  pose proof (dict_set_wf n ([] : attrs) nodes Hwf) as Hset.
  now rewrite (dict_set_fresh n _ nodes Hg) in Hset.
Qed.

Lemma add_edge_keys u v g n :
  In n (dict_keys (g_nodes (add_edge u v g)))
  <-> n = u \/ n = v \/ In n (dict_keys (g_nodes g)).
Proof. unfold add_edge. simpl. rewrite !with_node_keys. tauto. Qed.

Lemma add_edge_edges u v g : g_edges (add_edge u v g) = g_edges g ++ [(u, v)].
Proof. reflexivity. Qed.

Lemma add_edge_closed u v g : graph_closed g -> graph_closed (add_edge u v g).
Proof.
  intros [Hwf Hcl]. split.
  - unfold add_edge. simpl. now apply with_node_wf, with_node_wf.
  - intros e. rewrite add_edge_edges, in_app_iff, !add_edge_keys. simpl.
    intros [He|[<-|[]]]; simpl; [|tauto].
    destruct (Hcl e He). tauto.
Qed.

Lemma add_edge_support P u v g :
  P u -> P v -> graph_support P g -> graph_support P (add_edge u v g).
Proof.
  intros Hu Hv [Hn He]. split.
  - intros n. rewrite add_edge_keys. intros [->|[->|Hin]]; auto.
  - intros e. rewrite add_edge_edges, in_app_iff. simpl.
    intros [Hin|[<-|[]]]; simpl; auto.
Qed.

Lemma classify_edges_restart restart_attr edges :
  forall graphs,
    graph_closed (snd graphs) ->
    graph_support (fun n => dict_mem n restart_attr = true) (snd graphs) ->
    let graphs' := fold_left (classify_edge restart_attr) edges graphs in
    graph_closed (snd graphs')
    /\ graph_support (fun n => dict_mem n restart_attr = true) (snd graphs')
    /\ (forall e, In e (g_edges (snd graphs')) <->
                  In e (g_edges (snd graphs))
                  \/ (In e edges /\ restart_edge restart_attr e = true)).
Proof.
  induction edges as [|[u v] edges IH]; intros graphs Hcl Hsup; simpl.
  - split; [exact Hcl|]. split; [exact Hsup|]. tauto.
  - assert (Hce : classify_edge restart_attr graphs (u, v)
                  = if restart_edge restart_attr (u, v)
                    then (fst graphs, add_edge u v (snd graphs))
                    else (add_edge u v (fst graphs), snd graphs)) by reflexivity.
    rewrite Hce. clear Hce.
    destruct (restart_edge restart_attr (u, v)) eqn:Hr.
    + apply andb_true_iff in Hr as Hr'. destruct Hr' as [Hu Hv].
      simpl in Hu, Hv.
      destruct (IH (fst graphs, add_edge u v (snd graphs))) as (H1 & H2 & H3);
        simpl.
      * now apply add_edge_closed.
      * now apply add_edge_support.
      * split; [exact H1|]. split; [exact H2|].
        intros e. rewrite H3. simpl. rewrite in_app_iff. simpl.
        split.
        -- intros [[H|[<-|[]]]|H]; [tauto| |tauto].
           right. split; [now left|exact Hr].
        -- intros [H|[[<-|H] Hre]]; tauto.
    + destruct (IH (add_edge u v (fst graphs), snd graphs)) as (H1 & H2 & H3);
        simpl; auto.
      split; [exact H1|]. split; [exact H2|].
      intros e. rewrite H3. simpl. split; [tauto|].
      intros [H|[[<-|H] Hre]]; [tauto| |tauto]. congruence.
Qed.

Lemma classify_edges_regular restart_attr edges :
  forall graphs n,
    In n (dict_keys (g_nodes (fst (fold_left (classify_edge restart_attr)
                                             edges graphs))))
    <-> In n (dict_keys (g_nodes (fst graphs)))
        \/ exists e, In e edges /\ restart_edge restart_attr e = false
                     /\ (n = fst e \/ n = snd e).
Proof.
  induction edges as [|[u v] edges IH]; intros graphs n; simpl.
  - split; [tauto|]. intros [H|(e & [] & _)]. exact H.
  - rewrite IH.
    assert (Hce : classify_edge restart_attr graphs (u, v)
                  = if restart_edge restart_attr (u, v)
                    then (fst graphs, add_edge u v (snd graphs))
                    else (add_edge u v (fst graphs), snd graphs)) by reflexivity.
    rewrite Hce. clear Hce.
    destruct (restart_edge restart_attr (u, v)) eqn:Hr; cbn [fst snd].
    + split.
      * intros [H|(e & He & Hre & Hn)]; [tauto|]. right. exists e. tauto.
      * intros [H|(e & [<-|He] & Hre & Hn)]; [tauto| |].
        -- congruence.
        -- right. exists e. tauto.
    + rewrite add_edge_keys. split.
      * intros [[Hn|[Hn|H]]|(e & He & Hre & Hn)].
        -- right. exists (u, v). simpl. tauto.
        -- right. exists (u, v). simpl. tauto.
        -- tauto.
        -- right. exists e. tauto.
      * intros [H|(e & [<-|He] & Hre & Hn)]; [tauto| |].
        -- simpl in Hn. tauto.
        -- right. exists e. tauto.
Qed.

(** ** Connected components *)

Lemma elem_of_bfs_step edges (S : gset node) n :
  n ∈ bfs_step edges S
  <-> n ∈ S \/ exists e, In e edges
                         /\ ((fst e ∈ S /\ n = snd e) \/ (snd e ∈ S /\ n = fst e)).
Proof.
  unfold bfs_step. rewrite elem_of_union, elem_of_list_to_set, list_elem_of_In.
  rewrite in_flat_map. split.
  - intros [H|(e & He & Hn)]; [now left|]. right. exists e. split; [exact He|].
    apply in_app_or in Hn as [Hn|Hn].
    + destruct (decide (fst e ∈ S)); [|destruct Hn].
      destruct Hn as [<-|[]]. now left.
    + destruct (decide (snd e ∈ S)); [|destruct Hn].
      destruct Hn as [<-|[]]. now right.
  - intros [H|(e & He & Hn)]; [now left|]. right. exists e. split; [exact He|].
    apply in_or_app. destruct Hn as [[Hs ->]|[Hs ->]].
    + left. destruct (decide (fst e ∈ S)); [now left|contradiction].
    + right. destruct (decide (snd e ∈ S)); [now left|contradiction].
Qed.

Lemma bfs_step_extensive edges (S : gset node) : S ⊆ bfs_step edges S.
Proof. intros n Hn. apply elem_of_bfs_step. now left. Qed.

Lemma bfs_iter_start edges k v : v ∈ Nat.iter k (bfs_step edges) ({[v]} : gset node).
Proof.
  induction k as [|k IH]; simpl.
  - now apply elem_of_singleton.
  - now apply bfs_step_extensive.
Qed.

Lemma bfs_iter_support (P : node -> Prop) edges k v :
  (forall e, In e edges -> P (fst e) /\ P (snd e)) -> P v ->
  forall n, n ∈ Nat.iter k (bfs_step edges) ({[v]} : gset node) -> P n.
Proof.
  intros He Hv. induction k as [|k IH]; simpl; intros n Hn.
  - apply elem_of_singleton in Hn. now subst.
  - apply elem_of_bfs_step in Hn as [Hn|(e & Hin & [[_ ->]|[_ ->]])].
    + now apply IH.
    + now apply He.
    + now apply He.
Qed.

(** After as many rounds as the graph has nodes the search has stopped
    growing: the set only ever holds nodes of the graph, and a round that
    adds nothing ends the growth. *)
Lemma bfs_iter_stable edges (U : gset node) v :
  (forall e, In e edges -> fst e ∈ U /\ snd e ∈ U) -> v ∈ U ->
  forall k,
    bfs_step edges (Nat.iter k (bfs_step edges) {[v]})
    = Nat.iter k (bfs_step edges) {[v]}
    \/ (k + 1 <= size (Nat.iter k (bfs_step edges) ({[v]} : gset node)))%nat.
Proof.
  intros He Hv. induction k as [|k IH].
  - right. change (Nat.iter 0 (bfs_step edges) ({[v]} : gset node))
             with ({[v]} : gset node).
    rewrite size_singleton. lia.
  - rewrite !Nat.iter_succ. destruct IH as [Hfix|Hsize].
    + left. now rewrite !Hfix.
    + set (Sk := Nat.iter k (bfs_step edges) ({[v]} : gset node)) in *.
      destruct (decide (bfs_step edges Sk ⊆ Sk)) as [Hsub|Hnsub].
      * left. assert (Heq : bfs_step edges Sk = Sk).
        { apply set_eq_subseteq. split; [exact Hsub|apply bfs_step_extensive]. }
        now rewrite !Heq.
      * right. assert (Hlt : (size Sk < size (bfs_step edges Sk))%nat).
        { apply subset_size. split; [apply bfs_step_extensive|exact Hnsub]. }
        lia.
Qed.

Lemma plain_bfs_closed g v :
  graph_closed g -> In v (dict_keys (g_nodes g)) ->
  forall e, In e (g_edges g) ->
            (fst e ∈ plain_bfs g v <-> snd e ∈ plain_bfs g v).
Proof.
  intros [Hwf Hcl] Hv.
  set (U := list_to_set (dict_keys (g_nodes g)) : gset node).
  assert (HU : forall e, In e (g_edges g) -> fst e ∈ U /\ snd e ∈ U).
  { intros e He. destruct (Hcl e He) as [H1 H2].
    split; apply elem_of_list_to_set, list_elem_of_In; assumption. }
  assert (HvU : v ∈ U) by (apply elem_of_list_to_set, list_elem_of_In; exact Hv).
  assert (Hfix : bfs_step (g_edges g) (plain_bfs g v) = plain_bfs g v).
  { unfold plain_bfs.
    destruct (bfs_iter_stable (g_edges g) U v HU HvU (length (g_nodes g)))
      as [Hfix|Hsize]; [exact Hfix|exfalso].
    assert (Hsub : Nat.iter (length (g_nodes g)) (bfs_step (g_edges g)) {[v]} ⊆ U).
    { intros n Hn. revert n Hn.
      apply (bfs_iter_support (fun n => n ∈ U)); assumption. }
    apply subseteq_size in Hsub.
    assert (HsizeU : size U = length (g_nodes g)).
    { unfold U. rewrite size_list_to_set by exact Hwf.
      unfold dict_keys. apply length_map. }
    lia. }
  intros e He. split; intros Hin; rewrite <- Hfix; apply elem_of_bfs_step;
    right; exists e; split; auto.
Qed.

Lemma connected_components_fold g (l : list node) :
  forall (st : gset node * list (gset node)),
    (forall n, n ∈ fst st <-> exists c, In c (snd st) /\ n ∈ c) ->
    let st' := fold_left
                 (fun (st : gset node * list (gset node)) (v : node) =>
                    if decide (v ∈ fst st) then st
                    else let c := plain_bfs g v in (fst st ∪ c, snd st ++ [c]))
                 l st in
    (forall n, n ∈ fst st' <-> exists c, In c (snd st') /\ n ∈ c)
    /\ (forall v, In v l -> v ∈ fst st')
    /\ (forall n, n ∈ fst st -> n ∈ fst st')
    /\ (forall c, In c (snd st') ->
                  In c (snd st) \/ exists v, In v l /\ c = plain_bfs g v).
Proof.
  induction l as [|v l IH]; intros st Hst; simpl.
  - split; [exact Hst|]. split; [intros v []|]. split; auto.
  - destruct (decide (v ∈ fst st)) as [Hv|Hv].
    + destruct (IH st Hst) as (H1 & H2 & H3 & H4).
      split; [exact H1|]. split; [|split; [exact H3|]].
      * intros w [<-|Hw]; auto.
      * intros c Hc. destruct (H4 c Hc) as [|(w & Hw & ->)]; [now left|].
        right. exists w. auto.
    + destruct (IH (fst st ∪ plain_bfs g v, snd st ++ [plain_bfs g v]))
        as (H1 & H2 & H3 & H4).
      * simpl. intros n. rewrite elem_of_union, Hst. split.
        -- intros [(c & Hc & Hn)|Hn].
           ++ exists c. rewrite in_app_iff. auto.
           ++ exists (plain_bfs g v). rewrite in_app_iff. simpl. auto.
        -- intros (c & Hc & Hn). apply in_app_or in Hc as [Hc|[<-|[]]]; eauto.
      * split; [exact H1|]. split; [|split].
        -- intros w [<-|Hw]; [|auto]. apply H3. simpl.
           apply elem_of_union. right. apply bfs_iter_start.
        -- intros n Hn. apply H3. simpl. apply elem_of_union. now left.
        -- intros c Hc. destruct (H4 c Hc) as [Hin|(w & Hw & ->)].
           ++ simpl in Hin. apply in_app_or in Hin as [Hin|[<-|[]]]; [now left|].
              right. exists v. auto.
           ++ right. exists w. auto.
Qed.

Lemma connected_components_spec g :
  (forall c, In c (connected_components g) ->
             exists v, In v (dict_keys (g_nodes g)) /\ c = plain_bfs g v)
  /\ (forall v, In v (dict_keys (g_nodes g)) ->
                exists c, In c (connected_components g) /\ v ∈ c).
Proof.
  unfold connected_components.
  destruct (connected_components_fold g (dict_keys (g_nodes g)) (∅, []))
    as (H1 & H2 & _ & H4).
  { simpl. intros n. split; [intros Hn; now apply not_elem_of_empty in Hn|].
    intros (c & [] & _). }
  split.
  - intros c Hc. destruct (H4 c Hc) as [[]|Hv]. exact Hv.
  - intros v Hv. apply H1. now apply H2.
Qed.

(** The endpoints of an edge of the graph lie in one component. *)
Lemma connected_components_edge g e :
  graph_closed g -> In e (g_edges g) ->
  exists c, In c (connected_components g) /\ fst e ∈ c /\ snd e ∈ c.
Proof.
  intros Hcl He. destruct (connected_components_spec g) as [Hspec Hcover].
  destruct Hcl as [Hwf Hends]. destruct (Hends e He) as [Hu _].
  destruct (Hcover _ Hu) as (c & Hc & Hin).
  exists c. split; [exact Hc|]. split; [exact Hin|].
  destruct (Hspec c Hc) as (v & Hv & ->).
  now apply (plain_bfs_closed g v (conj Hwf Hends) Hv e He).
Qed.

Lemma connected_components_support P g c n :
  graph_support P g -> In c (connected_components g) -> n ∈ c -> P n.
Proof.
  intros [Hn He] Hc Hin.
  destruct (connected_components_spec g) as [Hspec _].
  destruct (Hspec c Hc) as (v & Hv & ->).
  revert n Hin. apply bfs_iter_support; auto.
Qed.

(** ** match_nodes_to_blocks *)

Lemma restart_attr_lookup mm n :
  dict_wf (mm_nodes mm) -> dict_get n (restart_attr_of mm) = from_itp_of mm n.
Proof. intros Hwf. now apply get_node_attributes_lookup. Qed.

Lemma match_nodes_to_blocks_run s :
  match_nodes_to_blocks s
  = bind (for_ (dict_keys (g_nodes (fst (classified_graphs (meta_molecule s)))))
               (fun n =>
                  bind (lift (of_option KeyError
                                        (dict_get n (mm_nodes (meta_molecule s)))))
                       (fun a =>
                          bind (lift (of_option KeyError
                                                (dict_get "resname"%string a)))
                               (fun resname =>
                                  modify (with_node_to_block (dict_set n resname))))))
         (fun _ =>
            for_ (connected_components (snd (classified_graphs (meta_molecule s))))
                 (match_fragment (restart_attr_of (meta_molecule s))))
         s.
Proof. reflexivity. Qed.

Lemma match_fragment_keeps (I : State -> Prop) restart_attr fragment :
  (forall s f, I s -> I (with_fragments f s)) ->
  (forall s f, I s -> I (with_node_to_block f s)) ->
  (forall s n k, I s -> n ∈ fragment ->
                 I (with_node_to_fragment (<[n := k]>) s)) ->
  keeps I (match_fragment restart_attr fragment).
Proof.
  intros Hf Hb Hnf. unfold match_fragment.
  apply keeps_bind; [apply keeps_lift|intros first].
  apply keeps_bind; [apply keeps_lift|intros block_name].
  apply keeps_bind; [apply keeps_lift|intros names].
  destruct (forallb _ names); [|apply keeps_lift].
  apply keeps_bind; [apply keeps_modify; auto|intros _].
  apply keeps_bind; [apply keeps_get|intros s0].
  apply keeps_bind; [apply keeps_lift|intros _].
  apply keeps_for. intros n Hn.
  apply keeps_bind; [apply keeps_modify; auto|intros _].
  apply keeps_bind; [apply keeps_get|intros s1].
  apply keeps_modify. intros s Hs. apply Hnf; [exact Hs|].
  now apply elem_of_elements, list_elem_of_In.
Qed.

Lemma restart_graph_facts mm :
  graph_closed (snd (classified_graphs mm))
  /\ graph_support (fun n => dict_mem n (restart_attr_of mm) = true)
                   (snd (classified_graphs mm))
  /\ (forall e, In e (g_edges (snd (classified_graphs mm))) <->
                In e (dfs_edges mm) /\ restart_edge (restart_attr_of mm) e = true).
Proof.
  destruct (classify_edges_restart (restart_attr_of mm) (dfs_edges mm)
                                   (empty_graph, empty_graph))
    as (H1 & H2 & H3).
  - split; [constructor|]. intros e [].
  - split; [intros n []|intros e []].
  - split; [exact H1|]. split; [exact H2|].
    intros e. rewrite H3. simpl. tauto.
Qed.

(** Classification only writes [node_to_block], [fragments] and
    [node_to_fragment], and the latter only at nodes of the restart
    graph. *)
Lemma match_nodes_to_blocks_keeps (I : State -> Prop) mm :
  (forall s f, I s -> I (with_fragments f s)) ->
  (forall s f, I s -> I (with_node_to_block f s)) ->
  (forall s n k, I s -> dict_mem n (restart_attr_of mm) = true ->
                 I (with_node_to_fragment (<[n := k]>) s)) ->
  forall s, meta_molecule s = mm -> I s -> I (snd (match_nodes_to_blocks s)).
Proof.
  intros Hf Hb Hnf s Hmm Hs. rewrite match_nodes_to_blocks_run, Hmm.
  clear Hmm. revert s Hs.
  apply keeps_bind.
  - apply keeps_for. intros n _.
    apply keeps_bind; [apply keeps_lift|intros a].
    apply keeps_bind; [apply keeps_lift|intros resname].
    apply keeps_modify. auto.
  - intros _. apply keeps_for. intros c Hc.
    apply match_fragment_keeps; auto.
    intros s n k Hs Hn. apply Hnf; [exact Hs|].
    destruct (restart_graph_facts mm) as (_ & Hsup & _).
    apply (connected_components_support _ _ c n Hsup Hc Hn).
Qed.

Lemma match_nodes_to_blocks_classified ff mm :
  classified ff mm (snd (match_nodes_to_blocks (init_state ff mm))).
Proof.
  apply (match_nodes_to_blocks_keeps (classified ff mm) mm).
  - intros s f H. exact H.
  - intros s f H. exact H.
  - intros s n k (H1 & H2 & H3 & H4 & H5 & H6) Hn.
    repeat (split; [assumption|]).
    intros m. simpl. destruct (decide (n = m)) as [<-|Hne]; [auto|].
    rewrite lookup_insert_ne by exact Hne. apply H6.
  - reflexivity.
  - repeat (split; [reflexivity|]).
    intros n. simpl. rewrite lookup_empty. intros [x Hx]. discriminate.
Qed.

Lemma py_eq_trans_true a b c :
  py_eq a c = true -> py_eq b c = true -> py_eq a b = true.
Proof.
  destruct a, b, c; simpl; try discriminate.
  - rewrite !Z.eqb_eq. congruence.
  - rewrite !String.eqb_eq. congruence.
Qed.

Lemma py_eq_sym a b : py_eq a b = py_eq b a.
Proof.
  destruct a, b; simpl; try reflexivity.
  - apply Z.eqb_sym.
  - apply String.eqb_sym.
Qed.

Lemma result_map_ok {A B} (f : A -> result B) (l : list A) :
  (forall x, In x l -> exists y, f x = inr y) ->
  exists ys, result_map f l = inr ys
             /\ forall x, In x l -> exists y, f x = inr y /\ In y ys.
Proof.
  induction l as [|x l IH]; intros Hall; simpl.
  - exists []. split; [reflexivity|]. intros x [].
  - destruct (Hall x (or_introl eq_refl)) as [y Hy]. rewrite Hy. simpl.
    destruct IH as (ys & Hys & Hin); [intros; apply Hall; now right|].
    rewrite Hys. simpl. exists (y :: ys). split; [reflexivity|].
    intros x' [<-|Hx'].
    + exists y. split; [exact Hy|now left].
    + destruct (Hin x' Hx') as (y' & Hy' & Hin'). exists y'.
      split; [exact Hy'|now right].
Qed.

(** A component with two members of different [from_itp] is refused, and
    nothing is written. *)
Lemma match_fragment_inconsistent restart_attr (c : gset node) u v a b s :
  u ∈ c -> v ∈ c ->
  (forall n, n ∈ c -> dict_mem n restart_attr = true) ->
  dict_get u restart_attr = Some a ->
  dict_get v restart_attr = Some b ->
  py_eq a b = false ->
  match_fragment restart_attr c s = (inl IOError, s).
Proof.
  intros Hu Hv Hall Ha Hb Hneq. unfold match_fragment.
  assert (Hmem : forall n, In n (elements c) ->
                   exists y, of_option KeyError (dict_get n restart_attr) = inr y).
  { intros n Hn. apply list_elem_of_In, elem_of_elements, Hall in Hn.
    unfold dict_mem in Hn. destruct (dict_get n restart_attr); [eauto|discriminate]. }
  destruct (elements c) as [|first rest] eqn:Hel.
  { apply elem_of_elements in Hu. rewrite Hel in Hu.
    now apply not_elem_of_nil in Hu. }
  rewrite bind_run. unfold lift at 1. simpl head. simpl of_option. cbv beta iota.
  destruct (Hmem first (or_introl eq_refl)) as [name Hname].
  rewrite bind_run. unfold lift at 1. rewrite Hname. cbv beta iota.
  destruct (result_map_ok _ _ Hmem) as (names & Hnames & Hin).
  rewrite bind_run. unfold lift at 1. rewrite Hnames. cbv beta iota.
  destruct (forallb (fun n => py_eq n name) names) eqn:Hfa; [exfalso|reflexivity].
  rewrite forallb_forall in Hfa.
  assert (Hu' : In u (first :: rest))
    by (rewrite <- Hel; now apply list_elem_of_In, elem_of_elements).
  assert (Hv' : In v (first :: rest))
    by (rewrite <- Hel; now apply list_elem_of_In, elem_of_elements).
  destruct (Hin u Hu') as (a' & Ha' & Hina).
  destruct (Hin v Hv') as (b' & Hb' & Hinb).
  rewrite Ha in Ha'. rewrite Hb in Hb'. simpl in Ha', Hb'.
  injection Ha' as <-. injection Hb' as <-.
  rewrite (py_eq_trans_true a b name) in Hneq; [discriminate| |]; auto.
Qed.

(** A traversed edge between two nodes whose [from_itp] differ makes the
    classification raise. *)
Lemma match_nodes_to_blocks_inconsistent_edge s e a b :
  dict_wf (mm_nodes (meta_molecule s)) ->
  In e (dfs_edges (meta_molecule s)) ->
  from_itp_of (meta_molecule s) (fst e) = Some a ->
  from_itp_of (meta_molecule s) (snd e) = Some b ->
  py_eq a b = false ->
  exists err, fst (match_nodes_to_blocks s) = inl err.
Proof.
  intros Hwf He Ha Hb Hneq. rewrite match_nodes_to_blocks_run.
  set (mm := meta_molecule s) in *.
  rewrite <- (restart_attr_lookup mm (fst e) Hwf) in Ha.
  rewrite <- (restart_attr_lookup mm (snd e) Hwf) in Hb.
  destruct (restart_graph_facts mm) as (Hcl & Hsup & Hedges).
  assert (Hre : In e (g_edges (snd (classified_graphs mm)))).
  { apply Hedges. split; [exact He|]. unfold restart_edge, dict_mem.
    now rewrite Ha, Hb. }
  destruct (connected_components_edge _ e Hcl Hre) as (c & Hc & Hu & Hv).
  rewrite bind_run.
  destruct (for_ _ _ s) as [[err|[]] s1]; [now exists err|].
  apply (for_raises _ _ c Hc). intros s2. exists IOError.
  rewrite (match_fragment_inconsistent _ c (fst e) (snd e) a b); auto.
  intros n Hn. apply (connected_components_support _ _ c n Hsup Hc Hn).
Qed.

Lemma keeps_bind_lift {A B} I (r : result A) (k : A -> M B) :
  (forall a, r = inr a -> keeps I (k a)) -> keeps I (bind (lift r) k).
Proof.
  intros Hk s Hs. unfold bind, lift. destruct r as [e|a]; simpl; [exact Hs|].
  now apply Hk.
Qed.

Lemma classify_edges_support P restart_attr edges :
  (forall e, In e edges -> P (fst e) /\ P (snd e)) ->
  forall graphs,
    graph_support P (fst graphs) -> graph_support P (snd graphs) ->
    graph_support P (fst (fold_left (classify_edge restart_attr) edges graphs))
    /\ graph_support P (snd (fold_left (classify_edge restart_attr) edges graphs)).
Proof.
  induction edges as [|[u v] edges IH]; intros Hall graphs H1 H2; simpl; [auto|].
  destruct (Hall (u, v) (or_introl eq_refl)) as [Hu Hv]. simpl in Hu, Hv.
  apply IH.
  - intros e He. apply Hall. now right.
  - unfold classify_edge. destruct (_ && _); simpl; [exact H1|].
    now apply add_edge_support.
  - unfold classify_edge. destruct (_ && _); simpl; [|exact H2].
    now apply add_edge_support.
Qed.

Lemma classified_graphs_traversed mm :
  graph_support (traversed_node mm) (fst (classified_graphs mm))
  /\ graph_support (traversed_node mm) (snd (classified_graphs mm)).
Proof.
  apply classify_edges_support.
  - intros e He. split; exists e; auto.
  - split; [intros n []|intros e []].
  - split; [intros n []|intros e []].
Qed.

Lemma match_fragment_keeps_at (I : State -> Prop) restart_attr fragment :
  (forall s f, I s -> I (with_fragments f s)) ->
  (forall s m v, I s -> m ∈ fragment ->
                 I (with_node_to_block (dict_set m v) s)) ->
  (forall s m k, I s -> m ∈ fragment ->
                 I (with_node_to_fragment (<[m := k]>) s)) ->
  keeps I (match_fragment restart_attr fragment).
Proof.
  intros Hf Hb Hnf. unfold match_fragment.
  apply keeps_bind; [apply keeps_lift|intros first].
  apply keeps_bind; [apply keeps_lift|intros block_name].
  apply keeps_bind; [apply keeps_lift|intros names].
  destruct (forallb _ names); [|apply keeps_lift].
  apply keeps_bind; [apply keeps_modify; auto|intros _].
  apply keeps_bind; [apply keeps_get|intros s0].
  apply keeps_bind; [apply keeps_lift|intros _].
  apply keeps_for. intros n Hn.
  apply list_elem_of_In, elem_of_elements in Hn.
  apply keeps_bind; [apply keeps_modify; auto|intros _].
  apply keeps_bind; [apply keeps_get|intros s1].
  apply keeps_modify. auto.
Qed.

(** Whatever the classification writes in [node_to_block] and
    [node_to_fragment], it writes at the ends of traversed edges. *)
Lemma match_nodes_to_blocks_keeps_at (I : State -> Prop) mm :
  (forall s f, I s -> I (with_fragments f s)) ->
  (forall s m v, I s -> traversed_node mm m ->
                 I (with_node_to_block (dict_set m v) s)) ->
  (forall s m k, I s -> traversed_node mm m ->
                 I (with_node_to_fragment (<[m := k]>) s)) ->
  forall s, meta_molecule s = mm -> I s -> I (snd (match_nodes_to_blocks s)).
Proof.
  intros Hf Hb Hnf s Hmm Hs. rewrite match_nodes_to_blocks_run, Hmm.
  clear Hmm. revert s Hs.
  destruct (classified_graphs_traversed mm) as [[Hreg _] Hres].
  apply keeps_bind.
  - apply keeps_for. intros n Hn.
    apply keeps_bind; [apply keeps_lift|intros a].
    apply keeps_bind; [apply keeps_lift|intros resname].
    apply keeps_modify. auto.
  - intros _. apply keeps_for. intros c Hc.
    apply match_fragment_keeps_at; auto.
    + intros s m v Hs Hm. apply Hb; [exact Hs|].
      apply (connected_components_support _ _ c m Hres Hc Hm).
    + intros s m k Hs Hm. apply Hnf; [exact Hs|].
      apply (connected_components_support _ _ c m Hres Hc Hm).
Qed.

(** A node that is not an end of a traversed edge (an isolated node, the
    only node of a single-residue meta-molecule) is given no template and no
    fragment, whether the classification returns or raises. *)
Lemma match_nodes_to_blocks_skips_untraversed ff mm n :
  ~ traversed_node mm n ->
  dict_get n (node_to_block (snd (match_nodes_to_blocks (init_state ff mm)))) = None
  /\ node_to_fragment (snd (match_nodes_to_blocks (init_state ff mm))) !! n = None.
Proof.
  intros Hn.
  apply (match_nodes_to_blocks_keeps_at
           (fun s => dict_get n (node_to_block s) = None
                     /\ node_to_fragment s !! n = None) mm).
  - intros s f H. exact H.
  - intros s m v [H1 H2] Hm. split; [|exact H2]. simpl.
    rewrite dict_get_set_ne; [exact H1|]. intros ->. contradiction.
  - intros s m k [H1 H2] Hm. split; [exact H1|]. simpl.
    rewrite lookup_insert_ne; [exact H2|]. intros ->. contradiction.
  - reflexivity.
  - split; reflexivity.
Qed.

Lemma classify_edges_no_restart restart_attr edges :
  (forall e, In e edges -> restart_edge restart_attr e = false) ->
  forall graphs,
    snd (fold_left (classify_edge restart_attr) edges graphs) = snd graphs.
Proof.
  induction edges as [|e edges IH]; intros Hall graphs; simpl; [reflexivity|].
  rewrite IH by (intros; apply Hall; now right).
  unfold classify_edge. specialize (Hall e (or_introl eq_refl)).
  unfold restart_edge in Hall. now rewrite Hall.
Qed.

(** The loop of lines 135-136 when it runs to its end. *)
Lemma regular_loop_spec mm (l : list node) :
  forall s s',
    for_ l (fun n =>
              bind (lift (of_option KeyError (dict_get n (mm_nodes mm))))
                   (fun a =>
                      bind (lift (of_option KeyError (dict_get "resname"%string a)))
                           (fun resname =>
                              modify (with_node_to_block (dict_set n resname)))))
         s = (inr tt, s') ->
    fragments s' = fragments s
    /\ node_to_fragment s' = node_to_fragment s
    /\ (forall n, In n l ->
          exists a resname,
            dict_get n (mm_nodes mm) = Some a
            /\ dict_get "resname"%string a = Some resname
            /\ dict_get n (node_to_block s') = Some resname)
    /\ (forall n, ~ In n l ->
          dict_get n (node_to_block s') = dict_get n (node_to_block s)).
Proof.
  induction l as [|m l IH]; intros s s'; simpl.
  - unfold ret. intros [= <-]. repeat split; auto. intros n [].
  - rewrite bind_run. unfold bind at 1, lift at 1.
    destruct (dict_get m (mm_nodes mm)) as [a|] eqn:Ha; simpl;
      [|intros Hbad; inversion Hbad].
    unfold bind at 1, lift at 1.
    destruct (dict_get "resname"%string a) as [resname|] eqn:Hr; simpl;
      [|intros Hbad; inversion Hbad].
    unfold modify at 1. intros Hrest.
    destruct (IH _ _ Hrest) as (H1 & H2 & H3 & H4).
    split; [exact H1|]. split; [exact H2|]. split.
    + intros n [<-|Hn]; [|auto].
      destruct (in_dec Z.eq_dec m l) as [Hin|Hnot]; [auto|].
      exists a, resname. split; [exact Ha|]. split; [exact Hr|].
      rewrite H4 by exact Hnot. simpl. apply dict_get_set_eq.
    + intros n Hn. rewrite H4 by tauto. simpl.
      apply dict_get_set_ne. intros ->. tauto.
Qed.

(** What the classification does when no node carries [from_itp] and it
    returns: no fragment is recorded, and the template of a node is its
    [resname] if the node is an end of a traversed edge, and is missing
    otherwise. *)
Lemma match_nodes_to_blocks_resname_only ff mm s :
  dict_wf (mm_nodes mm) ->
  (forall n, from_itp_of mm n = None) ->
  match_nodes_to_blocks (init_state ff mm) = (inr tt, s) ->
  fragments s = []
  /\ node_to_fragment s = ∅
  /\ (forall n, traversed_node mm n ->
        exists a resname,
          dict_get n (mm_nodes mm) = Some a
          /\ dict_get "resname"%string a = Some resname
          /\ dict_get n (node_to_block s) = Some resname)
  /\ (forall n, ~ traversed_node mm n -> dict_get n (node_to_block s) = None).
Proof.
  intros Hwf Hnone Hrun.
  assert (Hre : forall e, In e (dfs_edges mm) ->
                          restart_edge (restart_attr_of mm) e = false).
  { intros e _. unfold restart_edge, dict_mem.
    now rewrite restart_attr_lookup, Hnone by exact Hwf. }
  assert (Hrestart : snd (classified_graphs mm) = empty_graph).
  { unfold classified_graphs. now rewrite classify_edges_no_restart. }
  pose proof (match_nodes_to_blocks_skips_untraversed ff mm) as Hskip.
  rewrite Hrun in Hskip. simpl in Hskip.
  rewrite match_nodes_to_blocks_run in Hrun. simpl meta_molecule in Hrun.
  rewrite Hrestart in Hrun.
  change (connected_components empty_graph) with (@nil (gset node)) in Hrun.
  rewrite bind_run in Hrun.
  match type of Hrun with
  | context [for_ ?l ?body (init_state ff mm)] =>
      destruct (for_ l body (init_state ff mm)) as [[e|[]] s1] eqn:Hloop
  end; [inversion Hrun|].
  simpl in Hrun. unfold ret in Hrun. injection Hrun as <-.
  apply regular_loop_spec in Hloop as (H1 & H2 & H3 & _).
  split; [exact H1|]. split; [exact H2|]. split.
  - intros n (e & He & Hn). apply H3.
    apply classify_edges_regular. right. exists e. auto.
  - intros n Hn. now apply Hskip.
Qed.

(** ** The depth-first traversal *)

Lemma neighbors_edge edges u v :
  In v (neighbors edges u) -> edge_of edges (u, v).
Proof.
  unfold neighbors. rewrite <- list_elem_of_In, elem_of_remove_dups, list_elem_of_In.
  rewrite in_flat_map. intros ([a b] & He & Hv). simpl in Hv.
  destruct (decide (a = u)) as [->|Ha].
  - destruct Hv as [<-|[]]. now left.
  - destruct (decide (b = u)) as [->|Hb]; [|destruct Hv].
    destruct Hv as [<-|[]]. now right.
Qed.

Lemma dfs_from_unfold depth_now edges parent st :
  dfs_from depth_now edges parent st
  = fold_left
      (fun (st : dfs_state) (child : node) =>
         if decide (child ∈ fst st) then st
         else
           let st1 : dfs_state :=
             ({[child]} ∪ fst st, snd st ++ [(parent, child)]) in
           match depth_now with
           | S (S _ as deeper) => dfs_from deeper edges child st1
           | _ => st1
           end)
      (neighbors edges parent) st.
Proof. destruct depth_now; reflexivity. Qed.

Lemma dfs_from_yields_edges edges depth_now :
  forall parent st,
    Forall (edge_of edges) (snd st) ->
    Forall (edge_of edges) (snd (dfs_from depth_now edges parent st)).
Proof.
  induction depth_now as [|d IH]; intros parent st Hst;
    rewrite dfs_from_unfold.
  - assert (Hsub : forall c, In c (neighbors edges parent) ->
                             edge_of edges (parent, c))
      by (intros; now apply neighbors_edge).
    revert st Hst. induction (neighbors edges parent) as [|c l IHl];
      intros st Hst; simpl; [exact Hst|].
    apply IHl; [intros; apply Hsub; now right|].
    destruct (decide (c ∈ fst st)); [exact Hst|]. simpl.
    apply Forall_app. split; [exact Hst|].
    constructor; [|constructor]. apply Hsub. now left.
  - assert (Hsub : forall c, In c (neighbors edges parent) ->
                             edge_of edges (parent, c))
      by (intros; now apply neighbors_edge).
    revert st Hst. induction (neighbors edges parent) as [|c l IHl];
      intros st Hst; simpl; [exact Hst|].
    apply IHl; [intros; apply Hsub; now right|].
    destruct (decide (c ∈ fst st)); [exact Hst|].
    assert (Hst1 : Forall (edge_of edges) (snd st ++ [(parent, c)])).
    { apply Forall_app. split; [exact Hst|].
      constructor; [|constructor]. apply Hsub. now left. }
    destruct d; [exact Hst1|]. now apply IH.
Qed.

(** Every pair yielded by [dfs_edges] is an edge of the meta-molecule. *)
Lemma dfs_edges_are_edges mm :
  Forall (edge_of (mm_edges mm)) (dfs_edges mm).
Proof.
  unfold dfs_edges.
  assert (Hgen : forall (l : list node) (st : dfs_state),
             Forall (edge_of (mm_edges mm)) (snd st) ->
             Forall (edge_of (mm_edges mm))
                    (snd (fold_left
                            (fun (st : dfs_state) (start : node) =>
                               if decide (start ∈ fst st) then st
                               else dfs_from (length (mm_nodes mm)) (mm_edges mm)
                                             start ({[start]} ∪ fst st, snd st))
                            l st))).
  { induction l as [|v l IH]; intros st Hst; simpl; [exact Hst|].
    apply IH. destruct (decide (v ∈ fst st)); [exact Hst|].
    now apply dfs_from_yields_edges. }
  apply Hgen. constructor.
Qed.

(** A node that no edge of the meta-molecule touches is not an end of a
    traversed edge. *)
Lemma isolated_not_traversed mm n :
  (forall e, In e (mm_edges mm) -> n <> fst e /\ n <> snd e) ->
  ~ traversed_node mm n.
Proof.
  intros Hiso (e & He & Hn).
  pose proof (dfs_edges_are_edges mm) as Hall.
  rewrite Forall_forall in Hall.
  destruct (Hall e) as [Hin|Hin]; [now apply list_elem_of_In| |].
  - destruct (Hiso e Hin). tauto.
  - destruct (Hiso _ Hin) as [H1 H2]. simpl in H1, H2. tauto.
Qed.

(** ** run_molecule *)

Lemma run_molecule_run V s :
  run_molecule V s
  = bind match_nodes_to_blocks
         (fun _ =>
            bind get
                 (fun s1 =>
                    bind (lift (tag_exclusions (node_to_block s1) (force_field s1)))
                         (fun ff =>
                            bind (modify (with_force_field (fun _ => ff)))
                                 (fun _ =>
                                    bind (add_blocks V)
                                         (fun new_molecule =>
                                            modify
                                              (with_meta_molecule
                                                 (fun mm =>
                                                    mkMeta (mm_nodes mm) (mm_edges mm)
                                                           (Some new_molecule)))))))) s.
Proof. reflexivity. Qed.

Lemma consistent_along_path mm :
  existsb (inconsistent_edge mm) (dfs_edges mm) = false ->
  forall u v, tc (traversed_restart mm) u v ->
  forall a b, from_itp_of mm u = Some a -> from_itp_of mm v = Some b ->
              py_eq a b = true.
Proof.
  intros Hnone.
  assert (Hedge : forall x y a b,
             traversed_restart mm x y ->
             from_itp_of mm x = Some a -> from_itp_of mm y = Some b ->
             py_eq a b = true).
  { intros x y a b [[Hin|Hin] _] Ha Hb.
    - destruct (py_eq a b) eqn:Heq; [reflexivity|].
      assert (Hex : existsb (inconsistent_edge mm) (dfs_edges mm) = true).
      { apply existsb_exists. exists (x, y). split; [exact Hin|].
        unfold inconsistent_edge. simpl. now rewrite Ha, Hb, Heq. }
      congruence.
    - rewrite py_eq_sym. destruct (py_eq b a) eqn:Heq; [reflexivity|].
      assert (Hex : existsb (inconsistent_edge mm) (dfs_edges mm) = true).
      { apply existsb_exists. exists (y, x). split; [exact Hin|].
        unfold inconsistent_edge. simpl. now rewrite Ha, Hb, Heq. }
      congruence. }
  induction 1 as [x y Hxy|x y z Hxy Hyz IH]; intros a b Ha Hb.
  - eauto.
  - destruct Hxy as [Hin [_ [c Hc]]].
    assert (Hac : py_eq a c = true).
    { apply (Hedge x y); auto. split; [exact Hin|]. rewrite Ha, Hc. eauto. }
    specialize (IH c b Hc Hb).
    apply (py_eq_trans_true a b c); [exact Hac|].
    rewrite py_eq_sym. exact IH.
Qed.

(** X22: when two nodes joined by a path of traversed edges whose ends all
    carry [from_itp] name different templates,
    [run_molecule] raises, and the state at that moment has the template
    library and the meta-molecule as they were given: no [nrexcl] has
    changed, no [exclude] tag and no [graph] attribute has been written, and
    no molecule has been attached. *)
Theorem run_molecule_inconsistent_fragment V ff mm u v a b :
  dict_wf (mm_nodes mm) ->
  tc (traversed_restart mm) u v ->
  from_itp_of mm u = Some a ->
  from_itp_of mm v = Some b ->
  py_eq a b = false ->
  exists e s',
    run_molecule V (init_state ff mm) = (inl e, s')
    /\ force_field s' = ff
    /\ meta_molecule s' = mm.
Proof.
  intros Hwf Hpath Ha Hb Hneq.
  destruct (existsb (inconsistent_edge mm) (dfs_edges mm)) eqn:Hex.
  - apply existsb_exists in Hex as (e & He & Hinc).
    unfold inconsistent_edge in Hinc.
    destruct (from_itp_of mm (fst e)) as [x|] eqn:Hx; [|discriminate].
    destruct (from_itp_of mm (snd e)) as [y|] eqn:Hy; [|discriminate].
    apply negb_true_iff in Hinc.
    destruct (match_nodes_to_blocks_inconsistent_edge (init_state ff mm) e x y)
      as [err Herr]; auto.
    pose proof (match_nodes_to_blocks_classified ff mm) as (Hff & Hmm & _).
    rewrite run_molecule_run, bind_run.
    destruct (match_nodes_to_blocks (init_state ff mm)) as [[err'|[]] s'];
      simpl in Herr; [|discriminate].
    exists err', s'. auto.
  - rewrite (consistent_along_path mm Hex u v Hpath a b Ha Hb) in Hneq.
    discriminate.
Qed.

Lemma run_molecule_inconsistent_fragment_witness :
  exists e s',
    run_molecule vermouth_model (init_state ff_fragments meta_inconsistent) = (inl e, s')
    /\ force_field s' = ff_fragments
    /\ meta_molecule s' = meta_inconsistent.
Proof.
  apply (run_molecule_inconsistent_fragment
           vermouth_model ff_fragments meta_inconsistent 0 1
           (VStr "chainA") (VStr "chainB")).
  - unfold dict_wf. simpl. nodup_small.
  - apply tc_once. split; [left; vm_compute; auto|].
    split; eexists; reflexivity.
  - reflexivity.
  - reflexivity.
  - reflexivity.
Defined.

(** C5 (the code at the failing input): nodes 0, 1 and 3 are joined by the
    edges [0 - 1] and [1 - 3], whose ends all carry [from_itp], and they
    name two templates.  The edge [1 - 3] is not yielded by the traversal,
    so the classification returns: it records the one fragment [{0, 1}],
    gives node 3 no fragment and the template of its [resname], and
    [run_molecule] returns with a molecule attached.  The same graph with
    its edges inserted in another order is refused with an IOError. *)
Theorem run_molecule_accepts_untraversed_restart_edge :
  In (0, 1) (mm_edges meta_cycle)
  /\ In (1, 3) (mm_edges meta_cycle)
  /\ from_itp_of meta_cycle 0 = Some (VStr "chainA")
  /\ from_itp_of meta_cycle 1 = Some (VStr "chainA")
  /\ from_itp_of meta_cycle 3 = Some (VStr "chainB")
  /\ dfs_edges meta_cycle = [(0, 1); (1, 2); (2, 3)]
  /\ fst (match_nodes_to_blocks (init_state ff_fragments meta_cycle)) = inr tt
  /\ fragments (snd (match_nodes_to_blocks (init_state ff_fragments meta_cycle)))
     = [{[0; 1]}]
  /\ node_to_fragment
       (snd (match_nodes_to_blocks (init_state ff_fragments meta_cycle))) !! 3
     = None
  /\ dict_get 3 (node_to_block
                   (snd (match_nodes_to_blocks (init_state ff_fragments meta_cycle))))
     = Some (VStr "PEO")
  /\ fst (run_molecule vermouth_model (init_state ff_fragments meta_cycle)) = inr tt
  /\ is_Some (molecule
                (meta_molecule
                   (snd (run_molecule vermouth_model
                           (init_state ff_fragments meta_cycle)))))
  /\ mm_nodes meta_cycle_reordered = mm_nodes meta_cycle
  /\ Permutation (mm_edges meta_cycle_reordered) (mm_edges meta_cycle)
  /\ dfs_edges meta_cycle_reordered = [(0, 1); (1, 3); (3, 2)]
  /\ fst (run_molecule vermouth_model (init_state ff_fragments meta_cycle_reordered))
     = inl IOError.
Proof.
  split; [simpl; auto|]. split; [simpl; auto|].
  do 3 (split; [reflexivity|]).
  do 6 (split; [vm_compute; reflexivity|]).
  split; [eexists; vm_compute; reflexivity|].
  split; [reflexivity|].
  split; [apply perm_skip, (Permutation_cons_append [(1, 2); (2, 3)] (1, 3))|].
  split; vm_compute; reflexivity.
Qed.

Lemma from_itp_of_None_not_node mm n :
  from_itp_of mm n = None -> ~ from_itp_node mm n.
Proof.
  unfold from_itp_of, from_itp_node, dict_mem. intros Hnone (a & Ha & Hmem).
  rewrite Ha in Hnone. now rewrite Hnone in Hmem.
Qed.

Lemma from_itp_of_Some_node mm n :
  is_Some (from_itp_of mm n) -> from_itp_node mm n.
Proof.
  unfold from_itp_of, from_itp_node, dict_mem. intros [v Hv].
  destruct (dict_get n (mm_nodes mm)) as [a|]; [|discriminate].
  exists a. now rewrite Hv.
Qed.

(** C2 (the code at the failing input): nodes 3 and 4 form one fragment of
    the template chainB; [run_molecule] returns, the molecule has seven
    nodes where one instance of each template gives five, because chainB
    was merged once for node 3 and once more for node 4, and the residue of
    node 4 is empty. *)
Theorem add_blocks_merges_second_fragment_twice :
  fst (run_molecule vermouth_model (init_state ff_fragments meta_two_fragments))
  = inr tt
  /\ (exists s1, match_nodes_to_blocks (init_state ff_fragments meta_two_fragments)
                 = (inr tt, s1)
                 /\ node_to_fragment s1 !! 3 = Some 1%nat
                 /\ node_to_fragment s1 !! 4 = Some 1%nat
                 /\ elements <$> fragments s1 !! 1%nat = Some [3; 4])
  /\ (length (b_nodes block_two_residues) + length (b_nodes block_one_residue)
      + length (b_nodes block_two_residues) = 5)%nat
  /\ (length <$> (m_nodes <$>
        molecule (meta_molecule
                    (snd (run_molecule vermouth_model
                            (init_state ff_fragments meta_two_fragments)))))
      = Some 7%nat)
  /\ graph_of (meta_molecule
                 (snd (run_molecule vermouth_model
                         (init_state ff_fragments meta_two_fragments)))) 4
     = Some (VGraph [] []).
Proof.
  split; [vm_compute; reflexivity|].
  split; [eexists; split; [vm_compute; reflexivity|]; vm_compute; auto|].
  split; [reflexivity|].
  split; vm_compute; reflexivity.
Qed.

(** C4 (the code at the failing input): the classification of a
    single-residue meta-molecule returns without raising and leaves its only
    node without an entry in [node_to_block]; [add_blocks] then fails on
    the lookup, so [run_molecule] raises a KeyError. *)
Theorem match_nodes_to_blocks_misses_single_node :
  In 0 (dict_keys (mm_nodes meta_single))
  /\ dfs_edges meta_single = []
  /\ fst (match_nodes_to_blocks (init_state ff_fragments meta_single)) = inr tt
  /\ node_to_block
       (snd (match_nodes_to_blocks (init_state ff_fragments meta_single))) = []
  /\ fst (run_molecule vermouth_model (init_state ff_fragments meta_single))
     = inl KeyError.
Proof. repeat split; vm_compute; auto. Qed.

(** C7 (the code at the failing input): no node carries [from_itp]; the
    fragment list and [node_to_fragment] stay empty and the two bonded nodes
    get their [resname], but the isolated node 2 gets no template at all. *)
Theorem match_nodes_to_blocks_misses_isolated_node :
  (forall n, In n (dict_keys (mm_nodes meta_isolated)) ->
             from_itp_of meta_isolated n = None)
  /\ fst (match_nodes_to_blocks (init_state ff_fragments meta_isolated)) = inr tt
  /\ node_to_block
       (snd (match_nodes_to_blocks (init_state ff_fragments meta_isolated)))
     = [(0, VStr "PEO"); (1, VStr "PEO")]
  /\ fragments
       (snd (match_nodes_to_blocks (init_state ff_fragments meta_isolated))) = []
  /\ node_to_fragment
       (snd (match_nodes_to_blocks (init_state ff_fragments meta_isolated))) = ∅
  /\ dict_get 2 (node_to_block
                   (snd (match_nodes_to_blocks
                           (init_state ff_fragments meta_isolated)))) = None.
Proof.
  split.
  - intros n [<-|[<-|[<-|[]]]]; reflexivity.
  - repeat split; vm_compute; reflexivity.
Qed.

(** * Further properties *)

(** ** tag_exclusions: the general case *)

Lemma collect_excls_ok_inv items ff :
  forall acc excls,
    collect_excls items ff acc = inr excls ->
    forall n name, In (n, name) items -> exists b, blocks_get ff name = inr b.
Proof.
  induction items as [|[n0 name0] items IH]; intros acc excls; simpl.
  - intros _ n name [].
  - destruct (blocks_get ff name0) as [e|b] eqn:Hb; simpl; [discriminate|].
    intros Hrun n name [Heq|Hin].
    + injection Heq as <- <-. eauto.
    + eapply IH; eauto.
Qed.

Lemma collect_excls_raises items ff :
  forall acc e,
    collect_excls items ff acc = inl e ->
    e = KeyError
    /\ exists n name, In (n, name) items /\ blocks_get ff name = inl KeyError.
Proof.
  induction items as [|[n0 name0] items IH]; intros acc e; simpl.
  - discriminate.
  - destruct (blocks_get ff name0) as [e0|b] eqn:Hb; simpl.
    + intros [= <-].
      assert (e0 = KeyError).
      { destruct name0; simpl in Hb; try (now injection Hb as <-).
        destruct (blocks ff !! s); simpl in Hb;
          [discriminate|now injection Hb as <-]. }
      subst e0. split; [reflexivity|]. exists n0, name0. auto.
    + intros Hrun. destruct (IH _ _ Hrun) as (He & n & name & Hin & Hn).
      split; [exact He|]. exists n, name. auto.
Qed.

(** The values of [excls] are the [nrexcl] of the referenced blocks. *)
Lemma excls_values node_to_block ff excls :
  dict_wf node_to_block ->
  collect_excls node_to_block ff [] = inr excls ->
  (forall n e, In (n, e) excls -> excl_of_block ff node_to_block (n, e))
  /\ (forall n name b, In (n, name) node_to_block ->
                       blocks_get ff name = inr b -> In (n, nrexcl b) excls).
Proof.
  intros Hwf Hrun.
  destruct (collect_excls_spec ff node_to_block node_to_block [])
    as (excls' & Hrun' & Hgood & Hkeys); auto.
  { eapply collect_excls_ok_inv, Hrun. }
  assert (excls' = excls) by congruence. subst excls'.
  rewrite Forall_forall in Hgood. split.
  - intros n e Hin. apply Hgood. now apply list_elem_of_In.
  - intros n name b Hin Hb.
    assert (Hk : In n (dict_keys excls)).
    { apply Hkeys. right. apply (in_map fst) in Hin. exact Hin. }
    apply in_map_iff in Hk as ([n' e] & Hn & Hin'). simpl in Hn. subst n'.
    destruct (Hgood (n, e)) as (s & b0 & Hget & Hb0 & He);
      [now apply list_elem_of_In|].
    simpl in Hget, He. rewrite (In_dict_get_wf _ _ _ Hwf Hin) in Hget.
    apply blocks_get_ok in Hb as (s' & Hs' & Hb).
    assert (s' = s) by congruence. subst s'.
    assert (b0 = b) by congruence. subst b0. now rewrite He.
Qed.

Lemma apply_excls_frame items node_to_block m :
  forall ff ff',
    apply_excls items node_to_block m ff = inr ff' ->
    forall s, (forall n e, In (n, e) items ->
                           dict_get n node_to_block <> Some (VStr s)) ->
              blocks ff' !! s = blocks ff !! s.
Proof.
  induction items as [|[n e] items IH]; intros ff ff'; simpl.
  - intros [= <-]. reflexivity.
  - destruct (dict_get n node_to_block) as [name|] eqn:Hname; simpl;
      [|discriminate].
    destruct (blocks_get ff name) as [err|b]; simpl; [discriminate|].
    destruct name as [z|s0|ns es]; try discriminate.
    intros Hrun s Hs.
    rewrite (IH _ _ Hrun s) by (intros n' e' Hin'; apply (Hs n' e'); now right).
    simpl. apply lookup_insert_ne. intros ->.
    apply (Hs n e (or_introl eq_refl)). exact Hname.
Qed.

Lemma py_min_inv vals m :
  py_min vals = inr m -> In m vals /\ forall y, In y vals -> m <= y.
Proof.
  destruct vals as [|x xs]; simpl; [discriminate|].
  unfold ok. intros [= <-]. apply fold_min_spec.
Qed.

(** What a run of [tag_exclusions] that returns has done: nothing, when the
    referenced templates agree; otherwise every referenced template is
    tagged and lowered to the minimum [m], and the others are as before. *)
Lemma tag_exclusions_cases node_to_block ff ff' :
  dict_wf node_to_block ->
  tag_exclusions node_to_block ff = inr ff' ->
  (forall n name, In (n, name) node_to_block ->
                  exists b, blocks_get ff name = inr b)
  /\ ((ff' = ff
       /\ forall n1 name1 b1 n2 name2 b2,
            In (n1, name1) node_to_block -> blocks_get ff name1 = inr b1 ->
            In (n2, name2) node_to_block -> blocks_get ff name2 = inr b2 ->
            nrexcl b1 = nrexcl b2)
      \/ exists m,
           (exists n name b, In (n, name) node_to_block
                             /\ blocks_get ff name = inr b /\ nrexcl b = m)
           /\ (forall n name b, In (n, name) node_to_block ->
                                blocks_get ff name = inr b -> m <= nrexcl b)
           /\ (exists n1 name1 b1 n2 name2 b2,
                 In (n1, name1) node_to_block /\ blocks_get ff name1 = inr b1
                 /\ In (n2, name2) node_to_block /\ blocks_get ff name2 = inr b2
                 /\ nrexcl b1 <> nrexcl b2)
           /\ (forall n name b, In (n, name) node_to_block ->
                                blocks_get ff name = inr b ->
                                blocks_get ff' name = inr (tagged b m))
           /\ partly_tagged ff m ff'
           /\ (forall s, (forall n, ~ In (n, VStr s) node_to_block) ->
                         blocks ff' !! s = blocks ff !! s)).
Proof.
  intros Hwf. unfold tag_exclusions.
  destruct (collect_excls node_to_block ff []) as [e|excls] eqn:Hcol; simpl;
    [discriminate|].
  pose proof (collect_excls_ok_inv _ _ _ _ Hcol) as Hex.
  destruct (excls_values _ _ _ Hwf Hcol) as [Hgood Hval].
  assert (Hvals : forall v, In v (dict_values excls) <->
                    exists n name b, In (n, name) node_to_block
                                     /\ blocks_get ff name = inr b
                                     /\ nrexcl b = v).
  { intros v. split.
    - intros Hv. apply in_map_iff in Hv as ([n e] & <- & Hin).
      destruct (Hgood n e Hin) as (s & b & Hget & Hb & He). simpl in *.
      exists n, (VStr s), b. split; [now apply dict_get_In|].
      split; [apply blocks_get_ok; eauto|exact He].
    - intros (n & name & b & Hin & Hb & <-).
      apply in_map_iff. exists (n, nrexcl b). split; [reflexivity|]. eauto. }
  destruct (Nat.ltb_spec 1 (distinct_count (dict_values excls))) as [Hgt|Hle].
  - destruct (py_min (dict_values excls)) as [e|m] eqn:Hmin; simpl; [discriminate|].
    intros Hrun. split; [exact Hex|]. right. exists m.
    apply py_min_inv in Hmin as [Hm_in Hm_le].
    split; [now apply Hvals|]. split.
    { intros n name b Hin Hb. apply Hm_le. apply Hvals. eauto 8. }
    split.
    { destruct (dict_values excls) as [|x xs] eqn:Hxs.
      { assert ((distinct_count (@nil Z) <= 1)%nat)
          by (apply (distinct_count_le_1 _ 0); intros y []).
        lia. }
      destruct (forallb (Z.eqb x) xs) eqn:Hall.
      - exfalso. rewrite forallb_forall in Hall.
        assert (Hle : (distinct_count (x :: xs) <= 1)%nat).
        { apply (distinct_count_le_1 _ x). intros y [<-|Hy]; [reflexivity|].
          symmetry. apply Z.eqb_eq. now apply Hall. }
        lia.
      - assert (Hy : exists y, In y xs /\ x <> y).
        { clear -Hall. induction xs as [|y xs IH]; [discriminate|].
          simpl in Hall. destruct (Z.eqb_spec x y) as [->|Hne].
          - destruct (IH Hall) as (z & Hz & Hxz). exists z. split; [now right|auto].
          - exists y. split; [now left|exact Hne]. }
        destruct Hy as (y & Hy & Hxy).
        assert (Hx' : In x (x :: xs)) by now left.
        assert (Hy' : In y (x :: xs)) by now right.
        apply Hvals in Hx' as (n1 & name1 & b1 & H1 & H1' & <-).
        apply Hvals in Hy' as (n2 & name2 & b2 & H2 & H2' & <-).
        exists n1, name1, b1, n2, name2, b2. auto 6. }
    assert (Hgood' : Forall (excl_of_block ff node_to_block) excls).
    { apply Forall_forall. intros [n e] Hin. apply Hgood.
      now apply list_elem_of_In. }
    destruct (apply_excls_spec ff node_to_block m excls ff Hgood')
      as (ff1 & Hrun1 & Hpart & _ & Hdone); [intros s; now left|].
    assert (ff1 = ff') by congruence. subst ff1.
    split; [|split; [exact Hpart|]].
    + intros n name b Hin Hb.
      pose proof (Hval _ _ _ Hin Hb) as Hne.
      apply blocks_get_ok in Hb as (s & -> & Hb).
      destruct (Hdone n (nrexcl b) s Hne) as (b0 & Hb0 & Htag);
        [now apply In_dict_get_wf|].
      assert (b0 = b) by congruence. subst b0.
      apply blocks_get_ok. eauto.
    + intros s Hs. apply (apply_excls_frame _ _ _ _ _ Hrun).
      intros n e Hin Hget. apply (Hs n). now apply dict_get_In.
  - intros [= <-]. split; [exact Hex|]. left. split; [reflexivity|].
    intros n1 name1 b1 n2 name2 b2 H1 H1' H2 H2'.
    destruct (Z.eq_dec (nrexcl b1) (nrexcl b2)) as [Heq|Hne]; [exact Heq|].
    exfalso.
    assert ((2 <= distinct_count (dict_values excls))%nat).
    { apply (distinct_count_ge_2 _ (nrexcl b1) (nrexcl b2) Hne);
        apply Hvals; eauto 6. }
    lia.
Qed.

Lemma tag_exclusions_returns node_to_block ff :
  dict_wf node_to_block ->
  (forall n name, In (n, name) node_to_block ->
                  exists b, blocks_get ff name = inr b) ->
  exists ff', tag_exclusions node_to_block ff = inr ff'.
Proof.
  intros Hwf Hex. unfold tag_exclusions.
  destruct (collect_excls_spec ff node_to_block node_to_block [])
    as (excls & Hrun & Hgood & _); auto.
  rewrite Hrun. simpl.
  destruct (Nat.ltb_spec 1 (distinct_count (dict_values excls))) as [Hgt|Hle];
    [|eauto].
  destruct (dict_values excls) as [|x xs] eqn:Hxs.
  { assert ((distinct_count (@nil Z) <= 1)%nat)
      by (apply (distinct_count_le_1 _ 0); intros y []).
    lia. }
  simpl.
  destruct (apply_excls_spec ff node_to_block (fold_left Z.min xs x) excls ff Hgood)
    as (ff' & Hrun' & _); [intros s; now left|].
  eauto.
Qed.

Lemma same_but_exclusions_refl b : same_but_exclusions b b.
Proof.
  split; [reflexivity|]. induction (b_nodes b) as [|na l IH]; constructor; auto.
Qed.

Lemma same_but_exclusions_tagged b m : same_but_exclusions b (tagged b m).
Proof.
  split; [reflexivity|]. simpl.
  induction (b_nodes b) as [|[n a] l IH]; simpl; constructor; [|exact IH].
  split; [reflexivity|]. intros k Hk. simpl.
  apply dict_get_set_ne. congruence.
Qed.

(** X1: when the referenced templates do not all have the same [nrexcl],
    [tag_exclusions] returns; every referenced template then has the least
    [nrexcl] of the referenced templates, each of its nodes carries
    [exclude] equal to the [nrexcl] the template had (the block is
    [tagged]), and a template that no node references is as it was. *)
Theorem tag_exclusions_lowers_to_minimum node_to_block ff :
  dict_wf node_to_block ->
  (forall n name, In (n, name) node_to_block ->
                  exists b, blocks_get ff name = inr b) ->
  (exists n1 name1 b1 n2 name2 b2,
     In (n1, name1) node_to_block /\ blocks_get ff name1 = inr b1
     /\ In (n2, name2) node_to_block /\ blocks_get ff name2 = inr b2
     /\ nrexcl b1 <> nrexcl b2) ->
  exists ff' m,
    tag_exclusions node_to_block ff = inr ff'
    /\ (exists n name b, In (n, name) node_to_block
                         /\ blocks_get ff name = inr b /\ nrexcl b = m)
    /\ (forall n name b, In (n, name) node_to_block ->
                         blocks_get ff name = inr b -> m <= nrexcl b)
    /\ (forall n name b, In (n, name) node_to_block ->
                         blocks_get ff name = inr b ->
                         blocks_get ff' name = inr (tagged b m))
    /\ (forall s, (forall n, ~ In (n, VStr s) node_to_block) ->
                  blocks ff' !! s = blocks ff !! s).
Proof.
  intros Hwf Hex (n1 & name1 & b1 & n2 & name2 & b2 & H1 & H1' & H2 & H2' & Hne).
  destruct (tag_exclusions_returns _ _ Hwf Hex) as [ff' Hrun].
  destruct (tag_exclusions_cases _ _ _ Hwf Hrun)
    as (_ & [[_ Hsame]|(m & Hm & Hle & _ & Htag & _ & Hother)]).
  - exfalso. apply Hne. exact (Hsame _ _ _ _ _ _ H1 H1' H2 H2').
  - exists ff', m. auto 6.
Qed.

Lemma tag_exclusions_lowers_to_minimum_witness :
  exists ff' m,
    tag_exclusions node_to_block_mixed ff_mixed = inr ff'
    /\ (exists n name b, In (n, name) node_to_block_mixed
                         /\ blocks_get ff_mixed name = inr b /\ nrexcl b = m)
    /\ (forall n name b, In (n, name) node_to_block_mixed ->
                         blocks_get ff_mixed name = inr b -> m <= nrexcl b)
    /\ (forall n name b, In (n, name) node_to_block_mixed ->
                         blocks_get ff_mixed name = inr b ->
                         blocks_get ff' name = inr (tagged b m))
    /\ (forall s, (forall n, ~ In (n, VStr s) node_to_block_mixed) ->
                  blocks ff' !! s = blocks ff_mixed !! s).
Proof.
  apply (tag_exclusions_lowers_to_minimum node_to_block_mixed ff_mixed).
  - unfold dict_wf. simpl. nodup_small.
  - intros n name [H|[H|[H|[]]]]; injection H as <- <-; eexists; reflexivity.
  - exists 0, (VStr "PEO"), (one_atom_block 3), 1, (VStr "PS"), (one_atom_block 1).
    split; [simpl; auto|]. split; [reflexivity|].
    split; [simpl; auto|]. split; [reflexivity|]. discriminate.
Defined.

(** X2: [tag_exclusions] returns exactly when every template that a node
    references is in the library, and the only exception it raises is a
    KeyError. *)
Theorem tag_exclusions_raises_iff_missing node_to_block ff :
  dict_wf node_to_block ->
  ((exists ff', tag_exclusions node_to_block ff = inr ff')
   <-> forall n name, In (n, name) node_to_block ->
                      exists b, blocks_get ff name = inr b)
  /\ (forall e, tag_exclusions node_to_block ff = inl e -> e = KeyError).
Proof.
  intros Hwf. split; [split|].
  - intros [ff' Hrun]. now destruct (tag_exclusions_cases _ _ _ Hwf Hrun).
  - now apply tag_exclusions_returns.
  - intros e Hrun.
    destruct (collect_excls node_to_block ff []) as [e0|excls] eqn:Hcol.
    + unfold tag_exclusions in Hrun. rewrite Hcol in Hrun. simpl in Hrun.
      injection Hrun as <-. now destruct (collect_excls_raises _ _ _ _ Hcol).
    + destruct (tag_exclusions_returns node_to_block ff Hwf) as [ff' Hok].
      * eapply collect_excls_ok_inv, Hcol.
      * congruence.
Qed.

Lemma tag_exclusions_raises_iff_missing_witness :
  ((exists ff', tag_exclusions node_to_block_missing ff_mixed = inr ff')
   <-> forall n name, In (n, name) node_to_block_missing ->
                      exists b, blocks_get ff_mixed name = inr b)
  /\ (forall e, tag_exclusions node_to_block_missing ff_mixed = inl e ->
                e = KeyError).
Proof.
  apply (tag_exclusions_raises_iff_missing node_to_block_missing ff_mixed).
  unfold dict_wf. simpl. nodup_small.
Defined.

(** X3: [tag_exclusions] is idempotent: run again on the library it
    returned, with the same [node_to_block], it changes nothing. *)
Theorem tag_exclusions_idempotent node_to_block ff ff' :
  dict_wf node_to_block ->
  tag_exclusions node_to_block ff = inr ff' ->
  tag_exclusions node_to_block ff' = inr ff'.
Proof.
  intros Hwf Hrun.
  destruct (tag_exclusions_cases _ _ _ Hwf Hrun)
    as (Hex & [[-> _]|(m & _ & _ & _ & Htag & _)]); [exact Hrun|].
  apply (tag_exclusions_same_nrexcl _ _ m).
  intros n name Hin. destruct (Hex n name Hin) as [b Hb].
  exists (tagged b m). split; [now apply (Htag n)|reflexivity].
Qed.

Lemma tag_exclusions_idempotent_witness :
  tag_exclusions node_to_block_mixed
                 (mkForceField (<["PEO"%string := tagged (one_atom_block 3) 1]>
                               (<["PS"%string := tagged (one_atom_block 1) 1]>
                               (<["P3HT"%string := one_atom_block 5]> ∅))))
  = inr (mkForceField (<["PEO"%string := tagged (one_atom_block 3) 1]>
                      (<["PS"%string := tagged (one_atom_block 1) 1]>
                      (<["P3HT"%string := one_atom_block 5]> ∅)))).
Proof.
  apply (tag_exclusions_idempotent node_to_block_mixed ff_mixed).
  - unfold dict_wf. simpl. nodup_small.
  - vm_compute. reflexivity.
Defined.

(** X4: [tag_exclusions] neither adds nor removes a template, and in a
    template it changes nothing but [nrexcl] and the [exclude] attribute of
    the nodes: the nodes, their order, their other attributes and the edges
    are as before. *)
Theorem tag_exclusions_keeps_templates node_to_block ff ff' :
  dict_wf node_to_block ->
  tag_exclusions node_to_block ff = inr ff' ->
  forall s,
    match blocks ff !! s with
    | Some b => exists b', blocks ff' !! s = Some b' /\ same_but_exclusions b b'
    | None => blocks ff' !! s = None
    end.
Proof.
  intros Hwf Hrun s.
  destruct (tag_exclusions_cases _ _ _ Hwf Hrun)
    as (_ & [[-> _]|(m & _ & _ & _ & _ & Hpart & _)]).
  - destruct (blocks ff !! s) as [b|]; [|reflexivity].
    exists b. split; [reflexivity|apply same_but_exclusions_refl].
  - destruct (Hpart s) as [Heq|(b & Hb & Hb')].
    + rewrite Heq. destruct (blocks ff !! s) as [b|]; [|reflexivity].
      exists b. split; [reflexivity|apply same_but_exclusions_refl].
    + rewrite Hb. exists (tagged b m). split; [exact Hb'|].
      apply same_but_exclusions_tagged.
Qed.

Lemma tag_exclusions_keeps_templates_witness :
  exists ff',
    tag_exclusions node_to_block_mixed ff_mixed = inr ff'
    /\ forall s,
         match blocks ff_mixed !! s with
         | Some b => exists b', blocks ff' !! s = Some b'
                                /\ same_but_exclusions b b'
         | None => blocks ff' !! s = None
         end.
Proof.
  eexists. split; [vm_compute; reflexivity|].
  apply (tag_exclusions_keeps_templates node_to_block_mixed ff_mixed).
  - unfold dict_wf. simpl. nodup_small.
  - vm_compute. reflexivity.
Defined.

(** ** When _correspondence_to_residue returns *)

Lemma residue_loop_ok_inv meta_attrs resid mol targets :
  forall g residue,
    residue_loop targets meta_attrs resid mol g = inr residue ->
    forall n, In n targets ->
      exists data r, dict_get n (m_nodes mol) = Some data
                     /\ dict_get "resid"%string data = Some r.
Proof.
  induction targets as [|t targets IH]; intros g residue; simpl.
  - intros _ n [].
  - destruct (dict_get t (m_nodes mol)) as [data|] eqn:Hdata; simpl;
      [|discriminate].
    destruct (dict_get "resid"%string data) as [r|] eqn:Hr; simpl; [|discriminate].
    intros Hrun n [<-|Hin]; [eauto|].
    destruct (py_eq r resid).
    + destruct (propagate meta_attrs t (add_node t data g)) as [e|g'];
        simpl in Hrun; [discriminate|]. eapply IH; eauto.
    + eapply IH; eauto.
Qed.

(** X5: [_correspondence_to_residue] returns a residue exactly when the
    meta node has a [resid] and every target of the correspondence is a node
    of the molecule that has a [resid]; otherwise it raises a KeyError, and
    it raises nothing else. *)
Theorem correspondence_to_residue_returns_iff
        meta_molecule mol correspondence res_node :
  ((exists residue,
      _correspondence_to_residue meta_molecule mol correspondence res_node
      = inr residue)
   <-> exists meta_attrs resid,
         dict_get res_node (mm_nodes meta_molecule) = Some meta_attrs
         /\ dict_get "resid"%string meta_attrs = Some resid
         /\ forall n, In n (dict_values correspondence) ->
              exists data r, dict_get n (m_nodes mol) = Some data
                             /\ dict_get "resid"%string data = Some r)
  /\ (forall e,
        _correspondence_to_residue meta_molecule mol correspondence res_node
        = inl e -> e = KeyError).
Proof.
  split; [split|].
  - intros [residue Hres]. unfold _correspondence_to_residue in Hres.
    destruct (dict_get res_node (mm_nodes meta_molecule)) as [a|]; simpl in Hres;
      [|discriminate].
    destruct (dict_get "resid"%string a) as [resid|] eqn:Hr; simpl in Hres;
      [|discriminate].
    exists a, resid. split; [reflexivity|]. split; [exact Hr|].
    eapply residue_loop_ok_inv, Hres.
  - intros (a & resid & Ha & Hr & Hall).
    eapply correspondence_to_residue_total; eauto.
  - apply correspondence_to_residue_raises.
Qed.

(** ** What the classification leaves alone *)

Lemma match_fragment_keeps_exact (I : State -> Prop) restart_attr fragment :
  (forall s, I s -> I (with_fragments (fun fs => fs ++ [fragment]) s)) ->
  (forall s m v, I s -> m ∈ fragment ->
                 I (with_node_to_block (dict_set m v) s)) ->
  (forall s m k, I s -> m ∈ fragment ->
                 I (with_node_to_fragment (<[m := k]>) s)) ->
  keeps I (match_fragment restart_attr fragment).
Proof.
  intros Hf Hb Hnf. unfold match_fragment.
  apply keeps_bind; [apply keeps_lift|intros first].
  apply keeps_bind; [apply keeps_lift|intros block_name].
  apply keeps_bind; [apply keeps_lift|intros names].
  destruct (forallb _ names); [|apply keeps_lift].
  apply keeps_bind; [apply keeps_modify; auto|intros _].
  apply keeps_bind; [apply keeps_get|intros s0].
  apply keeps_bind; [apply keeps_lift|intros _].
  apply keeps_for. intros n Hn.
  apply list_elem_of_In, elem_of_elements in Hn.
  apply keeps_bind; [apply keeps_modify; auto|intros _].
  apply keeps_bind; [apply keeps_get|intros s1].
  apply keeps_modify. auto.
Qed.

Lemma match_nodes_to_blocks_keeps_exact (I : State -> Prop) mm :
  (forall s c, I s -> I (with_fragments (fun fs => fs ++ [c]) s)) ->
  (forall s m v, I s -> traversed_node mm m ->
                 I (with_node_to_block (dict_set m v) s)) ->
  (forall s m k, I s -> traversed_node mm m ->
                 I (with_node_to_fragment (<[m := k]>) s)) ->
  forall s, meta_molecule s = mm -> I s -> I (snd (match_nodes_to_blocks s)).
Proof.
  intros Hf Hb Hnf s Hmm Hs. rewrite match_nodes_to_blocks_run, Hmm.
  clear Hmm. revert s Hs.
  destruct (classified_graphs_traversed mm) as [[Hreg _] Hres].
  apply keeps_bind.
  - apply keeps_for. intros n Hn.
    apply keeps_bind; [apply keeps_lift|intros a].
    apply keeps_bind; [apply keeps_lift|intros resname].
    apply keeps_modify. auto.
  - intros _. apply keeps_for. intros c Hc.
    apply match_fragment_keeps_exact; auto.
    + intros s m v Hs Hm. apply Hb; [exact Hs|].
      apply (connected_components_support _ _ c m Hres Hc Hm).
    + intros s m k Hs Hm. apply Hnf; [exact Hs|].
      apply (connected_components_support _ _ c m Hres Hc Hm).
Qed.

(** X6: whether it returns or raises, and whatever the processor has
    recorded before, [match_nodes_to_blocks] leaves the force field, the
    meta-molecule and the bookkeeping of [add_blocks] as they are, only
    appends to [fragments], and does not touch the entries of
    [node_to_block] and [node_to_fragment] of a node that is not an end of a
    traversed edge. *)
Theorem match_nodes_to_blocks_frame s :
  let s' := snd (match_nodes_to_blocks s) in
  force_field s' = force_field s
  /\ meta_molecule s' = meta_molecule s
  /\ multiblock_correspondence s' = multiblock_correspondence s
  /\ added_fragments s' = added_fragments s
  /\ added_fragment_nodes s' = added_fragment_nodes s
  /\ (exists new, fragments s' = fragments s ++ new)
  /\ forall n, ~ traversed_node (meta_molecule s) n ->
               dict_get n (node_to_block s') = dict_get n (node_to_block s)
               /\ node_to_fragment s' !! n = node_to_fragment s !! n.
Proof.
  apply (match_nodes_to_blocks_keeps_exact
           (fun s' =>
              force_field s' = force_field s
              /\ meta_molecule s' = meta_molecule s
              /\ multiblock_correspondence s' = multiblock_correspondence s
              /\ added_fragments s' = added_fragments s
              /\ added_fragment_nodes s' = added_fragment_nodes s
              /\ (exists new, fragments s' = fragments s ++ new)
              /\ forall n, ~ traversed_node (meta_molecule s) n ->
                   dict_get n (node_to_block s') = dict_get n (node_to_block s)
                   /\ node_to_fragment s' !! n = node_to_fragment s !! n)
           (meta_molecule s)).
  - intros s0 c (H1 & H2 & H3 & H4 & H5 & [new H6] & H7).
    repeat (split; [assumption|]). split; [|exact H7].
    exists (new ++ [c]). simpl. rewrite H6. now rewrite app_assoc.
  - intros s0 m v (H1 & H2 & H3 & H4 & H5 & H6 & H7) Hm.
    repeat (split; [assumption|]).
    intros n Hn. destruct (H7 n Hn) as [Hb Hf]. split; [|exact Hf]. simpl.
    rewrite dict_get_set_ne; [exact Hb|]. intros ->. contradiction.
  - intros s0 m k (H1 & H2 & H3 & H4 & H5 & H6 & H7) Hm.
    repeat (split; [assumption|]).
    intros n Hn. destruct (H7 n Hn) as [Hb Hf]. split; [exact Hb|]. simpl.
    rewrite lookup_insert_ne; [exact Hf|]. intros ->. contradiction.
  - reflexivity.
  - repeat (split; [reflexivity|]). split; [|auto].
    exists []. now rewrite app_nil_r.
Qed.

(** ** Missing attributes and empty input *)

Lemma result_map_raises {A B} (f : A -> result B) (l : list A) (err : exn) x :
  (forall y e, f y = inl e -> e = err) ->
  In x l -> f x = inl err ->
  result_map f l = inl err.
Proof.
  intros Honly. induction l as [|y l IH]; intros Hin Hx; [destruct Hin|].
  simpl. destruct (f y) as [e|b] eqn:Hy; simpl.
  - f_equal. eapply Honly, Hy.
  - destruct Hin as [->|Hin]; [congruence|]. now rewrite IH.
Qed.

Lemma node_order_missing_resid mm n a :
  dict_wf (mm_nodes mm) ->
  In (n, a) (mm_nodes mm) ->
  dict_get "resid"%string a = None ->
  node_order mm = inl KeyError.
Proof.
  intros Hwf Hin Hnone. unfold node_order.
  rewrite (result_map_raises _ _ KeyError n); [reflexivity| | |].
  - intros y e. destruct (dict_get y _); simpl; [discriminate|].
    now intros [= <-].
  - apply (in_map fst) in Hin. exact Hin.
  - rewrite get_node_attributes_lookup by exact Hwf.
    rewrite (In_dict_get_wf _ _ _ Hwf Hin), Hnone. reflexivity.
Qed.

(** X7: if a node of the meta-molecule has no [resid], [add_blocks] raises
    a KeyError before it has instantiated or written anything: the state
    is the one it was called in. *)
Theorem add_blocks_missing_resid V s n a :
  dict_wf (mm_nodes (meta_molecule s)) ->
  In (n, a) (mm_nodes (meta_molecule s)) ->
  dict_get "resid"%string a = None ->
  add_blocks V s = (inl KeyError, s).
Proof.
  intros Hwf Hin Hnone. unfold add_blocks.
  rewrite bind_run. unfold get at 1. cbv beta iota.
  rewrite bind_run. unfold lift at 1.
  now rewrite (node_order_missing_resid _ n a Hwf Hin Hnone).
Qed.

Lemma add_blocks_missing_resid_witness :
  add_blocks vermouth_model (init_state ff_fragments meta_without_resid)
  = (inl KeyError, init_state ff_fragments meta_without_resid).
Proof.
  apply (add_blocks_missing_resid
           vermouth_model (init_state ff_fragments meta_without_resid)
           1 [("resname"%string, VStr "PEO")]).
  - unfold dict_wf. simpl. nodup_small.
  - simpl. auto.
  - reflexivity.
Defined.

(** X8: without nodes there is no first node: [add_blocks] raises an
    IndexError and leaves the processor as it was, and so does
    [run_molecule] on a fresh processor, after a classification and a
    [tag_exclusions] that have changed nothing. *)
Theorem run_molecule_empty V ff edges mol :
  run_molecule V (init_state ff (mkMeta [] edges mol))
  = (inl IndexError, init_state ff (mkMeta [] edges mol))
  /\ forall s, mm_nodes (meta_molecule s) = [] ->
                add_blocks V s = (inl IndexError, s).
Proof.
  split; [reflexivity|].
  intros s Hs. unfold add_blocks. rewrite bind_run. unfold get at 1.
  cbv beta iota. rewrite bind_run. unfold lift at 1.
  unfold node_order. rewrite Hs. reflexivity.
Qed.

Lemma py_eq_eq a b : py_eq a b = true -> a = b.
Proof.
  destruct a, b; simpl; try discriminate.
  - intros H. apply Z.eqb_eq in H. now subst.
  - intros H. apply String.eqb_eq in H. now subst.
Qed.

Lemma py_eq_refl_str name : py_eq (VStr name) (VStr name) = true.
Proof. simpl. apply String.eqb_refl. Qed.

Lemma result_map_inv {A B} (f : A -> result B) (l : list A) ys :
  result_map f l = inr ys -> Forall2 (fun x y => f x = inr y) l ys.
Proof.
  revert ys. induction l as [|x l IH]; intros ys; simpl.
  - intros [= <-]. constructor.
  - destruct (f x) as [e|y] eqn:Hx; simpl; [discriminate|].
    destruct (result_map f l) as [e|ys']; simpl; [discriminate|].
    intros [= <-]. constructor; auto.
Qed.

Lemma result_map_error {A B} (f : A -> result B) (l : list A) e :
  result_map f l = inl e -> exists x, In x l /\ f x = inl e.
Proof.
  induction l as [|x l IH]; simpl; [discriminate|].
  destruct (f x) as [e'|y] eqn:Hx; simpl.
  - intros [= <-]. exists x. auto.
  - destruct (result_map f l) as [e'|ys]; simpl; [|discriminate].
    intros [= <-]. destruct IH as (x' & Hin & Hx'); [reflexivity|].
    exists x'. auto.
Qed.

Lemma Forall2_In_left {A B} (R : A -> B -> Prop) l ys x :
  Forall2 R l ys -> In x l -> exists y, In y ys /\ R x y.
Proof.
  induction 1 as [|a b l ys Hab _ IH]; intros Hin; [destruct Hin|].
  destruct Hin as [<-|Hin].
  - exists b. split; [now left|exact Hab].
  - destruct (IH Hin) as (y & Hy & Hxy). exists y. split; [now right|exact Hxy].
Qed.

(** ** The loop over the members of a fragment (lines 145-147) *)

Lemma fragment_nodes_loop (name : value) (l : list node) :
  forall s,
  exists s',
    for_ l (fun n =>
              bind (modify (with_node_to_block (dict_set n name)))
                   (fun _ =>
                      bind get
                           (fun s =>
                              modify (with_node_to_fragment
                                        (<[n := (length (fragments s) - 1)%nat]>)))))
         s = (inr tt, s')
    /\ fragments s' = fragments s
    /\ force_field s' = force_field s
    /\ meta_molecule s' = meta_molecule s
    /\ (forall n, In n l ->
          dict_get n (node_to_block s') = Some name
          /\ node_to_fragment s' !! n = Some (length (fragments s) - 1)%nat)
    /\ (forall n, ~ In n l ->
          dict_get n (node_to_block s') = dict_get n (node_to_block s)
          /\ node_to_fragment s' !! n = node_to_fragment s !! n).
Proof.
  induction l as [|m l IH]; intros s.
  - exists s. simpl. unfold ret.
    do 4 (split; [reflexivity|]). split; [intros n []|auto].
  - set (s1 := with_node_to_fragment (<[m := (length (fragments s) - 1)%nat]>)
                 (with_node_to_block (dict_set m name) s)).
    destruct (IH s1) as (s' & Hrun & Hf & Hff & Hmm & Hin & Hout).
    exists s'. split; [exact Hrun|].
    split; [exact Hf|]. split; [exact Hff|]. split; [exact Hmm|]. split.
    + intros n Hn. destruct (in_dec Z.eq_dec n l) as [Hl|Hl]; [now apply Hin|].
      destruct Hn as [<-|Hn]; [|contradiction].
      destruct (Hout m Hl) as [H1 H2]. rewrite H1, H2. simpl. split.
      * apply dict_get_set_eq.
      * apply lookup_insert_eq.
    + intros n Hn. destruct (Hout n) as [H1 H2];
        [intros Hl; apply Hn; now right|].
      rewrite H1, H2. simpl. split.
      * apply dict_get_set_ne. intros ->. apply Hn. now left.
      * apply lookup_insert_ne. intros ->. apply Hn. now left.
Qed.

(** ** One fragment (lines 141-149) *)

Lemma match_fragment_ok restart_attr (c : gset node) s s' :
  match_fragment restart_attr c s = (inr tt, s') ->
  exists name,
    (forall n, n ∈ c -> dict_get n restart_attr = Some (VStr name))
    /\ is_Some (blocks (force_field s) !! name)
    /\ fragments s' = fragments s ++ [c]
    /\ force_field s' = force_field s
    /\ meta_molecule s' = meta_molecule s
    /\ (forall n, n ∈ c ->
          dict_get n (node_to_block s') = Some (VStr name)
          /\ node_to_fragment s' !! n = Some (length (fragments s)))
    /\ (forall n, n ∉ c ->
          dict_get n (node_to_block s') = dict_get n (node_to_block s)
          /\ node_to_fragment s' !! n = node_to_fragment s !! n).
Proof.
  unfold match_fragment. rewrite bind_run. unfold lift at 1.
  destruct (head (elements c)) as [first|] eqn:Hhead; simpl of_option;
    cbv beta iota; [|intros Hbad; inversion Hbad].
  rewrite bind_run. unfold lift at 1.
  destruct (dict_get first restart_attr) as [block_name|] eqn:Hfirst;
    simpl of_option; cbv beta iota; [|intros Hbad; inversion Hbad].
  rewrite bind_run. unfold lift at 1.
  destruct (result_map _ (elements c)) as [e|names] eqn:Hnames;
    cbv beta iota; [intros Hbad; inversion Hbad|].
  destruct (forallb _ names) eqn:Hall; [|intros Hbad; inversion Hbad].
  rewrite bind_run. unfold modify at 1. cbv beta iota.
  rewrite bind_run. unfold get at 1. cbv beta iota.
  rewrite bind_run. unfold lift at 1. simpl force_field.
  destruct (blocks_get (force_field s) block_name) as [e|block] eqn:Hblock;
    cbv beta iota; [intros Hbad; inversion Hbad|].
  destruct (fragment_nodes_loop block_name (elements c)
              (with_fragments (fun fs => fs ++ [c]) s))
    as (s2 & Hrun & Hf & Hff & Hmm & Hin & Hout).
  rewrite Hrun. intros [= <-].
  destruct block_name as [z|name|ns es]; simpl in Hblock; try discriminate.
  exists name. simpl in Hf, Hff, Hmm, Hin, Hout.
  assert (Hlen : (length (fragments s ++ [c]) - 1)%nat = length (fragments s))
    by (rewrite length_app; simpl; lia).
  rewrite Hlen in Hin.
  apply result_map_inv in Hnames. rewrite forallb_forall in Hall.
  split; [|split; [|repeat (split; [assumption|]); split]].
  - intros n Hn. apply elem_of_elements, list_elem_of_In in Hn.
    destruct (Forall2_In_left _ _ _ _ Hnames Hn) as (y & Hy & Hny).
    destruct (dict_get n restart_attr) as [v|]; simpl in Hny; [|discriminate].
    injection Hny as <-. f_equal. now apply py_eq_eq, Hall.
  - destruct (blocks (force_field s) !! name); [eauto|discriminate].
  - intros n Hn. apply Hin. now apply list_elem_of_In, elem_of_elements.
  - intros n Hn. apply Hout. intros Hin'. apply Hn.
    now apply elem_of_elements, list_elem_of_In.
Qed.

(** A fragment whose members name one template of the library is
    recorded. *)
Lemma match_fragment_returns restart_attr (c : gset node) name s :
  c <> ∅ ->
  (forall n, n ∈ c -> dict_get n restart_attr = Some (VStr name)) ->
  is_Some (blocks (force_field s) !! name) ->
  exists s', match_fragment restart_attr c s = (inr tt, s').
Proof.
  intros Hne Hall [block Hblock]. unfold match_fragment.
  destruct (elements c) as [|first rest] eqn:Hel.
  { apply elements_empty_inv in Hel. apply leibniz_equiv in Hel. contradiction. }
  assert (Hmem : forall n, In n (first :: rest) ->
                           dict_get n restart_attr = Some (VStr name)).
  { intros n Hn. apply Hall. apply elem_of_elements. rewrite Hel.
    now apply list_elem_of_In. }
  rewrite bind_run. unfold lift at 1. simpl head. simpl of_option. cbv beta iota.
  rewrite bind_run. unfold lift at 1. rewrite (Hmem first) by now left.
  simpl of_option. cbv beta iota.
  destruct (result_map_ok
              (fun n => of_option KeyError (dict_get n restart_attr))
              (first :: rest)) as (names & Hnames & Hin).
  { intros n Hn. rewrite (Hmem n Hn). simpl. eauto. }
  rewrite bind_run. unfold lift at 1. rewrite Hnames. cbv beta iota.
  assert (Hfa : forallb (fun x => py_eq x (VStr name)) names = true).
  { apply forallb_forall. intros y Hy.
    apply result_map_inv in Hnames.
    assert (Hflip : Forall2 (fun y x => of_option KeyError (dict_get x restart_attr)
                                        = inr y) names (first :: rest))
      by (now apply Forall2_flip).
    destruct (Forall2_In_left _ _ _ _ Hflip Hy) as (x & Hx & Hxy).
    rewrite (Hmem x Hx) in Hxy. simpl in Hxy. injection Hxy as <-.
    apply py_eq_refl_str. }
  rewrite Hfa.
  rewrite bind_run. unfold modify at 1. cbv beta iota.
  rewrite bind_run. unfold get at 1. cbv beta iota.
  rewrite bind_run. unfold lift at 1. simpl force_field. simpl blocks_get.
  rewrite Hblock. simpl of_option. cbv beta iota.
  destruct (fragment_nodes_loop (VStr name) (first :: rest)
              (with_fragments (fun fs => fs ++ [c]) s)) as (s2 & Hrun & _).
  exists s2. exact Hrun.
Qed.

(** [match_fragment] raises a KeyError or an IOError, or an IndexError on
    an empty fragment. *)
Lemma match_fragment_raises restart_attr (c : gset node) s e s' :
  c <> ∅ ->
  match_fragment restart_attr c s = (inl e, s') ->
  e = KeyError \/ e = IOError.
Proof.
  intros Hne. unfold match_fragment. rewrite bind_run. unfold lift at 1.
  destruct (head (elements c)) as [first|] eqn:Hhead.
  2:{ destruct (elements c) eqn:Hel; [|discriminate].
      apply elements_empty_inv in Hel. apply leibniz_equiv in Hel. contradiction. }
  simpl of_option. cbv beta iota.
  rewrite bind_run. unfold lift at 1.
  destruct (dict_get first restart_attr) as [block_name|];
    simpl of_option; cbv beta iota; [|intros [= <- _]; now left].
  rewrite bind_run. unfold lift at 1.
  destruct (result_map _ (elements c)) as [e'|names] eqn:Hnames; cbv beta iota.
  { intros [= <- _]. left.
    apply result_map_error in Hnames as (x & _ & Hx).
    destruct (dict_get x restart_attr); simpl in Hx; [discriminate|].
    now injection Hx as <-. }
  destruct (forallb _ names); [|intros [= <- _]; now right].
  rewrite bind_run. unfold modify at 1. cbv beta iota.
  rewrite bind_run. unfold get at 1. cbv beta iota.
  rewrite bind_run. unfold lift at 1. simpl force_field.
  destruct (blocks_get (force_field s) block_name) as [e'|block] eqn:Hblock;
    cbv beta iota.
  { intros [= <- _]. left. destruct block_name; simpl in Hblock;
      try (now injection Hblock as <-).
    destruct (blocks (force_field s) !! s0); simpl in Hblock;
      [discriminate|now injection Hblock as <-]. }
  destruct (fragment_nodes_loop block_name (elements c)
              (with_fragments (fun fs => fs ++ [c]) s)) as (s2 & Hrun & _).
  rewrite Hrun. discriminate.
Qed.

(** ** The components are disjoint *)

Lemma bfs_iter_closed (P : node -> Prop) edges k v :
  (forall e, In e edges -> (P (fst e) <-> P (snd e))) -> P v ->
  forall n, n ∈ Nat.iter k (bfs_step edges) ({[v]} : gset node) -> P n.
Proof.
  intros He Hv. induction k as [|k IH]; simpl; intros n Hn.
  - apply elem_of_singleton in Hn. now subst.
  - apply elem_of_bfs_step in Hn as [Hn|(e & Hin & [[Hs ->]|[Hs ->]])].
    + now apply IH.
    + apply (He e Hin). now apply IH.
    + apply (He e Hin). now apply IH.
Qed.

Lemma pairwise_disjoint_snoc (comps : list (gset node)) c :
  pairwise_disjoint comps ->
  (forall c', In c' comps -> c' ## c) ->
  pairwise_disjoint (comps ++ [c]).
Proof.
  unfold pairwise_disjoint. induction 1 as [|a l Ha Hl IH]; intros Hc; simpl.
  - constructor; constructor.
  - constructor.
    + apply Forall_app. split; [exact Ha|].
      constructor; [|constructor]. apply Hc. now left.
    + apply IH. intros c' Hc'. apply Hc. now right.
Qed.

Lemma connected_components_disjoint_fold g (l : list node) :
  graph_closed g ->
  (forall v, In v l -> In v (dict_keys (g_nodes g))) ->
  forall (st : gset node * list (gset node)),
    (forall n, n ∈ fst st <-> exists c, In c (snd st) /\ n ∈ c) ->
    (forall e, In e (g_edges g) -> (fst e ∈ fst st <-> snd e ∈ fst st)) ->
    pairwise_disjoint (snd st) ->
    pairwise_disjoint
      (snd (fold_left
              (fun (st : gset node * list (gset node)) (v : node) =>
                 if decide (v ∈ fst st) then st
                 else let c := plain_bfs g v in (fst st ∪ c, snd st ++ [c]))
              l st)).
Proof.
  intros Hcl. induction l as [|v l IH]; intros Hl st Hcover Hclosed Hdis; simpl.
  - exact Hdis.
  - assert (Hl' : forall w, In w l -> In w (dict_keys (g_nodes g)))
      by (intros; apply Hl; now right).
    destruct (decide (v ∈ fst st)) as [Hv|Hv]; [now apply IH|].
    assert (Hvn : In v (dict_keys (g_nodes g))) by (apply Hl; now left).
    assert (Hout : forall n, n ∈ plain_bfs g v -> n ∉ fst st).
    { apply (bfs_iter_closed (fun n => n ∉ fst st)); [|exact Hv].
      intros e He. specialize (Hclosed e He). tauto. }
    apply IH; [exact Hl'| | |]; simpl.
    + intros n. rewrite elem_of_union, Hcover. split.
      * intros [(c & Hc & Hn)|Hn].
        -- exists c. rewrite in_app_iff. auto.
        -- exists (plain_bfs g v). rewrite in_app_iff. simpl. auto.
      * intros (c & Hc & Hn). apply in_app_or in Hc as [Hc|[<-|[]]]; eauto.
    + intros e He. rewrite !elem_of_union.
      pose proof (plain_bfs_closed g v Hcl Hvn e He).
      specialize (Hclosed e He). tauto.
    + apply pairwise_disjoint_snoc; [exact Hdis|].
      intros c' Hc' n Hn' Hn. apply (Hout n Hn). apply Hcover. eauto.
Qed.

Lemma connected_components_disjoint g :
  graph_closed g -> pairwise_disjoint (connected_components g).
Proof.
  intros Hcl. unfold connected_components.
  apply connected_components_disjoint_fold; [exact Hcl|tauto|..].
  - simpl. intros n. split; [intros Hn; now apply not_elem_of_empty in Hn|].
    intros (c & [] & _).
  - simpl. intros e _. split; intros Hn; now apply not_elem_of_empty in Hn.
  - constructor.
Qed.

Lemma connected_components_nonempty g c :
  In c (connected_components g) -> c <> ∅.
Proof.
  intros Hc. destruct (connected_components_spec g) as [Hspec _].
  destruct (Hspec c Hc) as (v & _ & ->). intros Hempty.
  assert (Hv : v ∈ plain_bfs g v) by apply bfs_iter_start.
  rewrite Hempty in Hv. now apply not_elem_of_empty in Hv.
Qed.

(** ** The loop over the fragments (lines 140-149) *)

Lemma fragments_loop restart_attr (comps : list (gset node)) :
  forall s s',
    pairwise_disjoint comps ->
    for_ comps (match_fragment restart_attr) s = (inr tt, s') ->
    fragments s' = fragments s ++ comps
    /\ force_field s' = force_field s
    /\ meta_molecule s' = meta_molecule s
    /\ (forall i c, comps !! i = Some c ->
          exists name,
            is_Some (blocks (force_field s) !! name)
            /\ forall n, n ∈ c ->
                 dict_get n restart_attr = Some (VStr name)
                 /\ dict_get n (node_to_block s') = Some (VStr name)
                 /\ node_to_fragment s' !! n = Some (length (fragments s) + i)%nat)
    /\ (forall n, (forall c, In c comps -> n ∉ c) ->
          dict_get n (node_to_block s') = dict_get n (node_to_block s)
          /\ node_to_fragment s' !! n = node_to_fragment s !! n).
Proof.
  induction comps as [|c comps IH]; intros s s' Hdis; simpl.
  - unfold ret. intros [= <-]. rewrite app_nil_r.
    do 3 (split; [reflexivity|]). split; [|auto].
    intros i c Hc. rewrite lookup_nil in Hc. discriminate.
  - rewrite bind_run.
    destruct (match_fragment restart_attr c s) as [[e|[]] s1] eqn:Hfrag;
      [intros Hbad; inversion Hbad|].
    intros Hrest. inversion Hdis as [|? ? Hc Hdis']; subst.
    rewrite Forall_forall in Hc.
    apply match_fragment_ok in Hfrag
      as (name & Hnames & Hblock & Hf1 & Hff1 & Hmm1 & Hin1 & Hout1).
    destruct (IH s1 s' Hdis' Hrest) as (Hf & Hff & Hmm & Hin & Hout).
    split; [rewrite Hf, Hf1, <- app_assoc; reflexivity|].
    split; [congruence|]. split; [congruence|]. split.
    + intros [|i] c' Hc'; simpl in Hc'.
      * injection Hc' as <-. exists name. split; [exact Hblock|].
        intros n Hn. split; [now apply Hnames|].
        destruct (Hout n) as [H1 H2].
        { intros c' Hc' Hn'. apply list_elem_of_In in Hc'.
          apply (Hc c' Hc' n Hn Hn'). }
        rewrite H1, H2, Nat.add_0_r. now apply Hin1.
      * destruct (Hin i c' Hc') as (name' & Hblock' & Hall).
        exists name'. split; [now rewrite <- Hff1|].
        intros n Hn. destruct (Hall n Hn) as (H1 & H2 & H3).
        split; [exact H1|]. split; [exact H2|].
        rewrite H3, Hf1, length_app. simpl. f_equal. lia.
    + intros n Hn. destruct (Hout n) as [H1 H2].
      { intros c' Hc'. apply Hn. now right. }
      destruct (Hout1 n) as [H3 H4]; [apply Hn; now left|].
      split; congruence.
Qed.

(** ** The whole classification when it returns *)

Lemma regular_loop_force_field mm (l : list node) s :
  force_field
    (snd (for_ l (fun n =>
                    bind (lift (of_option KeyError (dict_get n (mm_nodes mm))))
                         (fun a =>
                            bind (lift (of_option KeyError
                                                  (dict_get "resname"%string a)))
                                 (fun resname =>
                                    modify (with_node_to_block (dict_set n resname)))))
               s))
  = force_field s.
Proof.
  apply (keeps_for (fun s' => force_field s' = force_field s)); [|reflexivity].
  intros n _.
  apply keeps_bind; [apply keeps_lift|intros a].
  apply keeps_bind; [apply keeps_lift|intros resname].
  apply keeps_modify. auto.
Qed.

Lemma match_nodes_to_blocks_ok s s' :
  match_nodes_to_blocks s = (inr tt, s') ->
  let mm := meta_molecule s in
  let regular := dict_keys (g_nodes (fst (classified_graphs mm))) in
  let comps := connected_components (snd (classified_graphs mm)) in
  fragments s' = fragments s ++ comps
  /\ (forall n, In n regular -> has_resname mm n)
  /\ (forall i c, comps !! i = Some c ->
        exists name,
          is_Some (blocks (force_field s) !! name)
          /\ forall n, n ∈ c ->
               dict_get n (restart_attr_of mm) = Some (VStr name)
               /\ dict_get n (node_to_block s') = Some (VStr name)
               /\ node_to_fragment s' !! n = Some (length (fragments s) + i)%nat)
  /\ (forall n, (forall c, In c comps -> n ∉ c) ->
        node_to_fragment s' !! n = node_to_fragment s !! n
        /\ (In n regular ->
            exists a resname,
              dict_get n (mm_nodes mm) = Some a
              /\ dict_get "resname"%string a = Some resname
              /\ dict_get n (node_to_block s') = Some resname)
        /\ (~ In n regular ->
            dict_get n (node_to_block s') = dict_get n (node_to_block s))).
Proof.
  intros Hrun mm regular comps.
  rewrite match_nodes_to_blocks_run, bind_run in Hrun.
  fold mm in Hrun. fold regular in Hrun. fold comps in Hrun.
  pose proof (regular_loop_force_field mm regular s) as Hff1.
  match type of Hrun with
  | context [for_ regular ?body s] =>
      change (for_ regular _ s) with (for_ regular body s) in Hff1;
      destruct (for_ regular body s) as [[e|[]] s1] eqn:Hloop
  end; [inversion Hrun|].
  simpl in Hff1.
  apply regular_loop_spec in Hloop as (Hf1 & Hnf1 & Hin1 & Hout1).
  destruct (restart_graph_facts mm) as (Hcl & _ & _).
  apply fragments_loop in Hrun as (Hf & Hff & Hmm & Hin & Hout);
    [|now apply connected_components_disjoint].
  split; [congruence|]. split.
  { intros n Hn. destruct (Hin1 n Hn) as (a & r & Ha & Hr & _).
    exists a, r. auto. }
  split.
  { intros i c Hc. destruct (Hin i c Hc) as (name & Hblock & Hall).
    exists name. split; [now rewrite <- Hff1|].
    intros n Hn. destruct (Hall n Hn) as (H1 & H2 & H3).
    split; [exact H1|]. split; [exact H2|]. now rewrite H3, Hf1. }
  intros n Hn. destruct (Hout n Hn) as [H1 H2].
  split; [congruence|]. split.
  - intros Hreg. destruct (Hin1 n Hreg) as (a & r & Ha & Hr & Hb).
    exists a, r. split; [exact Ha|]. split; [exact Hr|]. congruence.
  - intros Hreg. rewrite H1. now apply Hout1.
Qed.

(** Where an end of a traversed edge lands: in the restart graph when the
    edge joins two [from_itp] nodes, in the regular graph otherwise. *)
Lemma traversed_edge_classified mm e :
  dict_wf (mm_nodes mm) ->
  In e (dfs_edges mm) ->
  (is_Some (from_itp_of mm (fst e)) /\ is_Some (from_itp_of mm (snd e))
   /\ exists c, In c (connected_components (snd (classified_graphs mm)))
                /\ fst e ∈ c /\ snd e ∈ c)
  \/ ((from_itp_of mm (fst e) = None \/ from_itp_of mm (snd e) = None)
      /\ In (fst e) (dict_keys (g_nodes (fst (classified_graphs mm))))
      /\ In (snd e) (dict_keys (g_nodes (fst (classified_graphs mm))))).
Proof.
  intros Hwf He.
  destruct (restart_graph_facts mm) as (Hcl & _ & Hedges).
  destruct (restart_edge (restart_attr_of mm) e) eqn:Hre.
  - left. pose proof Hre as Hre'. unfold restart_edge, dict_mem in Hre'.
    rewrite !restart_attr_lookup in Hre' by exact Hwf.
    destruct (from_itp_of mm (fst e)) as [a|]; [|discriminate].
    destruct (from_itp_of mm (snd e)) as [b|]; [|discriminate].
    split; [eauto|]. split; [eauto|].
    apply connected_components_edge; [exact Hcl|]. apply Hedges. auto.
  - right. split.
    + unfold restart_edge, dict_mem in Hre.
      rewrite !restart_attr_lookup in Hre by exact Hwf.
      destruct (from_itp_of mm (fst e)); [|now left].
      destruct (from_itp_of mm (snd e)); [discriminate|now right].
    + split; apply classify_edges_regular; right; exists e; auto.
Qed.

Lemma not_in_any_dec (comps : list (gset node)) (n : node) :
  (exists i c, comps !! i = Some c /\ n ∈ c) \/ (forall c, In c comps -> n ∉ c).
Proof.
  induction comps as [|c comps IH].
  - right. intros c [].
  - destruct (decide (n ∈ c)) as [Hn|Hn].
    + left. exists 0%nat, c. auto.
    + destruct IH as [(i & c' & Hc' & Hn')|Hnone].
      * left. exists (S i), c'. auto.
      * right. intros c' [<-|Hc']; auto.
Qed.

(** X9: when the classification of a fresh processor returns, the
    bookkeeping of the fragments is consistent: the members of the fragment
    at index [i] all carry the same [from_itp], which names a template of
    the library, their [node_to_block] is that name and their
    [node_to_fragment] is [i]; a node with an entry [i] in
    [node_to_fragment] is a member of the fragment at [i]; and the two ends
    of a traversed edge between [from_itp] nodes are in one fragment. *)
Theorem match_nodes_to_blocks_fragments ff mm s :
  dict_wf (mm_nodes mm) ->
  match_nodes_to_blocks (init_state ff mm) = (inr tt, s) ->
  (forall i c, fragments s !! i = Some c ->
     exists name,
       is_Some (blocks ff !! name)
       /\ forall n, n ∈ c ->
            from_itp_of mm n = Some (VStr name)
            /\ dict_get n (node_to_block s) = Some (VStr name)
            /\ node_to_fragment s !! n = Some i)
  /\ (forall n i, node_to_fragment s !! n = Some i ->
        exists c, fragments s !! i = Some c /\ n ∈ c)
  /\ (forall e, traversed_restart_edge mm e ->
        exists i c, fragments s !! i = Some c /\ fst e ∈ c /\ snd e ∈ c).
Proof.
  intros Hwf Hrun.
  destruct (match_nodes_to_blocks_ok _ _ Hrun) as (Hf & _ & Hin & Hout).
  simpl in Hf, Hin, Hout. split; [|split].
  - intros i c Hc. rewrite Hf in Hc.
    destruct (Hin i c Hc) as (name & Hblock & Hall).
    exists name. split; [exact Hblock|]. intros n Hn.
    destruct (Hall n Hn) as (H1 & H2 & H3).
    rewrite restart_attr_lookup in H1 by exact Hwf. auto.
  - intros n i Hi.
    destruct (not_in_any_dec
                (connected_components (snd (classified_graphs mm))) n)
      as [(j & c & Hc & Hn)|Hnone].
    + destruct (Hin j c Hc) as (name & _ & Hall).
      destruct (Hall n Hn) as (_ & _ & Hj). simpl in Hj.
      assert (i = j) as -> by congruence.
      exists c. rewrite Hf. auto.
    + destruct (Hout n Hnone) as [Hnf _]. rewrite Hnf in Hi.
      rewrite lookup_empty in Hi. discriminate.
  - intros e (He & Hu & Hv).
    destruct (traversed_edge_classified mm e Hwf He)
      as [(_ & _ & c & Hc & Hcu & Hcv)|([Hnone|Hnone] & _)].
    + apply list_elem_of_In, list_elem_of_lookup_1 in Hc as [i Hi].
      exists i, c. rewrite Hf. auto.
    + rewrite Hnone in Hu. destruct Hu; discriminate.
    + rewrite Hnone in Hv. destruct Hv; discriminate.
Qed.

Lemma match_nodes_to_blocks_fragments_witness :
  (forall i c, fragments classified_two_fragments !! i = Some c ->
     exists name,
       is_Some (blocks ff_fragments !! name)
       /\ forall n, n ∈ c ->
            from_itp_of meta_two_fragments n = Some (VStr name)
            /\ dict_get n (node_to_block classified_two_fragments)
               = Some (VStr name)
            /\ node_to_fragment classified_two_fragments !! n = Some i)
  /\ (forall n i, node_to_fragment classified_two_fragments !! n = Some i ->
        exists c, fragments classified_two_fragments !! i = Some c /\ n ∈ c)
  /\ (forall e, traversed_restart_edge meta_two_fragments e ->
        exists i c, fragments classified_two_fragments !! i = Some c
                    /\ fst e ∈ c /\ snd e ∈ c).
Proof.
  apply (match_nodes_to_blocks_fragments ff_fragments meta_two_fragments).
  - unfold dict_wf. simpl. nodup_small.
  - vm_compute. reflexivity.
Defined.

(** X10: when the classification of a fresh processor returns, a node that
    is in no fragment has no entry in [node_to_fragment]; its
    [node_to_block] is its [resname] if it is an end of a traversed edge
    (also when it carries [from_itp] but none of its traversed edges leads
    to another [from_itp] node), and it has no [node_to_block] entry
    otherwise. *)
Theorem match_nodes_to_blocks_regular ff mm s n :
  dict_wf (mm_nodes mm) ->
  match_nodes_to_blocks (init_state ff mm) = (inr tt, s) ->
  (forall c, In c (fragments s) -> n ∉ c) ->
  node_to_fragment s !! n = None
  /\ (traversed_node mm n ->
      exists a resname,
        dict_get n (mm_nodes mm) = Some a
        /\ dict_get "resname"%string a = Some resname
        /\ dict_get n (node_to_block s) = Some resname)
  /\ (~ traversed_node mm n -> dict_get n (node_to_block s) = None).
Proof.
  intros Hwf Hrun Hnone.
  destruct (match_nodes_to_blocks_ok _ _ Hrun) as (Hf & _ & _ & Hout).
  simpl in Hf, Hout. rewrite Hf in Hnone.
  destruct (Hout n Hnone) as (Hnf & Hreg & Hnot).
  split; [exact Hnf|]. split.
  - intros (e & He & Hn). apply Hreg.
    destruct (traversed_edge_classified mm e Hwf He)
      as [(_ & _ & c & Hc & Hcu & Hcv)|(_ & Hu & Hv)].
    + exfalso. apply (Hnone c Hc). now destruct Hn as [->| ->].
    + now destruct Hn as [->| ->].
  - intros Hn. apply Hnot. intros Hreg'. apply Hn.
    destruct (classified_graphs_traversed mm) as [[Hsup _] _]. now apply Hsup.
Qed.

Lemma match_nodes_to_blocks_regular_witness :
  node_to_fragment classified_two_fragments !! 2 = None
  /\ (traversed_node meta_two_fragments 2 ->
      exists a resname,
        dict_get 2 (mm_nodes meta_two_fragments) = Some a
        /\ dict_get "resname"%string a = Some resname
        /\ dict_get 2 (node_to_block classified_two_fragments) = Some resname)
  /\ (~ traversed_node meta_two_fragments 2 ->
      dict_get 2 (node_to_block classified_two_fragments) = None).
Proof.
  apply (match_nodes_to_blocks_regular ff_fragments meta_two_fragments).
  - unfold dict_wf. simpl. nodup_small.
  - vm_compute. reflexivity.
  - intros c Hc.
    assert (Hall : Forall (fun c : gset node => 2 ∉ c)
                          (fragments classified_two_fragments)).
    { apply (bool_decide_unpack _). vm_compute. reflexivity. }
    rewrite Forall_forall in Hall. apply Hall. apply list_elem_of_In. exact Hc.
Defined.

(** ** When the classification returns *)

Lemma for_error {A} (l : list A) (body : A -> M unit) :
  forall s e s',
    for_ l body s = (inl e, s') ->
    exists x s1 s2, In x l /\ body x s1 = (inl e, s2).
Proof.
  induction l as [|x l IH]; intros s e s'; simpl.
  - unfold ret. intros Hbad. inversion Hbad.
  - rewrite bind_run. destruct (body x s) as [[e'|[]] s1] eqn:Hx.
    + intros [= <- <-]. exists x, s, s1. auto.
    + intros Hrest. destruct (IH _ _ _ Hrest) as (y & s2 & s3 & Hy & Hrun).
      exists y, s2, s3. auto.
Qed.

Lemma regular_loop_returns mm (l : list node) :
  (forall n, In n l -> has_resname mm n) ->
  forall s,
  exists s',
    for_ l (fun n =>
              bind (lift (of_option KeyError (dict_get n (mm_nodes mm))))
                   (fun a =>
                      bind (lift (of_option KeyError (dict_get "resname"%string a)))
                           (fun resname =>
                              modify (with_node_to_block (dict_set n resname)))))
         s = (inr tt, s').
Proof.
  induction l as [|n l IH]; intros Hall s; simpl.
  - exists s. reflexivity.
  - destruct (Hall n (or_introl eq_refl)) as (a & r & Ha & Hr).
    rewrite bind_run. unfold bind at 1, lift at 1. rewrite Ha. simpl.
    unfold bind at 1, lift at 1. rewrite Hr. simpl. unfold modify at 1.
    apply IH. intros m Hm. apply Hall. now right.
Qed.

Lemma regular_loop_raises mm (l : list node) s e s' :
  for_ l (fun n =>
            bind (lift (of_option KeyError (dict_get n (mm_nodes mm))))
                 (fun a =>
                    bind (lift (of_option KeyError (dict_get "resname"%string a)))
                         (fun resname =>
                            modify (with_node_to_block (dict_set n resname)))))
       s = (inl e, s') ->
  e = KeyError.
Proof.
  intros Hrun. apply for_error in Hrun as (n & s1 & s2 & _ & Hbody).
  revert Hbody. unfold bind, lift, modify.
  destruct (dict_get n (mm_nodes mm)) as [a|]; simpl; [|now intros [= <- _]].
  destruct (dict_get "resname"%string a); simpl; [discriminate|now intros [= <- _]].
Qed.

Lemma fragments_loop_returns restart_attr ff (comps : list (gset node)) :
  (forall c, In c comps ->
     c <> ∅
     /\ exists name, is_Some (blocks ff !! name)
          /\ forall n, n ∈ c -> dict_get n restart_attr = Some (VStr name)) ->
  forall s, force_field s = ff ->
  exists s', for_ comps (match_fragment restart_attr) s = (inr tt, s').
Proof.
  induction comps as [|c comps IH]; intros Hall s Hff; simpl.
  - exists s. reflexivity.
  - destruct (Hall c (or_introl eq_refl)) as (Hne & name & Hblock & Hnames).
    destruct (match_fragment_returns restart_attr c name s Hne Hnames)
      as [s1 Hrun]; [now rewrite Hff|].
    rewrite bind_run, Hrun.
    apply IH; [intros c' Hc'; apply Hall; now right|].
    apply match_fragment_ok in Hrun as (name' & _ & _ & _ & Hff1 & _).
    congruence.
Qed.

Lemma classify_edges_restart_support (Q : node -> Prop) restart_attr edges :
  (forall e, In e edges -> restart_edge restart_attr e = true ->
             Q (fst e) /\ Q (snd e)) ->
  forall graphs,
    graph_support Q (snd graphs) ->
    graph_support Q (snd (fold_left (classify_edge restart_attr) edges graphs)).
Proof.
  induction edges as [|[u v] edges IH]; intros Hall graphs Hsup; simpl;
    [exact Hsup|].
  apply IH; [intros e He; apply Hall; now right|].
  assert (Hce : classify_edge restart_attr graphs (u, v)
                = if restart_edge restart_attr (u, v)
                  then (fst graphs, add_edge u v (snd graphs))
                  else (add_edge u v (fst graphs), snd graphs)) by reflexivity.
  rewrite Hce.
  destruct (restart_edge restart_attr (u, v)) eqn:Hr; cbn [fst snd];
    [|exact Hsup].
  destruct (Hall (u, v) (or_introl eq_refl) Hr) as [Hu Hv].
  now apply add_edge_support.
Qed.

Lemma restart_edge_from_itp mm e :
  dict_wf (mm_nodes mm) ->
  restart_edge (restart_attr_of mm) e = true
  <-> is_Some (from_itp_of mm (fst e)) /\ is_Some (from_itp_of mm (snd e)).
Proof.
  intros Hwf. unfold restart_edge, dict_mem.
  rewrite !restart_attr_lookup by exact Hwf.
  destruct (from_itp_of mm (fst e)) as [a|], (from_itp_of mm (snd e)) as [b|];
    simpl.
  - split; [intros _; split; eexists; reflexivity|reflexivity].
  - split; [discriminate|]. intros [_ [x Hx]]. discriminate.
  - split; [discriminate|]. intros [[x Hx] _]. discriminate.
  - split; [discriminate|]. intros [[x Hx] _]. discriminate.
Qed.

Lemma classifiable_restart_edge ff mm e :
  dict_wf (mm_nodes mm) -> classifiable ff mm ->
  In e (dfs_edges mm) -> restart_edge (restart_attr_of mm) e = true ->
  exists name,
    dict_get (fst e) (restart_attr_of mm) = Some (VStr name)
    /\ dict_get (snd e) (restart_attr_of mm) = Some (VStr name)
    /\ is_Some (blocks ff !! name).
Proof.
  intros Hwf Hcl He Hre.
  apply (proj1 (restart_edge_from_itp mm e Hwf)) in Hre.
  destruct Hre as [[a Ha] [b Hb]].
  specialize (Hcl e He). rewrite Ha, Hb in Hcl.
  destruct Hcl as (name & -> & -> & Hblock).
  exists name. rewrite !restart_attr_lookup by exact Hwf. auto.
Qed.

Lemma classifiable_regular_edge ff mm e :
  dict_wf (mm_nodes mm) -> classifiable ff mm ->
  In e (dfs_edges mm) -> restart_edge (restart_attr_of mm) e = false ->
  has_resname mm (fst e) /\ has_resname mm (snd e).
Proof.
  intros Hwf Hcl He Hre. specialize (Hcl e He).
  unfold restart_edge, dict_mem in Hre.
  rewrite !restart_attr_lookup in Hre by exact Hwf.
  destruct (from_itp_of mm (fst e)); [|exact Hcl].
  destruct (from_itp_of mm (snd e)); [discriminate|exact Hcl].
Qed.

Lemma component_names ff mm c :
  dict_wf (mm_nodes mm) -> classifiable ff mm ->
  In c (connected_components (snd (classified_graphs mm))) ->
  c <> ∅
  /\ exists name,
       is_Some (blocks ff !! name)
       /\ forall n, n ∈ c -> dict_get n (restart_attr_of mm) = Some (VStr name).
Proof.
  intros Hwf Hcl Hc. split; [eapply connected_components_nonempty, Hc|].
  destruct (restart_graph_facts mm) as (Hclosed & _ & Hedges).
  assert (Hsup : graph_support
            (fun n => exists name,
                        dict_get n (restart_attr_of mm) = Some (VStr name)
                        /\ is_Some (blocks ff !! name))
            (snd (classified_graphs mm))).
  { unfold classified_graphs. apply classify_edges_restart_support.
    - intros e He Hre.
      destruct (classifiable_restart_edge ff mm e Hwf Hcl He Hre)
        as (name & H1 & H2 & H3).
      split; exists name; auto.
    - split; [intros n []|intros e []]. }
  destruct (connected_components_spec (snd (classified_graphs mm))) as [Hspec _].
  destruct (Hspec c Hc) as (v & Hv & ->).
  destruct Hsup as [Hnodes _]. destruct (Hnodes v Hv) as (name & Hname & Hblock).
  exists name. split; [exact Hblock|]. unfold plain_bfs.
  apply (bfs_iter_closed
           (fun n => dict_get n (restart_attr_of mm) = Some (VStr name)));
    [|exact Hname].
  intros e He. apply Hedges in He as [He Hre].
  destruct (classifiable_restart_edge ff mm e Hwf Hcl He Hre)
    as (name' & H1 & H2 & _).
  rewrite H1, H2. tauto.
Qed.

(** X11: [match_nodes_to_blocks] returns exactly when both ends of every
    traversed edge between two [from_itp] nodes name one template, that
    template is in the library, and the ends of every other traversed edge
    have a [resname]; when it raises, the exception is a KeyError or an
    IOError. *)
Theorem match_nodes_to_blocks_returns_iff s :
  dict_wf (mm_nodes (meta_molecule s)) ->
  ((exists s', match_nodes_to_blocks s = (inr tt, s'))
   <-> classifiable (force_field s) (meta_molecule s))
  /\ (forall e s', match_nodes_to_blocks s = (inl e, s') ->
                   e = KeyError \/ e = IOError).
Proof.
  intros Hwf. set (mm := meta_molecule s) in *. split; [split|].
  - intros [s' Hrun].
    destruct (match_nodes_to_blocks_ok _ _ Hrun) as (_ & Hreg & Hin & _).
    fold mm in Hreg, Hin. intros e He.
    destruct (traversed_edge_classified mm e Hwf He)
      as [([a Ha] & [b Hb] & c & Hc & Hcu & Hcv)|(Hnone & Hu & Hv)].
    + rewrite Ha, Hb.
      apply list_elem_of_In, list_elem_of_lookup_1 in Hc as [i Hi].
      destruct (Hin i c Hi) as (name & Hblock & Hall).
      destruct (Hall _ Hcu) as (H1 & _). destruct (Hall _ Hcv) as (H2 & _).
      rewrite restart_attr_lookup in H1, H2 by exact Hwf.
      exists name. split; [congruence|]. split; [congruence|exact Hblock].
    + assert (Hres : has_resname mm (fst e) /\ has_resname mm (snd e))
        by (split; auto).
      destruct Hnone as [Hnone|Hnone]; rewrite Hnone; [exact Hres|].
      destruct (from_itp_of mm (fst e)); exact Hres.
  - intros Hcl. rewrite match_nodes_to_blocks_run, bind_run. fold mm.
    destruct (regular_loop_returns
                mm (dict_keys (g_nodes (fst (classified_graphs mm))))) with s
      as [s1 Hloop].
    { intros n Hn. apply classify_edges_regular in Hn
        as [[]|(e & He & Hre & Hn)].
      destruct (classifiable_regular_edge _ mm e Hwf Hcl He Hre) as [Hu Hv].
      now destruct Hn as [->| ->]. }
    pose proof (regular_loop_force_field
                  mm (dict_keys (g_nodes (fst (classified_graphs mm)))) s) as Hff.
    rewrite Hloop in Hff. simpl in Hff. rewrite Hloop.
    apply (fragments_loop_returns _ (force_field s)); [|exact Hff].
    intros c Hc. now apply component_names.
  - intros e s'. rewrite match_nodes_to_blocks_run, bind_run. fold mm.
    match goal with
    | |- context [for_ ?l ?body s] =>
        destruct (for_ l body s) as [[e1|[]] s1] eqn:Hloop
    end.
    + intros [= <- _]. left. eapply regular_loop_raises, Hloop.
    + intros Hrun. apply for_error in Hrun as (c & s2 & s3 & Hc & Hfrag).
      eapply match_fragment_raises, Hfrag.
      eapply connected_components_nonempty, Hc.
Qed.

Lemma match_nodes_to_blocks_returns_iff_witness :
  ((exists s', match_nodes_to_blocks (init_state ff_fragments meta_two_fragments)
               = (inr tt, s'))
   <-> classifiable ff_fragments meta_two_fragments)
  /\ (forall e s',
        match_nodes_to_blocks (init_state ff_fragments meta_two_fragments)
        = (inl e, s') -> e = KeyError \/ e = IOError).
Proof.
  apply (match_nodes_to_blocks_returns_iff
           (init_state ff_fragments meta_two_fragments)).
  unfold dict_wf. simpl. nodup_small.
Defined.

(** ** What add_blocks leaves alone *)

Lemma keeps_set_graph (I : State -> Prop) n g :
  (forall s a, I s -> dict_get n (mm_nodes (meta_molecule s)) = Some a ->
               I (with_graph n g a s)) ->
  keeps I (set_graph n g).
Proof.
  intros H s Hs. rewrite set_graph_run.
  destruct (dict_get n (mm_nodes (meta_molecule s))) as [a|] eqn:Ha; simpl;
    [|exact Hs].
  now apply H.
Qed.

Lemma keeps_has_from_itp (I : State -> Prop) n : keeps I (has_from_itp n).
Proof.
  intros s Hs. rewrite has_from_itp_run.
  now destruct (dict_get n (mm_nodes (meta_molecule s))).
Qed.

Lemma keeps_mark_fragment_added (I : State -> Prop) n :
  (forall s l, I s -> I (with_added_fragment_nodes (fun x => x ++ l) s)) ->
  keeps I (mark_fragment_added n).
Proof.
  intros H s Hs. rewrite mark_fragment_added_run.
  destruct (node_to_fragment s !! n) as [fid|]; [|exact Hs].
  destruct (fragments s !! fid) as [c|]; [|exact Hs].
  simpl. now apply H.
Qed.

Section AddBlocksKeeps.
Variable V : Vermouth.
Variable I : State -> Prop.
Hypothesis Hgraph :
  forall s n g a, I s -> dict_get n (mm_nodes (meta_molecule s)) = Some a ->
                  I (with_graph n g a s).
Hypothesis Hadded :
  forall s l, I s -> I (with_added_fragment_nodes (fun x => x ++ l) s).
Hypothesis Hcorr :
  forall s c, I s -> I (with_multiblock_correspondence (fun x => x ++ [c]) s).

Lemma add_block_keeps start_node n mol : keeps I (add_block V start_node n mol).
Proof.
  unfold add_block.
  apply keeps_bind; [apply keeps_get|intros s0].
  apply keeps_bind.
  { destruct (bool_decide (n ∈ added_fragment_nodes s0)).
    - apply keeps_bind; [apply keeps_lift|intros fid].
      apply keeps_bind; [apply keeps_lift|intros c]. apply keeps_ret.
    - apply keeps_bind; [apply keeps_lift|intros name].
      apply keeps_bind; [apply keeps_lift|intros b]. apply keeps_lift. }
  intros mc. cbv zeta.
  apply keeps_bind.
  { unfold residue_of. apply keeps_bind; [apply keeps_get|intros s1].
    apply keeps_lift. }
  intros residue.
  apply keeps_bind; [apply keeps_set_graph; auto|intros _].
  apply keeps_bind; [apply keeps_has_from_itp|intros restart].
  apply keeps_bind; [apply keeps_get|intros s1].
  apply keeps_bind; [|intros _; apply keeps_ret].
  destruct (restart && negb (bool_decide (n ∈ added_fragments s1)));
    [|apply keeps_ret].
  apply keeps_bind; [apply keeps_mark_fragment_added; auto|intros _].
  apply keeps_modify. auto.
Qed.

Lemma add_blocks_keeps : keeps I (add_blocks V).
Proof.
  unfold add_blocks.
  apply keeps_bind; [apply keeps_get|intros s0].
  apply keeps_bind; [apply keeps_lift|intros node_keys].
  apply keeps_bind; [apply keeps_lift|intros start_node].
  apply keeps_bind; [apply keeps_lift|intros name].
  apply keeps_bind; [apply keeps_lift|intros block].
  cbv zeta.
  apply keeps_bind; [apply keeps_has_from_itp|intros restart].
  apply keeps_bind.
  { destruct restart.
    - apply keeps_bind; [apply keeps_mark_fragment_added; auto|intros _].
      apply keeps_bind; [apply keeps_modify; auto|intros _].
      apply keeps_bind.
      + unfold residue_of. apply keeps_bind; [apply keeps_get|intros s1].
        apply keeps_lift.
      + intros residue. apply keeps_set_graph; auto.
    - apply keeps_set_graph; auto. }
  intros _. apply keeps_for_acc. intros n mol _. apply add_block_keeps.
Qed.
End AddBlocksKeeps.

Lemma node_attr_with_graph mm n g a m k :
  dict_get n (mm_nodes mm) = Some a ->
  k <> "graph"%string ->
  node_attr (mkMeta (dict_set n (dict_set "graph"%string g a) (mm_nodes mm))
                    (mm_edges mm) (molecule mm)) m k
  = node_attr mm m k.
Proof.
  intros Ha Hk. unfold node_attr. simpl.
  destruct (decide (n = m)) as [<-|Hne].
  - rewrite dict_get_set_eq, Ha. apply dict_get_set_ne. congruence.
  - now rewrite dict_get_set_ne.
Qed.

Lemma same_but_graph_refl mm : same_but_graph mm mm.
Proof. repeat split. Qed.

Lemma same_but_graph_with_graph mm0 mm n g a :
  dict_get n (mm_nodes mm) = Some a ->
  same_but_graph mm0 mm ->
  same_but_graph mm0 (mkMeta (dict_set n (dict_set "graph"%string g a) (mm_nodes mm))
                             (mm_edges mm) (molecule mm)).
Proof.
  intros Ha (H1 & H2 & H3). split; [exact H1|]. split.
  - simpl. rewrite dict_keys_set. unfold dict_mem. now rewrite Ha.
  - intros m k Hk. rewrite node_attr_with_graph by assumption. now apply H3.
Qed.

(** X12: whether it returns or raises, [add_blocks] does not touch
    [node_to_block], [node_to_fragment], [fragments], [added_fragments] or
    the force field; it only appends to [added_fragment_nodes] and
    [multiblock_correspondence]; and in the meta-molecule it changes nothing
    but the [graph] attribute of nodes: the nodes, their order and their
    other attributes, the edges and the [molecule] are as before. *)
Theorem add_blocks_frame V s :
  let s' := snd (add_blocks V s) in
  node_to_block s' = node_to_block s
  /\ node_to_fragment s' = node_to_fragment s
  /\ fragments s' = fragments s
  /\ added_fragments s' = added_fragments s
  /\ force_field s' = force_field s
  /\ molecule (meta_molecule s') = molecule (meta_molecule s)
  /\ same_but_graph (meta_molecule s) (meta_molecule s')
  /\ (exists l, added_fragment_nodes s' = added_fragment_nodes s ++ l)
  /\ (exists l, multiblock_correspondence s'
                = multiblock_correspondence s ++ l).
Proof.
  apply (add_blocks_keeps V
           (fun s' =>
              node_to_block s' = node_to_block s
              /\ node_to_fragment s' = node_to_fragment s
              /\ fragments s' = fragments s
              /\ added_fragments s' = added_fragments s
              /\ force_field s' = force_field s
              /\ molecule (meta_molecule s') = molecule (meta_molecule s)
              /\ same_but_graph (meta_molecule s) (meta_molecule s')
              /\ (exists l, added_fragment_nodes s' = added_fragment_nodes s ++ l)
              /\ (exists l, multiblock_correspondence s'
                            = multiblock_correspondence s ++ l))).
  - intros s0 n g a (H1 & H2 & H3 & H4 & H5 & H6 & H7 & H8 & H9) Ha.
    do 5 (split; [assumption|]). split; [exact H6|].
    split; [|split; assumption].
    simpl. now apply same_but_graph_with_graph.
  - intros s0 l (H1 & H2 & H3 & H4 & H5 & H6 & H7 & [l0 H8] & H9).
    do 7 (split; [assumption|]). split; [|exact H9].
    exists (l0 ++ l). simpl. rewrite H8. now rewrite app_assoc.
  - intros s0 c (H1 & H2 & H3 & H4 & H5 & H6 & H7 & H8 & [l0 H9]).
    do 8 (split; [assumption|]).
    exists (l0 ++ [c]). simpl. rewrite H9. now rewrite app_assoc.
  - do 6 (split; [reflexivity|]). split; [apply same_but_graph_refl|].
    split; exists []; now rewrite app_nil_r.
Qed.

(** ** add_blocks on plain residues *)

Lemma bind_lift_run {A B} (r : result A) (k : A -> M B) s :
  bind (lift r) k s = match r with
                      | inl e => (inl e, s)
                      | inr a => k a s
                      end.
Proof. now destruct r. Qed.

Lemma from_itp_of_with_graph mm n g a m :
  dict_get n (mm_nodes mm) = Some a ->
  from_itp_of (mkMeta (dict_set n (dict_set "graph"%string g a) (mm_nodes mm))
                      (mm_edges mm) (molecule mm)) m
  = from_itp_of mm m.
Proof.
  intros Ha.
  apply (node_attr_with_graph mm n g a m "from_itp"%string Ha). discriminate.
Qed.

Lemma add_block_plain V start_node n mol s mol' s' :
  added_fragment_nodes s = [] ->
  from_itp_of (meta_molecule s) n = None ->
  add_block V start_node n mol s = (inr mol', s') ->
  exists b c g a,
    block_of s n = inr b
    /\ merge_molecule V mol b = inr (mol', c)
    /\ dict_get n (mm_nodes (meta_molecule s)) = Some a
    /\ s' = with_graph n g a s.
Proof.
  intros Hnodes Hitp.
  unfold add_block. rewrite bind_run. unfold get at 1. cbv beta iota.
  rewrite Hnodes.
  replace (bool_decide (n ∈ @nil node)) with false
    by (symmetry; apply bool_decide_eq_false; apply not_elem_of_nil).
  rewrite bind_run, bind_lift_run. unfold block_of.
  destruct (dict_get n (node_to_block s)) as [name|]; simpl of_option;
    cbv beta iota; [|intros Hbad; inversion Hbad].
  rewrite bind_lift_run.
  destruct (blocks_get (force_field s) name) as [e|b];
    [intros Hbad; inversion Hbad|].
  unfold lift at 1.
  destruct (merge_molecule V mol b) as [e|[mol1 c]] eqn:Hm;
    [intros Hbad; inversion Hbad|].
  cbv zeta. cbn [fst snd].
  rewrite bind_run, residue_of_run.
  destruct (_correspondence_to_residue (meta_molecule s) mol1 c n)
    as [e|residue]; [intros Hbad; inversion Hbad|].
  rewrite bind_run, set_graph_run.
  destruct (dict_get n (mm_nodes (meta_molecule s))) as [a|] eqn:Ha;
    [|intros Hbad; inversion Hbad].
  rewrite bind_run, has_from_itp_run. simpl meta_molecule. simpl mm_nodes.
  rewrite dict_get_set_eq.
  rewrite dict_mem_set_ne by discriminate.
  unfold from_itp_of in Hitp. rewrite Ha in Hitp.
  unfold dict_mem at 1. rewrite Hitp.
  rewrite bind_run. unfold get at 1. cbv beta iota.
  simpl andb. cbv iota. rewrite bind_run. unfold ret.
  intros [= <- <-].
  exists b, c, (graph_value residue), a. repeat split. exact Hm.
Qed.

Lemma add_blocks_loop_plain V start_node rest :
  forall mol s mol' s',
    added_fragment_nodes s = [] ->
    (forall n, In n rest -> from_itp_of (meta_molecule s) n = None) ->
    for_acc rest (add_block V start_node) mol s = (inr mol', s') ->
    exists bs,
      result_map (block_of s) rest = inr bs
      /\ merge_all V mol bs = inr mol'
      /\ added_fragment_nodes s' = []
      /\ multiblock_correspondence s' = multiblock_correspondence s.
Proof.
  induction rest as [|n rest IH]; intros mol s mol' s' Hnodes Hitp; simpl.
  - unfold ret. intros [= <- <-]. exists []. auto.
  - rewrite bind_run.
    destruct (add_block V start_node n mol s) as [[e|mol1] s1] eqn:Hstep;
      [intros Hbad; inversion Hbad|].
    apply add_block_plain in Hstep as (b & c & g & a & Hb & Hm & Ha & ->);
      [|exact Hnodes|apply Hitp; now left].
    intros Hrest. apply IH in Hrest as (bs & Hbs & Hmerge & Hn' & Hc').
    + change (block_of (with_graph n g a s)) with (block_of s) in Hbs.
      exists (b :: bs). rewrite Hb, Hbs. simpl. rewrite Hm. simpl.
      auto.
    + exact Hnodes.
    + intros m Hm'. simpl. rewrite from_itp_of_with_graph by exact Ha.
      apply Hitp. now right.
Qed.

(** X13: on plain residues (no node of the order carries [from_itp], no
    fragment has been added), a run of [add_blocks] that returns has
    instantiated the template of the first node and merged the templates of
    the other nodes into it one after the other, in the order of [resid];
    it has recorded no fragment and no correspondence. *)
Theorem add_blocks_plain_chain V s mol s' start_node rest :
  node_order (meta_molecule s) = inr (start_node :: rest) ->
  (forall n, In n (start_node :: rest) ->
             from_itp_of (meta_molecule s) n = None) ->
  added_fragment_nodes s = [] ->
  add_blocks V s = (inr mol, s') ->
  exists b0 bs,
    block_of s start_node = inr b0
    /\ result_map (block_of s) rest = inr bs
    /\ merge_all V (to_molecule V b0) bs = inr mol
    /\ added_fragment_nodes s' = []
    /\ multiblock_correspondence s' = multiblock_correspondence s.
Proof.
  intros Horder Hitp Hnodes.
  unfold add_blocks. rewrite bind_run. unfold get at 1. cbv beta iota.
  rewrite bind_lift_run, Horder. rewrite bind_lift_run. simpl head.
  simpl of_option. cbv beta iota. rewrite bind_lift_run. unfold block_of.
  destruct (dict_get start_node (node_to_block s)) as [name|]; simpl of_option;
    cbv beta iota; [|intros Hbad; inversion Hbad].
  rewrite bind_lift_run.
  destruct (blocks_get (force_field s) name) as [e|b0];
    [intros Hbad; inversion Hbad|].
  cbv zeta. rewrite bind_run, has_from_itp_run.
  destruct (dict_get start_node (mm_nodes (meta_molecule s))) as [a|] eqn:Ha;
    [|intros Hbad; inversion Hbad].
  pose proof (Hitp start_node (or_introl eq_refl)) as Hstart.
  unfold from_itp_of in Hstart. rewrite Ha in Hstart.
  unfold dict_mem at 1. rewrite Hstart.
  rewrite bind_run, set_graph_run, Ha. simpl tail.
  intros Hloop. apply add_blocks_loop_plain in Hloop
    as (bs & Hbs & Hmerge & Hn' & Hc').
  - exists b0, bs. auto.
  - exact Hnodes.
  - intros m Hm. simpl. rewrite from_itp_of_with_graph by exact Ha.
    apply Hitp. now right.
Qed.

Lemma add_blocks_plain_chain_witness :
  exists mol,
    fst (add_blocks vermouth_model classified_plain_chain) = inr mol
    /\ exists b0 bs,
         block_of classified_plain_chain 0 = inr b0
         /\ result_map (block_of classified_plain_chain) [1; 2] = inr bs
         /\ merge_all vermouth_model (to_molecule vermouth_model b0) bs = inr mol
         /\ added_fragment_nodes
              (snd (add_blocks vermouth_model classified_plain_chain)) = []
         /\ multiblock_correspondence
              (snd (add_blocks vermouth_model classified_plain_chain))
            = multiblock_correspondence classified_plain_chain.
Proof.
  eexists. split; [vm_compute; reflexivity|].
  apply (add_blocks_plain_chain
           vermouth_model classified_plain_chain _
           (snd (add_blocks vermouth_model classified_plain_chain)) 0 [1; 2]).
  - vm_compute. reflexivity.
  - intros n [<-|[<-|[<-|[]]]]; vm_compute; reflexivity.
  - vm_compute. reflexivity.
  - vm_compute. reflexivity.
Defined.

(** ** A node without an entry stops add_blocks *)

Lemma for_acc_raises {A B} (J : State -> Prop) (l : list A)
      (body : A -> B -> M B) x :
  In x l ->
  (forall y acc, keeps J (body y acc)) ->
  (forall acc s, J s -> exists e s', body x acc s = (inl e, s')) ->
  forall acc s, J s -> exists e s', for_acc l body acc s = (inl e, s').
Proof.
  intros Hin Hkeep Hx. induction l as [|y l IH]; intros acc s Hs;
    [destruct Hin|].
  simpl. rewrite bind_run.
  pose proof (Hkeep y acc s Hs) as Hs1.
  destruct (body y acc s) as [[e|b] s1] eqn:Hy; [eauto|].
  destruct Hin as [->|Hin].
  - destruct (Hx acc s Hs) as (e & s' & He). rewrite Hy in He. inversion He.
  - apply IH; assumption.
Qed.

Lemma add_block_missing_entry V start_node n mol s :
  dict_get n (node_to_block s) = None ->
  node_to_fragment s !! n = None ->
  add_block V start_node n mol s = (inl KeyError, s).
Proof.
  intros Hblock Hfrag.
  unfold add_block. rewrite bind_run. unfold get at 1. cbv beta iota.
  rewrite bind_run.
  destruct (bool_decide (n ∈ added_fragment_nodes s)).
  - rewrite bind_lift_run, Hfrag. reflexivity.
  - rewrite bind_lift_run, Hblock. reflexivity.
Qed.

Lemma add_blocks_missing_entry V s n :
  (forall order, node_order (meta_molecule s) = inr order -> In n order) ->
  dict_get n (node_to_block s) = None ->
  node_to_fragment s !! n = None ->
  exists e s', add_blocks V s = (inl e, s').
Proof.
  intros Horder Hblock Hfrag.
  unfold add_blocks. rewrite bind_run. unfold get at 1. cbv beta iota.
  rewrite bind_lift_run.
  destruct (node_order (meta_molecule s)) as [e|order] eqn:Hord; [eauto|].
  specialize (Horder order eq_refl).
  destruct order as [|start_node rest]; [destruct Horder|].
  rewrite bind_lift_run. simpl head. simpl of_option. cbv beta iota.
  rewrite bind_lift_run.
  destruct (dict_get start_node (node_to_block s)) as [name|] eqn:Hname;
    simpl of_option; cbv beta iota; [|eauto].
  assert (Hrest : In n rest).
  { destruct Horder as [->|Hin]; [congruence|exact Hin]. }
  rewrite bind_lift_run.
  destruct (blocks_get (force_field s) name) as [e|block]; [eauto|].
  cbv zeta. rewrite bind_run, has_from_itp_run.
  destruct (dict_get start_node (mm_nodes (meta_molecule s))) as [a|];
    [|eauto].
  match goal with
  | |- context [bind ?prefix ?loop s] =>
      assert (Hpre : keeps (fun s' => dict_get n (node_to_block s') = None
                                      /\ node_to_fragment s' !! n = None)
                           prefix)
  end.
  { destruct (dict_mem "from_itp"%string a).
    - apply keeps_bind; [apply keeps_mark_fragment_added; auto|intros _].
      apply keeps_bind; [apply keeps_modify; auto|intros _].
      apply keeps_bind.
      + unfold residue_of. apply keeps_bind; [apply keeps_get|intros s1].
        apply keeps_lift.
      + intros residue. apply keeps_set_graph; auto.
    - apply keeps_set_graph; auto. }
  rewrite bind_run.
  match goal with
  | |- context [match ?p s with _ => _ end] =>
      specialize (Hpre s (conj Hblock Hfrag));
      destruct (p s) as [[e|[]] s1]; [eauto|]
  end.
  simpl in Hpre. simpl tail.
  apply (for_acc_raises
           (fun s' => dict_get n (node_to_block s') = None
                      /\ node_to_fragment s' !! n = None) rest _ n Hrest).
  - intros y acc. apply add_block_keeps; auto.
  - intros acc s2 [H1 H2]. exists KeyError, s2.
    now apply add_block_missing_entry.
  - exact Hpre.
Qed.

Lemma node_order_members mm order n :
  dict_wf (mm_nodes mm) ->
  node_order mm = inr order ->
  In n (dict_keys (mm_nodes mm)) -> In n order.
Proof.
  intros Hwf Horder Hn.
  destruct (node_order_inv mm Hwf order Horder) as [_ ->].
  apply (Permutation_in (l := map snd (map sort_key (mm_nodes mm)))).
  - apply Permutation_map, Permutation_sym, py_sorted_Permutation.
  - rewrite map_map. exact Hn.
Qed.

(** X14: a meta-molecule with a node that no edge touches is never
    processed: whatever the force field and the other residues,
    [run_molecule] raises (the classification gives such a node no template,
    and [add_blocks] needs one for every node). *)
Theorem run_molecule_rejects_isolated_node V ff mm n :
  dict_wf (mm_nodes mm) ->
  In n (dict_keys (mm_nodes mm)) ->
  (forall e, In e (mm_edges mm) -> n <> fst e /\ n <> snd e) ->
  exists e s', run_molecule V (init_state ff mm) = (inl e, s').
Proof.
  intros Hwf Hn Hiso.
  pose proof (match_nodes_to_blocks_skips_untraversed
                ff mm n (isolated_not_traversed mm n Hiso)) as [Hblock Hfrag].
  pose proof (match_nodes_to_blocks_classified ff mm) as (_ & Hmm & _).
  rewrite run_molecule_run, bind_run.
  destruct (match_nodes_to_blocks (init_state ff mm)) as [[e|[]] s1];
    [eauto|].
  simpl in Hblock, Hfrag, Hmm.
  rewrite bind_run. unfold get at 1. cbv beta iota. rewrite bind_lift_run.
  destruct (tag_exclusions (node_to_block s1) (force_field s1)) as [e|ff'];
    [eauto|].
  rewrite bind_run. unfold modify at 1. cbv beta iota.
  destruct (add_blocks_missing_entry
              V (with_force_field (fun _ => ff') s1) n) as (e & s' & Hrun).
  - simpl. rewrite Hmm. intros order Horder.
    now apply (node_order_members mm).
  - exact Hblock.
  - exact Hfrag.
  - rewrite (bind_err _ _ _ _ _ Hrun). eauto.
Qed.

Lemma run_molecule_rejects_isolated_node_witness :
  exists e s',
    run_molecule vermouth_model (init_state ff_fragments meta_isolated)
    = (inl e, s').
Proof.
  apply (run_molecule_rejects_isolated_node
           vermouth_model ff_fragments meta_isolated 2).
  - unfold dict_wf. simpl. nodup_small.
  - simpl. auto.
  - intros e [<-|[]]. split; discriminate.
Defined.

(** ** What run_molecule leaves alone *)

Lemma same_templates_refl ff : same_templates ff ff.
Proof.
  intros name. destruct (blocks ff !! name) as [b|]; [|reflexivity].
  exists b. split; [reflexivity|apply same_but_exclusions_refl].
Qed.

Lemma tag_exclusions_same_templates node_to_block ff ff' :
  dict_wf node_to_block ->
  tag_exclusions node_to_block ff = inr ff' ->
  same_templates ff ff'.
Proof.
  intros Hwf Hrun name.
  destruct (tag_exclusions_cases _ _ _ Hwf Hrun)
    as (_ & [[-> _]|(m & _ & _ & _ & _ & Hpart & _)]).
  - apply same_templates_refl.
  - destruct (Hpart name) as [Heq|(b & Hb & Hb')].
    + rewrite Heq. destruct (blocks ff !! name) as [b|]; [|reflexivity].
      exists b. split; [reflexivity|apply same_but_exclusions_refl].
    + rewrite Hb. exists (tagged b m). split; [exact Hb'|].
      apply same_but_exclusions_tagged.
Qed.

(** X15: whether it returns or raises, [run_molecule] on a fresh processor
    leaves the meta-molecule with its nodes, in their order, their
    attributes other than [graph], and its edges; the template library
    keeps its names, and a template changes at most in [nrexcl] and in the
    [exclude] attribute of its nodes.  When it returns the meta-molecule has
    a [molecule]; when it raises, [molecule] is as it was. *)
Theorem run_molecule_frame V ff mm :
  same_but_graph mm (meta_molecule (snd (run_molecule V (init_state ff mm))))
  /\ same_templates ff (force_field (snd (run_molecule V (init_state ff mm))))
  /\ match fst (run_molecule V (init_state ff mm)) with
     | inr _ =>
         is_Some (molecule
                    (meta_molecule (snd (run_molecule V (init_state ff mm)))))
     | inl _ =>
         molecule (meta_molecule (snd (run_molecule V (init_state ff mm))))
         = molecule mm
     end.
Proof.
  pose proof (match_nodes_to_blocks_keeps_exact
                (fun s => force_field s = ff /\ meta_molecule s = mm
                          /\ dict_wf (node_to_block s)) mm) as Hmatch.
  specialize (Hmatch (fun s c H => H)).
  specialize (Hmatch (fun s m v H _ =>
                        match H with
                        | conj H1 (conj H2 H3) =>
                            conj H1 (conj H2 (dict_set_wf m v _ H3))
                        end)).
  specialize (Hmatch (fun s m k H _ => H) (init_state ff mm) eq_refl).
  destruct Hmatch as (Hff & Hmm & Hwf).
  { split; [reflexivity|]. split; [reflexivity|]. constructor. }
  cut (forall r, run_molecule V (init_state ff mm) = r ->
                 same_but_graph mm (meta_molecule (snd r))
                 /\ same_templates ff (force_field (snd r))
                 /\ match fst r with
                    | inr _ => is_Some (molecule (meta_molecule (snd r)))
                    | inl _ => molecule (meta_molecule (snd r)) = molecule mm
                    end);
    [intros Hgen; exact (Hgen _ eq_refl)|].
  intros r. rewrite run_molecule_run, bind_run.
  destruct (match_nodes_to_blocks (init_state ff mm)) as [[e|[]] s1];
    simpl in Hff, Hmm, Hwf.
  { intros <-. simpl. rewrite Hff, Hmm.
    split; [apply same_but_graph_refl|]. split; [apply same_templates_refl|].
    reflexivity. }
  rewrite bind_run. unfold get at 1. cbv beta iota. rewrite bind_lift_run.
  destruct (tag_exclusions (node_to_block s1) (force_field s1)) as [e|ff']
    eqn:Htag.
  { intros <-. simpl. rewrite Hff, Hmm.
    split; [apply same_but_graph_refl|]. split; [apply same_templates_refl|].
    reflexivity. }
  rewrite Hff in Htag. apply tag_exclusions_same_templates in Htag;
    [|exact Hwf].
  rewrite bind_run. unfold modify at 1. cbv beta iota. rewrite bind_run.
  pose proof (add_blocks_keeps V
                (fun s => force_field s = ff'
                          /\ molecule (meta_molecule s) = molecule mm
                          /\ same_but_graph mm (meta_molecule s))) as Hadd.
  specialize (Hadd (fun s n g a H Ha =>
                      match H with
                      | conj H1 (conj H2 H3) =>
                          conj H1 (conj H2 (same_but_graph_with_graph
                                              mm _ n g a Ha H3))
                      end)).
  specialize (Hadd (fun s l H => H) (fun s c H => H)
                   (with_force_field (fun _ => ff') s1)).
  destruct Hadd as (Hff3 & Hmol3 & Hsame3).
  { split; [reflexivity|]. simpl. rewrite Hmm.
    split; [reflexivity|apply same_but_graph_refl]. }
  destruct (add_blocks V (with_force_field (fun _ => ff') s1))
    as [[e|mol] s3]; simpl in Hff3, Hmol3, Hsame3.
  - intros <-. simpl. rewrite Hff3. auto.
  - unfold modify. intros <-. simpl. rewrite Hff3.
    split; [exact Hsame3|]. split; [exact Htag|eauto].
Qed.

(** ** add_blocks on a fragment *)

(** The loop body at a node whose fragment has been added (lines 203-205
    and 212-225). *)
Lemma add_block_added V start_node n mol s :
  n ∈ added_fragment_nodes s ->
  add_block V start_node n mol s
  = match node_to_fragment s !! n with
    | None => (inl KeyError, s)
    | Some fragment_id =>
        match multiblock_correspondence s !! fragment_id with
        | None => (inl IndexError, s)
        | Some c =>
            match _correspondence_to_residue (meta_molecule s) mol c n with
            | inl e => (inl e, s)
            | inr residue =>
                match dict_get n (mm_nodes (meta_molecule s)) with
                | None => (inl KeyError, s)
                | Some a =>
                    let s1 := with_graph n (graph_value residue) a s in
                    if dict_mem "from_itp"%string a
                       && negb (bool_decide (n ∈ added_fragments s))
                    then
                      match mark_fragment_added start_node s1 with
                      | (inl e, s2) => (inl e, s2)
                      | (inr _, s2) =>
                          (inr mol,
                           with_multiblock_correspondence (fun l => l ++ [c]) s2)
                      end
                    else (inr mol, s1)
                end
            end
        end
    end.
Proof.
  intros Hin. unfold add_block. rewrite bind_run. unfold get at 1.
  cbv beta iota. rewrite (bool_decide_eq_true_2 _ Hin).
  rewrite bind_run, bind_lift_run.
  destruct (node_to_fragment s !! n) as [fid|]; simpl of_option; cbv beta iota;
    [|reflexivity].
  rewrite bind_lift_run.
  destruct (multiblock_correspondence s !! fid) as [c|]; simpl of_option;
    cbv beta iota; [|reflexivity].
  unfold ret at 1. cbv zeta. cbn [fst snd].
  rewrite bind_run, residue_of_run.
  destruct (_correspondence_to_residue (meta_molecule s) mol c n)
    as [e|residue]; [reflexivity|].
  rewrite bind_run, set_graph_run.
  destruct (dict_get n (mm_nodes (meta_molecule s))) as [a|] eqn:Ha;
    [|reflexivity].
  rewrite bind_run, has_from_itp_run. simpl meta_molecule. simpl mm_nodes.
  rewrite dict_get_set_eq. rewrite dict_mem_set_ne by discriminate.
  rewrite bind_run. unfold get at 1. cbv beta iota. simpl added_fragments.
  fold (with_graph n (graph_value residue) a s).
  destruct (dict_mem "from_itp"%string a
            && negb (bool_decide (n ∈ added_fragments s))).
  - rewrite !bind_run.
    destruct (mark_fragment_added start_node
                (with_graph n (graph_value residue) a s)) as [[e|[]] s2];
      reflexivity.
  - rewrite bind_run. reflexivity.
Qed.

Lemma correspondence_to_residue_local mm mm' mol c n :
  dict_get n (mm_nodes mm') = dict_get n (mm_nodes mm) ->
  _correspondence_to_residue mm' mol c n = _correspondence_to_residue mm mol c n.
Proof. intros H. unfold _correspondence_to_residue. now rewrite H. Qed.

Lemma add_blocks_loop_fragment V start_node mol idc frag fid rest :
  forall s,
    NoDup rest ->
    node_to_fragment s !! start_node = Some fid ->
    fragments s !! fid = Some frag ->
    multiblock_correspondence s !! fid = Some idc ->
    (forall n, In n rest ->
       n ∈ added_fragment_nodes s
       /\ node_to_fragment s !! n = Some fid
       /\ exists residue,
            _correspondence_to_residue (meta_molecule s) mol idc n = inr residue) ->
    exists s',
      for_acc rest (add_block V start_node) mol s = (inr mol, s')
      /\ (forall n, In n rest ->
            exists residue,
              _correspondence_to_residue (meta_molecule s) mol idc n = inr residue
              /\ graph_of (meta_molecule s') n = Some (graph_value residue))
      /\ (forall m, ~ In m rest ->
            graph_of (meta_molecule s') m = graph_of (meta_molecule s) m).
Proof.
  induction rest as [|n rest IH]; intros s Hnd Hstart Hfrag Hcorr Hall.
  - exists s. split; [reflexivity|]. split; [intros n []|auto].
  - apply NoDup_cons in Hnd as [Hn Hnd].
    rewrite list_elem_of_In in Hn.
    destruct (Hall n (or_introl eq_refl)) as (Hadded & Hfid & residue & Hres).
    simpl. rewrite bind_run, (add_block_added _ _ _ _ _ Hadded).
    rewrite Hfid, Hcorr, Hres.
    destruct (dict_get n (mm_nodes (meta_molecule s))) as [a|] eqn:Ha.
    2:{ unfold _correspondence_to_residue in Hres. rewrite Ha in Hres.
        discriminate. }
    cbv zeta.
    assert (Hnext : forall s1,
               node_to_fragment s1 = node_to_fragment s ->
               fragments s1 = fragments s ->
               multiblock_correspondence s1 !! fid = Some idc ->
               (forall m, m ∈ added_fragment_nodes s ->
                          m ∈ added_fragment_nodes s1) ->
               meta_molecule s1
               = meta_molecule (with_graph n (graph_value residue) a s) ->
               exists s',
                 for_acc rest (add_block V start_node) mol s1 = (inr mol, s')
                 /\ (forall m, In m (n :: rest) ->
                       exists residue,
                         _correspondence_to_residue (meta_molecule s) mol idc m
                         = inr residue
                         /\ graph_of (meta_molecule s') m
                            = Some (graph_value residue))
                 /\ (forall m, ~ In m (n :: rest) ->
                       graph_of (meta_molecule s') m
                       = graph_of (meta_molecule s) m)).
    { intros s1 Hnf1 Hf1 Hc1 Ha1 Hm1.
      assert (Hlocal : forall m, m <> n ->
                dict_get m (mm_nodes (meta_molecule s1))
                = dict_get m (mm_nodes (meta_molecule s))).
      { intros m Hne. rewrite Hm1. simpl. apply dict_get_set_ne. congruence. }
      destruct (IH s1) as (s' & Hrun & Hdone & Hother).
      - exact Hnd.
      - now rewrite Hnf1.
      - now rewrite Hf1.
      - exact Hc1.
      - intros m Hm. destruct (Hall m (or_intror Hm)) as (H1 & H2 & r & Hr).
        split; [now apply Ha1|]. split; [now rewrite Hnf1|].
        exists r. rewrite <- Hr. apply correspondence_to_residue_local.
        apply Hlocal. intros ->. contradiction.
      - exists s'. split; [exact Hrun|]. split.
        + intros m [<-|Hm].
          * exists residue. split; [exact Hres|].
            rewrite (Hother n Hn), Hm1. simpl. rewrite graph_of_set_graph.
            destruct (decide (n = n)); [reflexivity|contradiction].
          * destruct (Hdone m Hm) as (r & Hr & Hg). exists r.
            split; [|exact Hg]. rewrite <- Hr. symmetry.
            apply correspondence_to_residue_local. apply Hlocal.
            intros ->. contradiction.
        + intros m Hm. rewrite Hother by (intros Hin; apply Hm; now right).
          rewrite Hm1. simpl. rewrite graph_of_set_graph.
          destruct (decide (n = m)) as [->|]; [|reflexivity].
          exfalso. apply Hm. now left. }
    destruct (dict_mem "from_itp"%string a
              && negb (bool_decide (n ∈ added_fragments s))).
    + rewrite mark_fragment_added_run. simpl node_to_fragment. simpl fragments.
      rewrite Hstart, Hfrag. apply Hnext; try reflexivity.
      * simpl. now apply lookup_app_l_Some.
      * intros m Hm. simpl. apply elem_of_app. now left.
    + apply Hnext; try reflexivity; auto.
Qed.

Lemma dict_set_values_In {K V} `{EqDecision K} (k : K) (v : V) d x :
  In x (dict_values (dict_set k v d)) -> x = v \/ In x (dict_values d).
Proof.
  unfold dict_values. rewrite !in_map_iff.
  intros ([k' v'] & <- & Hin). apply dict_set_In in Hin as [[= -> ->]|Hin].
  - now left.
  - right. exists (k', v'). auto.
Qed.

Lemma identity_correspondence_values mol t :
  In t (dict_values (identity_correspondence mol)) ->
  In t (dict_keys (m_nodes mol)).
Proof.
  unfold identity_correspondence.
  assert (Hgen : forall (l : list node) (acc : odict node node),
             In t (dict_values (fold_left (fun acc n => dict_set n n acc) l acc)) ->
             In t (dict_values acc) \/ In t l).
  { induction l as [|n l IH]; intros acc; simpl; [auto|].
    intros Hin. apply IH in Hin as [Hin|Hin]; [|auto].
    apply dict_set_values_In in Hin as [->|Hin]; auto. }
  intros Hin. apply Hgen in Hin as [[]|Hin]. exact Hin.
Qed.

(** X16: a meta-molecule that is one fragment.  If the first node in the
    order of [resid] carries [from_itp], all nodes belong to its fragment,
    the index of that fragment is the number of correspondences recorded so
    far, and the atoms of the instantiated template have a [resid], then
    [add_blocks] returns the instantiated template itself, nothing merged
    into it, and the [graph] of every node is the residue cut out of it by
    [_correspondence_to_residue] with the identity correspondence. *)
Theorem add_blocks_single_fragment V s start_node rest frag b0 :
  dict_wf (mm_nodes (meta_molecule s)) ->
  node_order (meta_molecule s) = inr (start_node :: rest) ->
  block_of s start_node = inr b0 ->
  from_itp_node (meta_molecule s) start_node ->
  fragments s !! length (multiblock_correspondence s) = Some frag ->
  (forall n, In n (start_node :: rest) ->
     node_to_fragment s !! n = Some (length (multiblock_correspondence s))
     /\ n ∈ frag) ->
  (forall m data, In (m, data) (m_nodes (to_molecule V b0)) ->
                  is_Some (dict_get "resid"%string data)) ->
  exists s',
    add_blocks V s = (inr (to_molecule V b0), s')
    /\ forall n, In n (start_node :: rest) ->
         exists residue,
           _correspondence_to_residue
             (meta_molecule s) (to_molecule V b0)
             (identity_correspondence (to_molecule V b0)) n = inr residue
           /\ graph_of (meta_molecule s') n = Some (graph_value residue).
Proof.
  intros Hwf Horder Hb0 (a0 & Ha0 & Hitp0) Hfrag Hall Hresid.
  set (mol := to_molecule V b0) in *.
  set (idc := identity_correspondence mol).
  set (fid := length (multiblock_correspondence s)) in *.
  destruct (node_order_inv _ Hwf _ Horder) as [Hint Heq].
  assert (Hperm : Permutation (start_node :: rest)
                              (dict_keys (mm_nodes (meta_molecule s)))).
  { assert (Hkeys : map snd (map sort_key (mm_nodes (meta_molecule s)))
                    = dict_keys (mm_nodes (meta_molecule s)))
      by (rewrite map_map; reflexivity).
    rewrite Heq, <- Hkeys. apply Permutation_map, py_sorted_Permutation. }
  assert (Hnd : NoDup (start_node :: rest)).
  { rewrite Hperm. exact Hwf. }
  apply NoDup_cons in Hnd as [Hstart Hnd]. rewrite list_elem_of_In in Hstart.
  assert (Hres : forall n, In n (start_node :: rest) ->
             exists residue,
               _correspondence_to_residue (meta_molecule s) mol idc n
               = inr residue).
  { intros n Hn. apply (Permutation_in _ Hperm) in Hn.
    unfold dict_keys in Hn. apply in_map_iff in Hn as ([n' a] & <- & Hin).
    rewrite Forall_forall in Hint.
    destruct (Hint (n', a)) as [z Hz]; [now apply list_elem_of_In|].
    apply (correspondence_to_residue_total _ _ _ _ a (VInt z)).
    - now apply In_dict_get_wf.
    - exact Hz.
    - intros t Ht. apply identity_correspondence_values in Ht.
      destruct (dict_get t (m_nodes mol)) as [data|] eqn:Hdata.
      + destruct (Hresid t data (dict_get_In _ _ _ Hdata)) as [r Hr]. eauto.
      + apply dict_get_None in Hdata. contradiction. }
  destruct (Hres start_node (or_introl eq_refl)) as [residue0 Hres0].
  destruct (Hall start_node (or_introl eq_refl)) as [Hfid0 _].
  unfold block_of in Hb0.
  unfold add_blocks. rewrite bind_run. unfold get at 1. cbv beta iota.
  rewrite bind_lift_run, Horder. rewrite bind_lift_run. simpl head.
  simpl of_option. cbv beta iota. rewrite bind_lift_run.
  destruct (dict_get start_node (node_to_block s)) as [name|];
    [|discriminate].
  simpl of_option. cbv beta iota. rewrite bind_lift_run, Hb0.
  cbv zeta. fold mol. fold idc.
  rewrite bind_run, has_from_itp_run, Ha0. cbv beta iota.
  rewrite Hitp0. cbv beta iota.
  rewrite bind_run. rewrite bind_run, mark_fragment_added_run, Hfid0.
  cbv beta iota. rewrite Hfrag. cbv beta iota.
  rewrite bind_run. unfold modify at 1. cbv beta iota.
  rewrite bind_run, residue_of_run. simpl meta_molecule. rewrite Hres0.
  cbv beta iota.
  rewrite set_graph_run. simpl meta_molecule. rewrite Ha0. simpl tail.
  match goal with
  | |- context [for_acc rest _ mol ?s2] =>
      destruct (add_blocks_loop_fragment V start_node mol idc frag fid rest s2)
        as (s' & Hrun & Hdone & Hother)
  end.
  - exact Hnd.
  - exact Hfid0.
  - exact Hfrag.
  - simpl. now apply list_lookup_middle.
  - intros n Hn. destruct (Hall n (or_intror Hn)) as [Hfid Hmem].
    split; [|split; [exact Hfid|]].
    + simpl. apply elem_of_app. right. now apply elem_of_elements.
    + destruct (Hres n (or_intror Hn)) as [r Hr]. exists r.
      rewrite <- Hr. apply correspondence_to_residue_local. simpl.
      apply dict_get_set_ne. intros ->. contradiction.
  - exists s'. split; [exact Hrun|].
    intros n [<-|Hn].
    + exists residue0. split; [exact Hres0|].
      rewrite (Hother _ Hstart). simpl. rewrite graph_of_set_graph.
      destruct (decide (start_node = start_node)); [reflexivity|contradiction].
    + destruct (Hdone n Hn) as (r & Hr & Hg). exists r. split; [|exact Hg].
      rewrite <- Hr. symmetry. apply correspondence_to_residue_local. simpl.
      apply dict_get_set_ne. intros ->. contradiction.
Qed.

Lemma add_blocks_single_fragment_witness :
  exists s',
    add_blocks vermouth_model classified_one_fragment
    = (inr (to_molecule vermouth_model block_two_residues), s')
    /\ forall n, In n [0; 1] ->
         exists residue,
           _correspondence_to_residue
             (meta_molecule classified_one_fragment)
             (to_molecule vermouth_model block_two_residues)
             (identity_correspondence
                (to_molecule vermouth_model block_two_residues)) n
           = inr residue
           /\ graph_of (meta_molecule s') n = Some (graph_value residue).
Proof.
  apply (add_blocks_single_fragment
           vermouth_model classified_one_fragment 0 [1] {[0; 1]}
           block_two_residues).
  - unfold dict_wf. vm_compute. nodup_small.
  - vm_compute. reflexivity.
  - vm_compute. reflexivity.
  - exists (attrs_of "ALA" 1 (Some "chainA"%string)).
    split; vm_compute; reflexivity.
  - vm_compute. reflexivity.
  - intros n [<-|[<-|[]]]; (split; [vm_compute; reflexivity|]);
      apply (bool_decide_unpack _); vm_compute; reflexivity.
  - intros m data Hin. vm_compute in Hin.
    destruct Hin as [[= <- <-]|[[= <- <-]|[]]]; eexists; reflexivity.
Defined.

(** X17: [multiblock_correspondence] is filled in the order in which the
    fragments are added but read at the index of the fragment (line 205).
    When the first node in the order of [resid] belongs to a fragment whose
    index is not 0 and no correspondence has been recorded, the next member
    of that fragment finds no correspondence: [add_blocks] raises an
    IndexError, unless a lookup for the first node has raised a KeyError
    before. *)
Theorem add_blocks_fragment_index V s start_node n rest fid frag :
  node_order (meta_molecule s) = inr (start_node :: n :: rest) ->
  multiblock_correspondence s = [] ->
  from_itp_node (meta_molecule s) start_node ->
  node_to_fragment s !! start_node = Some fid ->
  (0 < fid)%nat ->
  fragments s !! fid = Some frag ->
  n ∈ frag ->
  node_to_fragment s !! n = Some fid ->
  exists e s',
    add_blocks V s = (inl e, s') /\ (e = IndexError \/ e = KeyError).
Proof.
  intros Horder Hcorr (a0 & Ha0 & Hitp0) Hfid0 Hpos Hfrag Hn Hfid.
  unfold add_blocks. rewrite bind_run. unfold get at 1. cbv beta iota.
  rewrite bind_lift_run, Horder. rewrite bind_lift_run. simpl head.
  simpl of_option. cbv beta iota. rewrite bind_lift_run.
  destruct (dict_get start_node (node_to_block s)) as [name|];
    simpl of_option; cbv beta iota; [|eauto].
  rewrite bind_lift_run.
  destruct (blocks_get (force_field s) name) as [e|b0] eqn:Hb0.
  { exists e, s. split; [reflexivity|]. right.
    destruct name; simpl in Hb0; try (now injection Hb0 as <-).
    destruct (blocks (force_field s) !! s0); simpl in Hb0;
      [discriminate|now injection Hb0 as <-]. }
  cbv zeta.
  rewrite bind_run, has_from_itp_run, Ha0. cbv beta iota.
  rewrite Hitp0. cbv beta iota.
  rewrite bind_run. rewrite bind_run, mark_fragment_added_run, Hfid0.
  cbv beta iota. rewrite Hfrag. cbv beta iota.
  rewrite bind_run. unfold modify at 1. cbv beta iota.
  rewrite bind_run, residue_of_run. simpl meta_molecule.
  destruct (_correspondence_to_residue _ _ _ start_node) as [e|residue0]
    eqn:Hres0.
  { do 2 eexists. split; [reflexivity|]. right.
    eapply correspondence_to_residue_raises, Hres0. }
  cbv beta iota.
  rewrite set_graph_run. simpl meta_molecule. rewrite Ha0. simpl tail.
  simpl for_acc. rewrite bind_run, add_block_added.
  - simpl node_to_fragment. rewrite Hfid. simpl multiblock_correspondence.
    rewrite Hcorr. simpl app.
    destruct fid as [|fid]; [lia|]. simpl. eauto.
  - simpl. apply elem_of_app. right. now apply elem_of_elements.
Qed.

Lemma add_blocks_fragment_index_witness :
  exists e s',
    add_blocks vermouth_model classified_second_fragment_first = (inl e, s')
    /\ (e = IndexError \/ e = KeyError).
Proof.
  apply (add_blocks_fragment_index
           vermouth_model classified_second_fragment_first 3 4 [2; 0; 1]
           1%nat {[3; 4]}).
  - vm_compute. reflexivity.
  - vm_compute. reflexivity.
  - exists (attrs_of "ALA" 1 (Some "chainB"%string)).
    split; vm_compute; reflexivity.
  - vm_compute. reflexivity.
  - lia.
  - vm_compute. reflexivity.
  - apply (bool_decide_unpack _). vm_compute. reflexivity.
  - vm_compute. reflexivity.
Defined.

(** ** run_molecule on plain residues *)

Lemma result_map_impl {A B} (f g : A -> result B) (l : list A) ys :
  (forall x y, In x l -> f x = inr y -> g x = inr y) ->
  result_map f l = inr ys -> result_map g l = inr ys.
Proof.
  revert ys. induction l as [|x l IH]; intros ys Himpl; simpl; [auto|].
  destruct (f x) as [e|y] eqn:Hx; simpl; [discriminate|].
  destruct (result_map f l) as [e|ys'] eqn:Hl; simpl; [discriminate|].
  intros [= <-]. rewrite (Himpl x y (or_introl eq_refl) Hx). simpl.
  rewrite (IH ys'); [reflexivity| |reflexivity].
  intros x' y' Hin. apply Himpl. now right.
Qed.

Lemma traversed_node_dec mm n : traversed_node mm n \/ ~ traversed_node mm n.
Proof.
  unfold traversed_node. induction (dfs_edges mm) as [|e l IH].
  - right. intros (e & [] & _).
  - destruct (decide (n = fst e)) as [H1|H1];
      [left; exists e; split; [now left|now left]|].
    destruct (decide (n = snd e)) as [H2|H2];
      [left; exists e; split; [now left|now right]|].
    destruct IH as [(e' & Hin & H)|Hno].
    + left. exists e'. split; [now right|exact H].
    + right. intros (e' & [<-|Hin] & H); [tauto|]. apply Hno. eauto.
Qed.

(** X19: a meta-molecule of plain residues (no node carries [from_itp]).
    When [run_molecule] returns on a fresh processor, the molecule it
    attaches is the template named by the [resname] of the first node in
    the order of [resid], instantiated, with the templates named by the
    [resname] of the other nodes merged into it one after the other in that
    order; the templates are those of the force field as [tag_exclusions]
    has left it. *)
Theorem run_molecule_plain V ff mm s' :
  dict_wf (mm_nodes mm) ->
  (forall n, from_itp_of mm n = None) ->
  run_molecule V (init_state ff mm) = (inr tt, s') ->
  exists start_node rest b0 bs mol,
    node_order mm = inr (start_node :: rest)
    /\ template_by_resname (force_field s') mm start_node = inr b0
    /\ result_map (template_by_resname (force_field s') mm) rest = inr bs
    /\ merge_all V (to_molecule V b0) bs = inr mol
    /\ molecule (meta_molecule s') = Some mol
    /\ same_templates ff (force_field s').
Proof.
  intros Hwf Hplain. rewrite run_molecule_run, bind_run.
  destruct (match_nodes_to_blocks (init_state ff mm)) as [[e|[]] s1] eqn:Hmatch;
    [intros Hbad; inversion Hbad|].
  pose proof (match_nodes_to_blocks_classified ff mm) as Hcl.
  rewrite Hmatch in Hcl. simpl in Hcl.
  destruct Hcl as (Hff1 & Hmm1 & Hnodes1 & _ & Hcorr1 & _).
  destruct (match_nodes_to_blocks_resname_only ff mm s1 Hwf Hplain Hmatch)
    as (_ & _ & Htrav & Hskip).
  assert (Hwf1 : dict_wf (node_to_block s1)).
  { pose proof (match_nodes_to_blocks_keeps_exact
                  (fun s => dict_wf (node_to_block s)) mm
                  (fun s c H => H)
                  (fun s m v H _ => dict_set_wf m v _ H)
                  (fun s m k H _ => H)
                  (init_state ff mm) eq_refl) as H.
    rewrite Hmatch in H. apply H. constructor. }
  rewrite bind_run. unfold get at 1. cbv beta iota. rewrite bind_lift_run.
  destruct (tag_exclusions (node_to_block s1) (force_field s1)) as [e|ff']
    eqn:Htag; [intros Hbad; inversion Hbad|].
  rewrite Hff1 in Htag.
  apply tag_exclusions_same_templates in Htag; [|exact Hwf1].
  rewrite bind_run. unfold modify at 1. cbv beta iota. rewrite bind_run.
  set (s2 := with_force_field (fun _ => ff') s1).
  assert (Hblock : forall n b, block_of s2 n = inr b ->
                               template_by_resname ff' mm n = inr b).
  { intros n b. unfold block_of, template_by_resname. simpl.
    destruct (dict_get n (node_to_block s1)) as [name|] eqn:Hname;
      [|discriminate].
    destruct (traversed_node_dec mm n) as [Ht|Ht].
    - destruct (Htrav n Ht) as (a & r & Ha & Hr & Hb).
      rewrite Ha, Hr. congruence.
    - rewrite (Hskip n Ht) in Hname. discriminate. }
  pose proof (add_blocks_keeps V (fun s => force_field s = ff')
                (fun s n g a H _ => H) (fun s l H => H) (fun s c H => H)
                s2 eq_refl) as Hff3.
  destruct (add_blocks V s2) as [[e|mol] s3] eqn:Hadd;
    [intros Hbad; inversion Hbad|].
  simpl in Hff3. unfold modify. intros [= <-]. simpl. rewrite Hff3.
  revert Hadd. unfold add_blocks. rewrite bind_run. unfold get at 1.
  cbv beta iota. rewrite bind_lift_run.
  change (meta_molecule s2) with (meta_molecule s1). rewrite Hmm1.
  destruct (node_order mm) as [e|[|start_node rest]] eqn:Horder;
    [intros Hbad; inversion Hbad|intros Hbad; inversion Hbad|].
  intros Hadd.
  assert (Hchain : exists b0 bs,
             block_of s2 start_node = inr b0
             /\ result_map (block_of s2) rest = inr bs
             /\ merge_all V (to_molecule V b0) bs = inr mol).
  { subst s2. revert Hadd. cbv beta iota. rewrite bind_lift_run. simpl head.
    simpl of_option. cbv beta iota. rewrite bind_lift_run. unfold block_of at 1.
    simpl node_to_block. simpl force_field.
    destruct (dict_get start_node (node_to_block s1)) as [name|];
      simpl of_option; cbv beta iota; [|intros Hbad; inversion Hbad].
    rewrite bind_lift_run.
    destruct (blocks_get ff' name) as [e|b0];
      [intros Hbad; inversion Hbad|].
    cbv zeta. rewrite bind_run, has_from_itp_run.
    simpl meta_molecule. rewrite Hmm1.
    destruct (dict_get start_node (mm_nodes mm)) as [a|] eqn:Ha;
      [|intros Hbad; inversion Hbad].
    pose proof (Hplain start_node) as Hstart.
    unfold from_itp_of in Hstart. rewrite Ha in Hstart.
    unfold dict_mem at 1. rewrite Hstart.
    rewrite bind_run, set_graph_run.
    simpl meta_molecule. rewrite Hmm1, Ha.
    simpl tail. intros Hloop.
    apply add_blocks_loop_plain in Hloop as (bs & Hbs & Hmerge & _).
    - exists b0, bs. auto.
    - simpl. exact Hnodes1.
    - intros m _. simpl. rewrite Hmm1.
      rewrite from_itp_of_with_graph by exact Ha. apply Hplain. }
  destruct Hchain as (b0 & bs & Hb0 & Hbs & Hmerge).
  exists start_node, rest, b0, bs, mol.
  split; [reflexivity|]. split; [now apply Hblock|].
  split; [|auto].
  apply (result_map_impl (block_of s2)); [|exact Hbs].
  intros x y _. apply Hblock.
Qed.

Lemma run_molecule_plain_witness :
  exists start_node rest b0 bs mol,
    node_order meta_plain_chain = inr (start_node :: rest)
    /\ template_by_resname
         (force_field (snd (run_molecule vermouth_model
                              (init_state ff_fragments meta_plain_chain))))
         meta_plain_chain start_node = inr b0
    /\ result_map
         (template_by_resname
            (force_field (snd (run_molecule vermouth_model
                                 (init_state ff_fragments meta_plain_chain))))
            meta_plain_chain) rest = inr bs
    /\ merge_all vermouth_model (to_molecule vermouth_model b0) bs = inr mol
    /\ molecule (meta_molecule
                   (snd (run_molecule vermouth_model
                           (init_state ff_fragments meta_plain_chain))))
       = Some mol
    /\ same_templates
         ff_fragments
         (force_field (snd (run_molecule vermouth_model
                              (init_state ff_fragments meta_plain_chain)))).
Proof.
  apply (run_molecule_plain vermouth_model ff_fragments meta_plain_chain).
  - unfold dict_wf. simpl. nodup_small.
  - intros n. unfold from_itp_of, meta_plain_chain, mm_nodes, dict_get.
    repeat (destruct (decide _); [reflexivity|]). reflexivity.
  - vm_compute. reflexivity.
Defined.

(** ** The attributes of the atoms in a residue *)

Lemma dict_update_get {K V} `{EqDecision K} (k : K) (d other : odict K V) :
  dict_wf other ->
  dict_get k (dict_update d other)
  = match dict_get k other with
    | Some v => Some v
    | None => dict_get k d
    end.
Proof.
  unfold dict_update, dict_wf, dict_keys. revert d.
  induction other as [|[k' v'] other IH]; intros d Hwf; simpl; [reflexivity|].
  apply NoDup_cons in Hwf as [Hnot Hwf]. rewrite IH by exact Hwf.
  destruct (decide (k' = k)) as [->|Hne].
  - destruct (dict_get k other) as [v|] eqn:Hget.
    + exfalso. apply Hnot. apply list_elem_of_In.
      apply (dict_get_Some_key _ _ _ Hget).
    + apply dict_get_set_eq.
  - destruct (dict_get k other); [reflexivity|].
    now apply dict_get_set_ne.
Qed.

Lemma propagated_other items d k :
  ~ In k (dict_keys items) \/ not_propagated k = true ->
  dict_get k (propagated items d) = dict_get k d.
Proof.
  intros [Hnot|Hk]; [|now apply propagated_excluded].
  unfold propagated. revert d.
  induction items as [|[k' v'] items IH]; intros d; simpl; [reflexivity|].
  simpl in Hnot. rewrite IH by tauto.
  destruct (not_propagated k'); [reflexivity|].
  apply dict_get_set_ne. intros ->. tauto.
Qed.

Lemma residue_loop_keeps meta_attrs resid mol targets :
  atoms_wf mol ->
  forall g residue,
    keeps_atom_attrs meta_attrs mol g ->
    residue_loop targets meta_attrs resid mol g = inr residue ->
    keeps_atom_attrs meta_attrs mol residue.
Proof.
  intros Hwf. induction targets as [|n targets IH]; intros g residue Hinv; simpl.
  - now intros [= <-].
  - destruct (dict_get n (m_nodes mol)) as [data|] eqn:Hdata; simpl;
      [|discriminate].
    destruct (dict_get "resid"%string data) as [r|]; simpl; [|discriminate].
    destruct (py_eq r resid); [|now apply IH].
    rewrite add_node_eq.
    set (d0 := dict_update (default [] (dict_get n (g_nodes g))) data).
    rewrite (propagate_spec _ _ _ d0) by (simpl; apply dict_get_set_eq).
    simpl. rewrite dict_set_set. apply IH.
    intros n' d. simpl. destruct (decide (n = n')) as [<-|Hne].
    + rewrite dict_get_set_eq. intros [= <-]. exists data.
      split; [exact Hdata|]. intros k Hk.
      rewrite propagated_other by exact Hk. unfold d0.
      rewrite dict_update_get by (eapply Hwf, Hdata).
      destruct (dict_get k data) as [v|] eqn:Hv; [reflexivity|].
      destruct (dict_get n (g_nodes g)) as [old|] eqn:Hold; simpl;
        [|reflexivity].
      destruct (Hinv n old Hold) as (data' & Hdata' & Hsame).
      rewrite (Hsame k Hk). congruence.
    + rewrite dict_get_set_ne by exact Hne. apply Hinv.
Qed.

(** X20: a node of the residue keeps the attributes of the atom it was
    taken from wherever propagation does not write: at every key that the
    meta node does not have, and at [graph] and [seqID], the residue node
    has the value of the atom (or no value, if the atom has none). *)
Theorem residue_keeps_atom_attributes
        meta_molecule mol correspondence res_node residue meta_attrs :
  atoms_wf mol ->
  dict_get res_node (mm_nodes meta_molecule) = Some meta_attrs ->
  _correspondence_to_residue meta_molecule mol correspondence res_node
  = inr residue ->
  forall n d,
    dict_get n (g_nodes residue) = Some d ->
    exists data,
      dict_get n (m_nodes mol) = Some data
      /\ forall k,
           ~ In k (dict_keys meta_attrs)
           \/ k = "graph"%string \/ k = "seqID"%string ->
           dict_get k d = dict_get k data.
Proof.
  intros Hwf Hmeta. unfold _correspondence_to_residue. rewrite Hmeta. simpl.
  destruct (dict_get "resid"%string meta_attrs) as [resid|]; simpl;
    [|discriminate].
  intros Hloop n d Hd.
  assert (Hkeep : keeps_atom_attrs meta_attrs mol residue).
  { apply (residue_loop_keeps meta_attrs resid mol (dict_values correspondence)
                              Hwf empty_graph residue); [|exact Hloop].
    intros n' d'. simpl. discriminate. }
  destruct (Hkeep n d Hd) as (data & Hdata & Hsame).
  - exists data. split; [exact Hdata|]. intros k Hk. apply Hsame.
    destruct Hk as [Hk|[->| ->]]; [now left|right; reflexivity..].
Qed.

Lemma residue_keeps_atom_attributes_witness :
  exists data,
    dict_get 0 (m_nodes mol_three_atoms) = Some data
    /\ forall k,
         ~ In k (dict_keys attrs_one_residue)
         \/ k = "graph"%string \/ k = "seqID"%string ->
         dict_get k (residue_atom "C1") = dict_get k data.
Proof.
  apply (residue_keeps_atom_attributes
           meta_one_residue mol_three_atoms corr_three_atoms 7
           residue_two_atoms attrs_one_residue).
  - intros n data. unfold mol_three_atoms, m_nodes, dict_get.
    repeat (destruct (decide _);
            [intros [= <-]; unfold dict_wf; simpl; nodup_small|]).
    discriminate.
  - reflexivity.
  - reflexivity.
  - reflexivity.
Defined.

(** X21: when [tag_exclusions] returns, the templates referenced in
    [node_to_block] all have the same [nrexcl] in the library it leaves
    (so that the blocks can be merged into one molecule). *)
Theorem tag_exclusions_uniform node_to_block ff ff' n1 name1 b1 n2 name2 b2 :
  dict_wf node_to_block ->
  tag_exclusions node_to_block ff = inr ff' ->
  In (n1, name1) node_to_block -> blocks_get ff' name1 = inr b1 ->
  In (n2, name2) node_to_block -> blocks_get ff' name2 = inr b2 ->
  nrexcl b1 = nrexcl b2.
Proof.
  intros Hwf Hrun H1 Hb1 H2 Hb2.
  destruct (tag_exclusions_cases _ _ _ Hwf Hrun)
    as (Hex & [[-> Hsame]|(m & _ & _ & _ & Htag & _)]).
  - exact (Hsame _ _ _ _ _ _ H1 Hb1 H2 Hb2).
  - destruct (Hex n1 name1 H1) as [c1 Hc1].
    destruct (Hex n2 name2 H2) as [c2 Hc2].
    rewrite (Htag n1 name1 c1 H1 Hc1) in Hb1.
    rewrite (Htag n2 name2 c2 H2 Hc2) in Hb2.
    injection Hb1 as <-. injection Hb2 as <-. reflexivity.
Qed.

Lemma tag_exclusions_uniform_witness :
  nrexcl (tagged (one_atom_block 3) 1) = nrexcl (tagged (one_atom_block 1) 1).
Proof.
  apply (tag_exclusions_uniform
           node_to_block_mixed ff_mixed
           (mkForceField (<["PEO"%string := tagged (one_atom_block 3) 1]>
                         (<["PS"%string := tagged (one_atom_block 1) 1]>
                         (<["P3HT"%string := one_atom_block 5]> ∅))))
           0 (VStr "PEO") (tagged (one_atom_block 3) 1)
           1 (VStr "PS") (tagged (one_atom_block 1) 1)).
  - unfold dict_wf. simpl. nodup_small.
  - vm_compute. reflexivity.
  - simpl. auto.
  - reflexivity.
  - simpl. auto.
  - reflexivity.
Defined.

Lemma add_blocks_graphs_witness :
  ((forall n, In n [1; 2; 3; 4] ->
      edgeless_graph_at
        (meta_molecule (snd (add_blocks vermouth_model classified_two_fragments)))
        n)
   /\ edgeless_graph_at
        (meta_molecule (snd (add_blocks vermouth_model classified_two_fragments)))
        0)
  /\ ((forall n, In n [1; 2] ->
         edgeless_graph_at
           (meta_molecule (snd (add_blocks vermouth_model classified_plain_chain)))
           n)
      /\ exists block,
           block_of classified_plain_chain 0 = inr block
           /\ graph_of
                (meta_molecule
                   (snd (add_blocks vermouth_model classified_plain_chain))) 0
              = Some (VGraph (m_nodes (to_molecule vermouth_model block))
                             (m_edges (to_molecule vermouth_model block)))).
Proof.
  split.
  - destruct (add_blocks_graphs
                vermouth_model classified_two_fragments
                (match fst (add_blocks vermouth_model classified_two_fragments) with
                 | inr mol => mol
                 | inl _ => mkMolecule [] [] None
                 end)
                (snd (add_blocks vermouth_model classified_two_fragments))
                0 [1; 2; 3; 4]) as (Hrest & Hfirst & _).
    + vm_compute. reflexivity.
    + vm_compute. reflexivity.
    + split; [exact Hrest|]. apply Hfirst.
      exists (attrs_of "ALA" 1 (Some "chainA"%string)).
      split; vm_compute; reflexivity.
  - destruct (add_blocks_graphs
                vermouth_model classified_plain_chain
                (match fst (add_blocks vermouth_model classified_plain_chain) with
                 | inr mol => mol
                 | inl _ => mkMolecule [] [] None
                 end)
                (snd (add_blocks vermouth_model classified_plain_chain))
                0 [1; 2]) as (Hrest & _ & Hplain).
    + vm_compute. reflexivity.
    + vm_compute. reflexivity.
    + split; [exact Hrest|]. apply Hplain.
      * intros (a & Ha & Hitp). vm_compute in Ha. injection Ha as <-.
        vm_compute in Hitp. discriminate Hitp.
      * intros [H|[H|[]]]; discriminate H.
Defined.

(** * The visit of the nodes *)

(** ** The nodes that add_blocks visits *)

Lemma add_blocks_visit V s start_node rest :
  node_order (meta_molecule s) = inr (start_node :: rest) ->
  add_blocks V s = visit_nodes V start_node rest s.
Proof.
  intros Horder.
  unfold add_blocks, visit_nodes, add_first_block, bind, get, lift, ret.
  rewrite Horder. cbn [head tail of_option]. cbv beta iota zeta.
  destruct (dict_get start_node (node_to_block s)) as [name|];
    cbn [of_option]; cbv beta iota; [|reflexivity].
  destruct (blocks_get (force_field s) name) as [e|block]; [reflexivity|].
  destruct (has_from_itp start_node s) as [[e|restart] s1]; [reflexivity|].
  destruct restart.
  - destruct (mark_fragment_added start_node s1) as [[e|[]] s2]; [reflexivity|].
    destruct (modify _ s2) as [[e|[]] s3]; [reflexivity|].
    destruct (residue_of _ _ start_node s3) as [[e|residue] s4]; [reflexivity|].
    destruct (set_graph start_node _ s4) as [[e|[]] s5]; reflexivity.
  - destruct (set_graph start_node _ s1) as [[e|[]] s2]; reflexivity.
Qed.



Lemma blocks_get_raises ff name e : blocks_get ff name = inl e -> e = KeyError.
Proof.
  destruct name; simpl; try (now intros [= <-]).
  destruct (blocks ff !! s); simpl; [discriminate|now intros [= <-]].
Qed.

Lemma block_of_raises s n e : block_of s n = inl e -> e = KeyError.
Proof.
  unfold block_of. destruct (dict_get n (node_to_block s)) as [name|].
  - apply blocks_get_raises.
  - now intros [= <-].
Qed.

Lemma vermouth_model_keeps_nrexcl : keeps_nrexcl vermouth_model.
Proof.
  split; [reflexivity|].
  intros mol b Hmol. simpl. unfold model_merge_molecule. rewrite Hmol.
  rewrite bool_decide_eq_true_2 by reflexivity.
  eexists _, _. split; reflexivity.
Qed.

(** The first node when it carries no [from_itp] (lines 176-197). *)
Lemma add_first_block_plain V start_node s :
  from_itp_of (meta_molecule s) start_node = None ->
  add_first_block V start_node s
  = match block_of s start_node with
    | inl e => (inl e, s)
    | inr b =>
        match dict_get start_node (mm_nodes (meta_molecule s)) with
        | Some a =>
            (inr (to_molecule V b),
             with_graph start_node
                        (VGraph (m_nodes (to_molecule V b))
                                (m_edges (to_molecule V b))) a s)
        | None => (inl KeyError, s)
        end
    end.
Proof.
  intros Hitp. unfold add_first_block, block_of.
  rewrite bind_run. unfold get at 1. cbv beta iota. rewrite bind_lift_run.
  destruct (dict_get start_node (node_to_block s)) as [name|];
    simpl of_option; cbv beta iota; [|reflexivity].
  rewrite bind_lift_run.
  destruct (blocks_get (force_field s) name) as [e|b]; [reflexivity|].
  cbv zeta. rewrite bind_run, has_from_itp_run.
  unfold from_itp_of in Hitp.
  destruct (dict_get start_node (mm_nodes (meta_molecule s))) as [a|] eqn:Ha;
    [|reflexivity].
  unfold dict_mem at 1. rewrite Hitp.
  rewrite bind_run, set_graph_run, Ha. reflexivity.
Qed.

(** One pass of the loop of lines 200-225 as long as no fragment has been
    recorded: the node gets its residue, and the lookup of line 223 fails
    when the node carries [from_itp]. *)
Lemma add_block_no_fragment V start_node n mol s :
  no_fragment_of start_node s ->
  add_block V start_node n mol s
  = match block_of s n with
    | inl e => (inl e, s)
    | inr b =>
        match merge_molecule V mol b with
        | inl e => (inl e, s)
        | inr mc =>
            match _correspondence_to_residue (meta_molecule s) (fst mc) (snd mc) n with
            | inl e => (inl e, s)
            | inr residue =>
                match dict_get n (mm_nodes (meta_molecule s)) with
                | Some a =>
                    if dict_mem "from_itp"%string a
                    then (inl KeyError, with_graph n (graph_value residue) a s)
                    else (inr (fst mc), with_graph n (graph_value residue) a s)
                | None => (inl KeyError, s)
                end
            end
        end
    end.
Proof.
  intros (Hfrag & Hnodes & Hadded).
  unfold add_block. rewrite bind_run. unfold get at 1. cbv beta iota.
  rewrite Hnodes.
  replace (bool_decide (n ∈ @nil node)) with false
    by (symmetry; apply bool_decide_eq_false; apply not_elem_of_nil).
  rewrite bind_run, bind_lift_run. unfold block_of.
  destruct (dict_get n (node_to_block s)) as [name|]; simpl of_option;
    cbv beta iota; [|reflexivity].
  rewrite bind_lift_run.
  destruct (blocks_get (force_field s) name) as [e|b]; [reflexivity|].
  unfold lift at 1.
  destruct (merge_molecule V mol b) as [e|mc]; [reflexivity|].
  cbv zeta. rewrite bind_run, residue_of_run.
  destruct (_correspondence_to_residue (meta_molecule s) (fst mc) (snd mc) n)
    as [e|residue]; [reflexivity|].
  rewrite bind_run, set_graph_run.
  destruct (dict_get n (mm_nodes (meta_molecule s))) as [a|] eqn:Ha;
    [|reflexivity].
  rewrite bind_run, has_from_itp_run. simpl meta_molecule. simpl mm_nodes.
  rewrite dict_get_set_eq.
  rewrite dict_mem_set_ne by discriminate.
  rewrite bind_run. unfold get at 1. cbv beta iota.
  simpl added_fragments. rewrite Hadded.
  replace (bool_decide (n ∈ @nil node)) with false
    by (symmetry; apply bool_decide_eq_false; apply not_elem_of_nil).
  destruct (dict_mem "from_itp"%string a) eqn:Hitp; simpl andb; cbv iota.
  - rewrite !bind_run, mark_fragment_added_run. simpl node_to_fragment.
    rewrite Hfrag. reflexivity.
  - rewrite bind_run. reflexivity.
Qed.

(** The loop of lines 200-225 over nodes without [from_itp], as long as no
    fragment has been recorded: it touches the [graph] of these nodes only,
    it keeps the bookkeeping empty, and with a vermouth that merges blocks
    of one [nrexcl] the only exception is a KeyError. *)
Lemma add_blocks_loop_plain_prefix V start_node k nodes :
  forall mol s,
    no_fragment_of start_node s ->
    (forall n, In n nodes -> from_itp_of (meta_molecule s) n = None) ->
    let r := for_acc nodes (add_block V start_node) mol s in
    (forall m, ~ In m nodes ->
               graph_of (meta_molecule (snd r)) m = graph_of (meta_molecule s) m)
    /\ match fst r with
       | inl e =>
           keeps_nrexcl V -> m_nrexcl mol = Some k ->
           (forall n b, block_of s n = inr b -> nrexcl b = k) ->
           e = KeyError
       | inr mol' =>
           no_fragment_of start_node (snd r)
           /\ node_to_block (snd r) = node_to_block s
           /\ force_field (snd r) = force_field s
           /\ (forall n, from_itp_of (meta_molecule (snd r)) n
                         = from_itp_of (meta_molecule s) n)
           /\ (keeps_nrexcl V -> m_nrexcl mol = Some k ->
               (forall n b, block_of s n = inr b -> nrexcl b = k) ->
               m_nrexcl mol' = Some k)
       end.
Proof.
  induction nodes as [|n nodes IH]; intros mol s Hinv Hplain; cbv zeta.
  { simpl. split; [reflexivity|]. repeat split; try apply Hinv. auto. }
  cbn [for_acc]. rewrite bind_run, (add_block_no_fragment _ _ _ _ _ Hinv).
  destruct (block_of s n) as [e|b] eqn:Hb.
  { simpl. split; [reflexivity|]. intros _ _ _. eapply block_of_raises, Hb. }
  destruct (merge_molecule V mol b) as [e|mc] eqn:Hm.
  { simpl. split; [reflexivity|]. intros [_ HV] Hmol Huni.
    rewrite <- (Huni n b Hb) in Hmol.
    destruct (HV mol b Hmol) as (mol' & c & Hm' & _). congruence. }
  destruct (_correspondence_to_residue (meta_molecule s) (fst mc) (snd mc) n)
    as [e|residue] eqn:Hres.
  { simpl. split; [reflexivity|]. intros _ _ _.
    eapply correspondence_to_residue_raises, Hres. }
  destruct (dict_get n (mm_nodes (meta_molecule s))) as [a|] eqn:Ha;
    [|simpl; split; [reflexivity|]; intros _ _ _; reflexivity].
  pose proof (Hplain n (or_introl eq_refl)) as Hn.
  unfold from_itp_of in Hn. rewrite Ha in Hn.
  assert (Hmem : dict_mem "from_itp"%string a = false)
    by (unfold dict_mem; now rewrite Hn).
  rewrite Hmem. cbv beta iota.
  set (s1 := with_graph n (graph_value residue) a s).
  assert (Hinv1 : no_fragment_of start_node s1) by exact Hinv.
  assert (Hitp1 : forall m, from_itp_of (meta_molecule s1) m
                            = from_itp_of (meta_molecule s) m).
  { intros m. simpl. now apply from_itp_of_with_graph. }
  assert (Hplain1 : forall m, In m nodes ->
                              from_itp_of (meta_molecule s1) m = None).
  { intros m Hin. rewrite Hitp1. apply Hplain. now right. }
  specialize (IH (fst mc) s1 Hinv1 Hplain1). cbv zeta in IH.
  destruct IH as [Hgraph Hrest]. split.
  - intros m Hnot. rewrite Hgraph by (intros Hin; apply Hnot; now right).
    simpl. rewrite graph_of_set_graph.
    destruct (decide (n = m)) as [->|Hne]; [|reflexivity].
    exfalso. apply Hnot. now left.
  - assert (Hmol1 : keeps_nrexcl V -> m_nrexcl mol = Some k ->
                    (forall n b, block_of s n = inr b -> nrexcl b = k) ->
                    m_nrexcl (fst mc) = Some k).
    { intros [_ HV] Hmol Huni. rewrite <- (Huni n b Hb) in Hmol |- *.
      destruct (HV mol b Hmol) as (mol' & c & Hm' & Hk).
      rewrite Hm in Hm'. injection Hm' as ->. exact Hk. }
    destruct (fst (for_acc nodes (add_block V start_node) (fst mc) s1))
      as [e|mol'].
    + intros HV Hmol Huni. apply Hrest; auto.
    + destruct Hrest as (H1 & H2 & H3 & H4 & H5).
      split; [exact H1|]. split; [exact H2|]. split; [exact H3|].
      split; [intros m; now rewrite H4|].
      intros HV Hmol Huni. apply H5; auto.
Qed.

(** The visit of a first node and of further nodes that all carry no
    [from_itp]. *)
Lemma visit_nodes_plain V start_node nodes s :
  no_fragment_of start_node s ->
  (forall n, In n (start_node :: nodes) ->
             from_itp_of (meta_molecule s) n = None) ->
  let r := visit_nodes V start_node nodes s in
  (forall m, ~ In m (start_node :: nodes) ->
             graph_of (meta_molecule (snd r)) m = graph_of (meta_molecule s) m)
  /\ match fst r with
     | inl e =>
         keeps_nrexcl V ->
         (forall n1 b1 n2 b2, block_of s n1 = inr b1 -> block_of s n2 = inr b2 ->
                              nrexcl b1 = nrexcl b2) ->
         e = KeyError
     | inr mol =>
         no_fragment_of start_node (snd r)
         /\ node_to_block (snd r) = node_to_block s
         /\ force_field (snd r) = force_field s
         /\ (forall n, from_itp_of (meta_molecule (snd r)) n
                       = from_itp_of (meta_molecule s) n)
         /\ (keeps_nrexcl V ->
             (forall n1 b1 n2 b2, block_of s n1 = inr b1 ->
                                  block_of s n2 = inr b2 ->
                                  nrexcl b1 = nrexcl b2) ->
             exists b0, block_of s start_node = inr b0
                        /\ m_nrexcl mol = Some (nrexcl b0))
     end.
Proof.
  intros Hinv Hplain. cbv zeta. unfold visit_nodes.
  rewrite bind_run, add_first_block_plain by (apply Hplain; now left).
  destruct (block_of s start_node) as [e|b0] eqn:Hb0.
  { simpl. split; [reflexivity|]. intros _ _. eapply block_of_raises, Hb0. }
  destruct (dict_get start_node (mm_nodes (meta_molecule s))) as [a|] eqn:Ha;
    [|simpl; split; [reflexivity|]; intros _ _; reflexivity].
  set (mol0 := to_molecule V b0).
  set (s1 := with_graph start_node (VGraph (m_nodes mol0) (m_edges mol0)) a s).
  assert (Hitp1 : forall m, from_itp_of (meta_molecule s1) m
                            = from_itp_of (meta_molecule s) m).
  { intros m. simpl. now apply from_itp_of_with_graph. }
  destruct (add_blocks_loop_plain_prefix V start_node (nrexcl b0) nodes mol0 s1)
    as [Hgraph Hrest].
  - exact Hinv.
  - intros m Hin. rewrite Hitp1. apply Hplain. now right.
  - cbv zeta in Hgraph, Hrest. split.
    + intros m Hnot. rewrite Hgraph by (intros Hin; apply Hnot; now right).
      simpl. rewrite graph_of_set_graph.
      destruct (decide (start_node = m)) as [->|Hne]; [|reflexivity].
      exfalso. apply Hnot. now left.
    + destruct (fst (for_acc nodes (add_block V start_node) mol0 s1))
        as [e|mol].
      * intros HV Huni. apply Hrest; [exact HV|apply HV|].
        intros n b Hb. exact (Huni _ _ _ _ Hb Hb0).
      * destruct Hrest as (H1 & H2 & H3 & H4 & H5).
        split; [exact H1|]. split; [exact H2|]. split; [exact H3|].
        split; [intros m; now rewrite H4|].
        intros HV Huni. exists b0. split; [reflexivity|].
        apply H5; [exact HV|apply HV|].
        intros n b Hb. exact (Huni _ _ _ _ Hb Hb0).
Qed.

Lemma for_acc_app {A B} (l1 l2 : list A) (body : A -> B -> M B) acc s :
  for_acc (l1 ++ l2) body acc s
  = match for_acc l1 body acc s with
    | (inl e, s') => (inl e, s')
    | (inr acc', s') => for_acc l2 body acc' s'
    end.
Proof.
  revert acc s. induction l1 as [|x l1 IH]; intros acc s; [reflexivity|].
  simpl. rewrite !bind_run.
  destruct (body x acc s) as [[e|acc1] s1]; [reflexivity|]. apply IH.
Qed.

(** Visiting [before ++ n :: after] is visiting [before], then [n], then
    the others. *)
Lemma visit_nodes_app V start_node before n after s :
  visit_nodes V start_node (before ++ n :: after) s
  = match visit_nodes V start_node before s with
    | (inl e, s') => (inl e, s')
    | (inr mol, s') =>
        match add_block V start_node n mol s' with
        | (inl e, s'') => (inl e, s'')
        | (inr mol', s'') => for_acc after (add_block V start_node) mol' s''
        end
    end.
Proof.
  unfold visit_nodes. rewrite !bind_run.
  destruct (add_first_block V start_node s) as [[e|mol0] s0]; [reflexivity|].
  rewrite for_acc_app.
  destruct (for_acc before (add_block V start_node) mol0 s0) as [[e|mol] s1];
    [reflexivity|].
  simpl. now rewrite bind_run.
Qed.

(** The first node of a list that carries [from_itp]. *)
Lemma first_from_itp_node mm later nodes :
  In later nodes ->
  is_Some (from_itp_of mm later) ->
  exists before first after,
    nodes = before ++ first :: after
    /\ (forall n, In n before -> from_itp_of mm n = None)
    /\ is_Some (from_itp_of mm first).
Proof.
  induction nodes as [|n nodes IH]; intros Hin Hlater; [destruct Hin|].
  destruct (from_itp_of mm n) as [v|] eqn:Hn.
  - exists [], n, nodes. split; [reflexivity|]. split; [intros m []|].
    rewrite Hn. eauto.
  - destruct Hin as [->|Hin].
    + rewrite Hn in Hlater. destruct Hlater as [v Hv]. discriminate.
    + destruct (IH Hin Hlater) as (before & first & after & -> & Hb & Hf).
      exists (n :: before), first, after. split; [reflexivity|].
      split; [|exact Hf]. intros m [<-|Hm]; auto.
Qed.

(** After [tag_exclusions] the templates of the nodes have one [nrexcl]. *)
Lemma block_of_uniform s ff' :
  dict_wf (node_to_block s) ->
  tag_exclusions (node_to_block s) (force_field s) = inr ff' ->
  forall n1 b1 n2 b2,
    block_of (with_force_field (fun _ => ff') s) n1 = inr b1 ->
    block_of (with_force_field (fun _ => ff') s) n2 = inr b2 ->
    nrexcl b1 = nrexcl b2.
Proof.
  intros Hwf Hrun n1 b1 n2 b2. unfold block_of. simpl.
  destruct (dict_get n1 (node_to_block s)) as [name1|] eqn:H1; [|discriminate].
  destruct (dict_get n2 (node_to_block s)) as [name2|] eqn:H2; [|discriminate].
  apply dict_get_In in H1, H2. intros Hb1 Hb2.
  destruct (tag_exclusions_cases _ _ _ Hwf Hrun)
    as (Hex & [[-> Hsame]|(m & _ & _ & _ & Htag & _)]).
  - exact (Hsame _ _ _ _ _ _ H1 Hb1 H2 Hb2).
  - destruct (Hex n1 name1 H1) as [c1 Hc1].
    destruct (Hex n2 name2 H2) as [c2 Hc2].
    rewrite (Htag n1 name1 c1 H1 Hc1) in Hb1.
    rewrite (Htag n2 name2 c2 H2 Hc2) in Hb2.
    injection Hb1 as <-. injection Hb2 as <-. reflexivity.
Qed.

(** C3: the first node in the order of [resid] carries no [from_itp] and a
    later one does; [add_blocks] is run as [run_molecule] runs it, after the
    classification and [tag_exclusions].  Let [first] be the first node of
    the order that carries [from_itp].  Then [add_blocks] raises, and
    [run_molecule] ends with the same exception; no node after [first] is
    handled; and with a vermouth that merges blocks of one [nrexcl] the
    exception is a KeyError.  When the visit of the nodes before [first]
    returns, the exception is raised in the pass of the loop for [first]:
    [node_to_fragment] has no entry for the first node of the order, and
    either the template of [first] is not found (KeyError), or
    [merge_molecule] raises, or the residue cannot be made (KeyError), or
    the residue is stored as the [graph] of [first] (line 216) and the
    lookup [node_to_fragment[start_node]] of line 223 raises the
    KeyError. *)
Theorem add_blocks_fails_after_plain_first_node
        V ff mm start_node rest later s1 ff' :
  dict_wf (mm_nodes mm) ->
  node_order mm = inr (start_node :: rest) ->
  from_itp_of mm start_node = None ->
  In later rest ->
  is_Some (from_itp_of mm later) ->
  match_nodes_to_blocks (init_state ff mm) = (inr tt, s1) ->
  tag_exclusions (node_to_block s1) (force_field s1) = inr ff' ->
  exists before first after e s',
    rest = before ++ first :: after
    /\ (forall n, In n before -> from_itp_of mm n = None)
    /\ is_Some (from_itp_of mm first)
    /\ add_blocks V (with_force_field (fun _ => ff') s1) = (inl e, s')
    /\ run_molecule V (init_state ff mm) = (inl e, s')
    /\ (keeps_nrexcl V -> e = KeyError)
    /\ (forall n, In n after -> graph_of (meta_molecule s') n = graph_of mm n)
    /\ match visit_nodes V start_node before
                         (with_force_field (fun _ => ff') s1) with
       | (inl e0, s0) => e = e0 /\ s' = s0
       | (inr mol, s2) =>
           node_to_fragment s2 !! start_node = None
           /\ match block_of s2 first with
              | inl _ => e = KeyError /\ s' = s2
              | inr b =>
                  match merge_molecule V mol b with
                  | inl em => e = em /\ s' = s2
                  | inr mc =>
                      e = KeyError
                      /\ match _correspondence_to_residue
                                 (meta_molecule s2) (fst mc) (snd mc) first with
                         | inl _ => s' = s2
                         | inr residue =>
                             set_graph first (graph_value residue) s2
                             = (inr tt, s')
                             /\ mark_fragment_added start_node s'
                                = (inl KeyError, s')
                         end
                  end
              end
       end.
Proof.
  intros Hwf Horder Hstart Hin Hlater Hmatch Htag.
  set (s := with_force_field (fun _ => ff') s1).
  pose proof (match_nodes_to_blocks_classified ff mm) as Hcl.
  rewrite Hmatch in Hcl. simpl in Hcl.
  destruct Hcl as (Hff & Hmm & Hnodes & Hadded & _ & Hfrag).
  assert (Hmms : meta_molecule s = mm) by exact Hmm.
  assert (Hinv : no_fragment_of start_node s).
  { repeat split; simpl; try assumption.
    destruct (node_to_fragment s1 !! start_node) as [k|] eqn:Hk; [|reflexivity].
    assert (Hmem : dict_mem start_node (restart_attr_of mm) = true)
      by (apply Hfrag; eauto).
    unfold dict_mem in Hmem. rewrite restart_attr_lookup in Hmem by exact Hwf.
    now rewrite Hstart in Hmem. }
  assert (Hwf1 : dict_wf (node_to_block s1)).
  { pose proof (match_nodes_to_blocks_keeps_exact
                  (fun s => dict_wf (node_to_block s)) mm
                  (fun s c H => H)
                  (fun s m v H _ => dict_set_wf m v _ H)
                  (fun s m k H _ => H)
                  (init_state ff mm) eq_refl) as H.
    rewrite Hmatch in H. apply H. constructor. }
  pose proof (block_of_uniform s1 ff' Hwf1 Htag) as Huni. fold s in Huni.
  destruct (first_from_itp_node mm later rest Hin Hlater)
    as (before & first & after & Hrest & Hbefore & Hfirst).
  assert (Hnd : NoDup (start_node :: rest)).
  { destruct (node_order_ascending_and_stable
                mm mm _ Hwf (Permutation_refl _) Horder) as (_ & Hperm & _).
    rewrite Hperm. exact Hwf. }
  assert (Hafter : forall n, In n after ->
                             ~ In n (start_node :: before) /\ first <> n).
  { intros n Hn. rewrite Hrest in Hnd.
    apply NoDup_cons in Hnd as [Hs Hnd].
    apply NoDup_app in Hnd as (_ & Hdisj & Hnd).
    apply NoDup_cons in Hnd as [Hf _].
    rewrite list_elem_of_In in Hs, Hf. split.
    - intros [<-|Hb].
      + apply Hs, in_or_app. right. now right.
      + apply (Hdisj n); apply list_elem_of_In; [exact Hb|now right].
    - intros <-. contradiction. }
  assert (Hplain : forall n, In n (start_node :: before) ->
                             from_itp_of (meta_molecule s) n = None).
  { rewrite Hmms. intros n [<-|Hn]; auto. }
  destruct (visit_nodes_plain V start_node before s Hinv Hplain)
    as [Hgraph Hvisit].
  cbv zeta in Hgraph, Hvisit. rewrite Hmms in Hgraph.
  assert (Hadd : add_blocks V s
                 = visit_nodes V start_node (before ++ first :: after) s).
  { apply add_blocks_visit. rewrite Hmms, Horder, Hrest. reflexivity. }
  rewrite visit_nodes_app in Hadd.
  assert (Hrun : forall e s', add_blocks V s = (inl e, s') ->
                              run_molecule V (init_state ff mm) = (inl e, s')).
  { intros e s' Hraise. rewrite run_molecule_run.
    rewrite (bind_ok _ _ _ _ _ Hmatch).
    rewrite bind_run. unfold get at 1. cbv beta iota.
    rewrite bind_run. unfold lift at 1. rewrite Htag. cbv beta iota.
    rewrite bind_run. unfold modify at 1. cbv beta iota.
    now rewrite (bind_err _ _ _ _ _ Hraise). }
  exists before, first, after.
  destruct (visit_nodes V start_node before s) as [[e0|mol] s2];
    cbn [fst snd] in Hgraph, Hvisit.
  { exists e0, s2. split; [exact Hrest|]. split; [exact Hbefore|].
    split; [exact Hfirst|]. split; [exact Hadd|].
    split; [now apply Hrun|]. split; [intros HV; now apply Hvisit|].
    split; [|now split].
    intros n Hn. apply Hgraph, Hafter, Hn. }
  destruct Hvisit as (Hinv2 & Hntb & Hff2 & Hitp2 & Hk).
  assert (Hblock2 : forall n, block_of s2 n = block_of s n).
  { intros n. unfold block_of. now rewrite Hntb, Hff2. }
  rewrite (add_block_no_fragment _ _ _ _ _ Hinv2) in Hadd.
  destruct Hfirst as [v Hv].
  pose proof (Hitp2 first) as Hv2. rewrite Hmms, Hv in Hv2.
  unfold from_itp_of in Hv2.
  destruct (dict_get first (mm_nodes (meta_molecule s2))) as [a|] eqn:Ha;
    [|discriminate].
  assert (Hmem : dict_mem "from_itp"%string a = true)
    by (unfold dict_mem; now rewrite Hv2).
  rewrite Hmem in Hadd.
  assert (Hgraph2 : forall n, In n after ->
                              graph_of (meta_molecule s2) n = graph_of mm n).
  { intros n Hn. apply Hgraph, Hafter, Hn. }
  destruct (block_of s2 first) as [e1|b] eqn:Hb.
  { exists KeyError, s2. rewrite (block_of_raises _ _ _ Hb) in Hadd.
    split; [exact Hrest|]. split; [exact Hbefore|].
    split; [eauto|]. split; [exact Hadd|].
    split; [now apply Hrun|]. split; [reflexivity|].
    split; [exact Hgraph2|]. split; [apply Hinv2|now split]. }
  destruct (merge_molecule V mol b) as [em|mc] eqn:Hm.
  { exists em, s2.
    split; [exact Hrest|]. split; [exact Hbefore|].
    split; [eauto|]. split; [exact Hadd|].
    split; [now apply Hrun|].
    split; [|split; [exact Hgraph2|split; [apply Hinv2|now split]]].
    intros HV. destruct (Hk HV Huni) as (b0 & Hb0 & Hmol).
    rewrite Hblock2 in Hb.
    rewrite (Huni _ _ _ _ Hb0 Hb) in Hmol.
    destruct HV as [_ HV].
    destruct (HV mol b Hmol) as (mol' & c & Hm' & _). congruence. }
  destruct (_correspondence_to_residue (meta_molecule s2) (fst mc) (snd mc) first)
    as [e1|residue] eqn:Hres.
  { exists KeyError, s2.
    rewrite (correspondence_to_residue_raises _ _ _ _ _ Hres) in Hadd.
    split; [exact Hrest|]. split; [exact Hbefore|].
    split; [eauto|]. split; [exact Hadd|].
    split; [now apply Hrun|]. split; [reflexivity|].
    split; [exact Hgraph2|]. split; [apply Hinv2|now split]. }
  exists KeyError, (with_graph first (graph_value residue) a s2).
  split; [exact Hrest|]. split; [exact Hbefore|].
  split; [eauto|]. split; [exact Hadd|].
  split; [now apply Hrun|]. split; [reflexivity|].
  split.
  - intros n Hn. simpl. rewrite graph_of_set_graph.
    destruct (decide (first = n)) as [Heq|_];
      [now apply Hafter in Hn|now apply Hgraph2].
  - split; [apply Hinv2|]. split; [reflexivity|]. split.
    + rewrite set_graph_run, Ha. reflexivity.
    + rewrite mark_fragment_added_run. simpl node_to_fragment.
      destruct Hinv2 as [-> _]. reflexivity.
Qed.

Lemma add_blocks_fails_after_plain_first_node_witness :
  keeps_nrexcl vermouth_model
  /\ fst (run_molecule vermouth_model (init_state ff_fragments meta_fragment_second))
     = inl KeyError
  /\ is_Some (graph_of
                (meta_molecule
                   (snd (run_molecule vermouth_model
                           (init_state ff_fragments meta_fragment_second)))) 1)
  /\ graph_of
       (meta_molecule
          (snd (run_molecule vermouth_model
                  (init_state ff_fragments meta_fragment_second)))) 2
     = None
  /\ exists before first after e s',
       [1; 2] = before ++ first :: after
       /\ (forall n, In n before -> from_itp_of meta_fragment_second n = None)
       /\ is_Some (from_itp_of meta_fragment_second first)
       /\ add_blocks vermouth_model
                     (with_force_field
                        (fun _ => ff_fragments)
                        (snd (match_nodes_to_blocks
                                (init_state ff_fragments meta_fragment_second))))
          = (inl e, s')
       /\ run_molecule vermouth_model (init_state ff_fragments meta_fragment_second)
          = (inl e, s')
       /\ (keeps_nrexcl vermouth_model -> e = KeyError)
       /\ (forall n, In n after ->
             graph_of (meta_molecule s') n = graph_of meta_fragment_second n)
       /\ match visit_nodes vermouth_model 0 before
                            (with_force_field
                               (fun _ => ff_fragments)
                               (snd (match_nodes_to_blocks
                                       (init_state ff_fragments
                                                   meta_fragment_second)))) with
          | (inl e0, s0) => e = e0 /\ s' = s0
          | (inr mol, s2) =>
              node_to_fragment s2 !! 0 = None
              /\ match block_of s2 first with
                 | inl _ => e = KeyError /\ s' = s2
                 | inr b =>
                     match merge_molecule vermouth_model mol b with
                     | inl em => e = em /\ s' = s2
                     | inr mc =>
                         e = KeyError
                         /\ match _correspondence_to_residue
                                    (meta_molecule s2) (fst mc) (snd mc) first with
                            | inl _ => s' = s2
                            | inr residue =>
                                set_graph first (graph_value residue) s2
                                = (inr tt, s')
                                /\ mark_fragment_added 0 s' = (inl KeyError, s')
                            end
                     end
                 end
          end.
Proof.
  split; [exact vermouth_model_keeps_nrexcl|].
  split; [vm_compute; reflexivity|].
  split; [eexists; vm_compute; reflexivity|].
  split; [vm_compute; reflexivity|].
  apply (add_blocks_fails_after_plain_first_node
           vermouth_model ff_fragments meta_fragment_second 0 [1; 2] 1).
  - unfold dict_wf. simpl. nodup_small.
  - reflexivity.
  - reflexivity.
  - simpl. auto.
  - eexists. reflexivity.
  - vm_compute. reflexivity.
  - vm_compute. reflexivity.
Defined.
